(** * Benchmark sweep scripts of Minimal-k-Isomorphic-Subgraph-Extension

    A shallow embedding of the two plotting scripts

      - [scripts/plot_runtime_vs_n2.py]        (module [RuntimeVsN1])
      - [scripts/plot_approx_runtime_vs_n2.py] (module [ApproxVsN2])

    Both scripts are sequential programs that talk to the outside world
    (file system, clock, child processes, matplotlib).  A script function
    [f] becomes a computation [M A]: a function from the current [World]
    to an [outcome] and the world afterwards.  What the outside world
    answers is fixed by an [Env] record, over which every theorem
    quantifies.

    What is taken from Python rather than from the scripts:
      - [subprocess.run] with [text=True] returns the return code and the
        decoded output of a process that exits (in time, if a timeout is
        given), raises [UnicodeDecodeError] when that output does not
        decode, raises [TimeoutExpired] only if a timeout is given, raises
        [OSError] for a command that cannot be started, and does not
        return for a process that never exits when no timeout is given;
      - [print], [Path.exists], [Path.mkdir(parents=True, exist_ok=True)]
        and [time.perf_counter] do not raise;
      - the calls into pyplot are logged and taken to return; for
        [plt.savefig] this means that the output path is taken to have a
        suffix the backend can write, and the file saved is taken to be
        the path passed.  Only statements that say that [main] or
        [plot_runtime] returns, or that the figure file exists, rest on
        this; statements about which pyplot calls are made, and about
        what happens before the figure is begun, do not;
      - an uncaught exception ends the interpreter with status 1, an
        uncaught [SystemExit(n)] with status [n];
      - times are binary64 floats ([PrimFloat]), sizes and statuses are
        unbounded integers.
    [parse_args] is not modelled: [main] starts from the namespace it
    returns. *)

From Stdlib Require Import ZArith QArith List String Ascii Lia Bool Sorted.
From Stdlib Require Import Floats.PrimFloat.
From Stdlib Require DecimalString DecimalPos DecimalZ.
From stdpp Require Import gmap strings list.

Local Open Scope string_scope.
Local Open Scope list_scope.
Local Open Scope Z_scope.

(* ===================================================================== *)
(** * Python values used by the scripts *)
(* ===================================================================== *)

(** [str(n)] for a Python [int]. *)
Definition str_int (z : Z) : string :=
  DecimalString.NilZero.string_of_int (Z.to_int z).

(** [", ".join(parts)] and friends. *)
Fixpoint join (sep : string) (parts : list string) : string :=
  match parts with
  | [] => ""
  | [p] => p
  | p :: rest => p +:+ sep +:+ join sep rest
  end.

(** [repr(s)] for a string of printable ASCII characters that holds
    neither a quote nor a backslash: the string between single quotes. *)
Definition repr_plain (s : string) : string := "'" +:+ s +:+ "'".

(** [str(l)] for a list of such strings: [['sleep', '60']]. *)
Definition str_plain_list (l : list string) : string :=
  "[" +:+ join ", " (repr_plain <$> l) +:+ "]".

(** [str(xs)] for a list of ints: [[2, 3, 4]]. *)
Definition str_int_list (xs : list Z) : string :=
  "[" +:+ join ", " (str_int <$> xs) +:+ "]".

(** ** [range]

    CPython computes the length of [range(start, stop, step)] as
    [0] when the interval is empty and [(hi - lo - 1) // step + 1]
    otherwise; item [i] is [start + i * step].  A zero step raises
    [ValueError]; that case is handled where [range] is called. *)
Definition range_length (start stop step : Z) : Z :=
  if 0 <? step then
    if start <? stop then (stop - start - 1) / step + 1 else 0
  else
    if stop <? start then (start - stop - 1) / (- step) + 1 else 0.

Definition range_items (start stop step : Z) : list Z :=
  (fun i => start + i * step) <$> seqZ 0 (range_length start stop step).

(** The sweep both [main] functions derive:
    [list(range(start, end + 1, step))]. *)
Definition sweep (start end_ step : Z) : list Z :=
  range_items start (end_ + 1) step.

(** Ceiling of [a / b] for positive [b]. *)
Definition ceil_div (a b : Z) : Z := - ((- a) / b).

(** The last sweep value when the sweep is not empty. *)
Definition sweep_last (start end_ step : Z) : Z :=
  start + ((end_ - start) / step) * step.

(** ** Strings and paths *)

(** The newline character of ["\n"]. *)
Definition nl : string := String (ascii_of_nat 10) EmptyString.

(** [s.rfind(c)]: index of the last occurrence of [c], if any. *)
Fixpoint rfind (c : ascii) (s : string) : option nat :=
  match s with
  | EmptyString => None
  | String a rest =>
      match rfind c rest with
      | Some i => Some (S i)
      | None => if Ascii.eqb a c then Some 0%nat else None
      end
  end.

(** [s.split(sep)] for a one-character separator. *)
Fixpoint split_on (sep : ascii) (s : string) : list string :=
  match s with
  | EmptyString => [""]
  | String a rest =>
      if Ascii.eqb a sep then "" :: split_on sep rest
      else match split_on sep rest with
           | p :: ps => String a p :: ps
           | [] => [String a ""]
           end
  end.

(** A [pathlib.Path] that is absolute: its components below the root. *)
Definition Path := list string.

Definition path_join (p : Path) (c : string) : Path := p ++ [c].
Notation "p // c" := (path_join p c) (at level 40, left associativity).

(** [str(p)] *)
Definition path_str (p : Path) : string := "/" +:+ join "/" p.

(** [p.parent] *)
Definition parent (p : Path) : Path := removelast p.

(** [p.name] *)
Definition name (p : Path) : string := List.last p "".

(** [p.stem]: the name without its last suffix; pathlib keeps the whole
    name when the last dot is its first or its last character. *)
Definition stem (p : Path) : string :=
  let nm := name p in
  match rfind "." nm with
  | Some i =>
      if ((0 <? i) && (i <? String.length nm - 1))%nat
      then substring 0 i nm else nm
  | None => nm
  end.

(** [p] and the directories above it, as [mkdir(parents=True)] makes
    them. *)
Definition with_parents (p : Path) : list Path :=
  (fun n => take n p) <$> seq 1 (length p).

(* ===================================================================== *)
(** * The outside world *)
(* ===================================================================== *)

(** How a [subprocess.run] call ended, as the log records it. *)
Inductive proc_result :=
| Completed (returncode : Z) (stdout : string)
| TimedOut
| FailedToStart (err : string)
| Blocked
| Undecodable (reason : string).

(** Calls into [matplotlib.pyplot]. *)
Inductive plt_call :=
| Figure (width height : Z)
| Plot (xs : list Z) (ys : list float) (marker linestyle color label : string)
| Yscale (scale : string)
| Xlabel (s : string)
| Ylabel (s : string)
| Title (s : string)
| Grid
| Legend
| TightLayout
| Savefig (p : Path) (dpi : Z).

(** Everything a script does that can be observed from outside. *)
Inductive event :=
| EvPrint (s : string)
| EvClock (t : float)
| EvRun (cmd : list string) (cwd : string) (timeout : option Z)
        (r : proc_result)
| EvMkdir (p : Path)
| EvPlt (c : plt_call).

(** The world a script runs in: the paths that exist and the log of what
    the script did so far. *)
Record World := mkWorld {
  files : gset Path;
  log : list event;
}.

(** What a child process does when it is started: it runs for [secs]
    seconds and exits, having written output that decodes to the text
    [stdout] or output that does not decode in the encoding of the locale
    ([subprocess.run] with [text=True] then raises [UnicodeDecodeError]);
    it never exits; or it cannot be started at all ([subprocess.run] then
    raises [OSError]). *)
Inductive behaviour :=
| Exits (secs : Q) (returncode : Z) (stdout : string)
| Hangs
| CannotStart (err : string)
| ExitsUndecodable (secs : Q) (returncode : Z) (reason : string).

(** The answers of the outside world.  Processes and the clock may depend
    on the whole world, hence on everything that happened before; a
    process also decides which paths exist after it ran.  The last five
    fields are Python built-ins the development does not look into:
    [str(float)], [format(x, ".6f")], [str(list_of_str)], [s.strip()] and
    [s.splitlines()]. *)
Record Env := mkEnv {
  PROJECT_ROOT : Path;
  proc : list string -> string -> World -> behaviour * gset Path;
  clock : World -> float;
  resolve : string -> Path;
  str_float : float -> string;
  fmt_6f : float -> string;
  str_list : list string -> string;
  strip : string -> string;
  splitlines : string -> list string;
}.

(* ===================================================================== *)
(** * Computations *)
(* ===================================================================== *)

(** The exceptions the scripts can meet. *)
Inductive exn :=
| RuntimeError (msg : string)
| ValueError (msg : string)
| IndexError (msg : string)
| OSError (msg : string)
| TimeoutExpired (cmd : list string) (timeout : Z)
| SystemExit (code : Z)
| UnicodeDecodeError (msg : string).

Inductive outcome (A : Type) :=
| Ret (a : A)
| Raise (e : exn)
| Diverge.
Arguments Ret {A} a.
Arguments Raise {A} e.
Arguments Diverge {A}.

Definition M (A : Type) : Type := World -> outcome A * World.

Definition ret {A} (a : A) : M A := fun w => (Ret a, w).

Definition bind {A B} (m : M A) (k : A -> M B) : M B :=
  fun w =>
    match m w with
    | (Ret a, w') => k a w'
    | (Raise e, w') => (Raise e, w')
    | (Diverge, w') => (Diverge, w')
    end.

Definition raise {A} (e : exn) : M A := fun w => (Raise e, w).

Notation "'let*' x := m 'in' k" := (bind m (fun x => k))
  (at level 10, x pattern, m at level 100, k at level 200).
Notation "m >> k" := (bind m (fun _ => k))
  (at level 100, k at level 200, right associativity).

(** A computation that ends without a value ends the computations it is
    bound into. *)
Definition stopped {A} (o : outcome A) : Prop :=
  match o with Ret _ => False | _ => True end.

Definition recast {A B} (o : outcome A) : outcome B :=
  match o with
  | Ret _ => Diverge
  | Raise e => Raise e
  | Diverge => Diverge
  end.

(** Whatever [m] logs satisfies [P]. *)
Definition emits {A} (P : event -> Prop) (m : M A) : Prop :=
  forall w, exists evs, log (m w).2 = log w ++ evs /\ Forall P evs.

(** [m] returns [a] and logs [evs], whatever the world. *)
Definition yields {A} (m : M A) (a : A) (evs : list event) : Prop :=
  forall w, (m w).1 = Ret a /\ log (m w).2 = log w ++ evs.

(** [try: body except E as e: handler]: [handler e = None] when the
    [except] clause does not match [e]. *)
Definition try_except {A} (body : M A) (handler : exn -> option (M A)) : M A :=
  fun w =>
    match body w with
    | (Raise e, w') =>
        match handler e with
        | Some h => h w'
        | None => (Raise e, w')
        end
    | r => r
    end.

(** [for x in xs: s = body(x, s)] *)
Fixpoint for_each {A S} (xs : list A) (body : A -> S -> M S) (s : S) : M S :=
  match xs with
  | [] => ret s
  | x :: rest => let* s' := body x s in for_each rest body s'
  end.

Definition emit (e : event) : M unit :=
  fun w => (Ret tt, mkWorld (files w) (log w ++ [e])).

(** [print(s)] *)
Definition print (s : string) : M unit := emit (EvPrint s).

(** [p.exists()] *)
Definition path_exists (p : Path) : M bool :=
  fun w => (Ret (bool_decide (p ∈ files w)), w).

(** [p.mkdir(parents=True, exist_ok=True)], taken to succeed. *)
Definition mkdir_parents (p : Path) : M unit :=
  fun w => (Ret tt, mkWorld (files w ∪ list_to_set (with_parents p))
                            (log w ++ [EvMkdir p])).

(** A call into pyplot; [savefig] creates the figure file. *)
Definition plt (c : plt_call) : M unit :=
  fun w =>
    let fs := match c with
              | Savefig p _ => files w ∪ {[ p ]}
              | _ => files w
              end in
    (Ret tt, mkWorld fs (log w ++ [EvPlt c])).

(** [xs[i]] *)
Definition index {A} (xs : list A) (i : nat) : M A :=
  match xs !! i with
  | Some x => ret x
  | None => raise (IndexError "list index out of range")
  end.

(** The exit status of the interpreter after running the script body:
    [0] after a normal return, the code of an uncaught [SystemExit], [1]
    after any other uncaught exception; none if the script never ends. *)
Definition exit_status {A} (o : outcome A) : option Z :=
  match o with
  | Ret _ => Some 0
  | Raise (SystemExit code) => Some code
  | Raise _ => Some 1
  | Diverge => None
  end.

(** [list(range(start, stop, step))] *)
Definition py_range (start stop step : Z) : M (list Z) :=
  if step =? 0 then raise (ValueError "range() arg 3 must not be zero")
  else ret (range_items start stop step).

(** The masking loop of both [plot_runtime] functions: keep the points
    whose time is not [None] and [> 0], appending to [mx] and [my]. *)
Definition mask_step (acc : list Z * list float) (xy : Z * option float)
    : list Z * list float :=
  let '(mx, my) := acc in
  let '(x, y) := xy in
  match y with
  | Some t => if PrimFloat.ltb 0%float t then (mx ++ [x], my ++ [t]) else (mx, my)
  | None => (mx, my)
  end.

Definition mask_vals (xs : list Z) (ys : list (option float))
    : list Z * list float :=
  fold_left mask_step (zip xs ys) ([], []).

Section Runner.
Variable env : Env.

(** [time.perf_counter()] *)
Definition perf_counter : M float :=
  fun w => let t := clock env w in
           (Ret t, mkWorld (files w) (log w ++ [EvClock t])).

(** [str(e)] for [e : subprocess.TimeoutExpired]. *)
Definition str_TimeoutExpired (cmd : list string) (timeout : Z) : string :=
  "Command '" +:+ str_list env cmd +:+ "' timed out after "
    +:+ str_int timeout +:+ " seconds".

(** [subprocess.run(cmd, cwd=cwd, stdout=PIPE, stderr=STDOUT,
    timeout=timeout, text=True, check=False)]: returns the return code
    and the combined output, decoded; raises [TimeoutExpired] when a
    timeout was given and the process is not done after that many
    seconds; raises [UnicodeDecodeError] when the process is done in time
    and its output does not decode; and waits forever for a process that
    never exits when no timeout was given. *)
Definition subprocess_run (cmd : list string) (cwd : string)
    (timeout : option Z) : M (Z * string) :=
  fun w =>
    let '(b, fs) := proc env cmd cwd w in
    let after r := mkWorld fs (log w ++ [EvRun cmd cwd timeout r]) in
    match b with
    | CannotStart err =>
        (Raise (OSError err),
         mkWorld (files w) (log w ++ [EvRun cmd cwd timeout (FailedToStart err)]))
    | Hangs =>
        match timeout with
        | Some t => (Raise (TimeoutExpired cmd t), after TimedOut)
        | None => (Diverge, after Blocked)
        end
    | Exits secs returncode stdout =>
        match timeout with
        | Some t =>
            if Qle_bool secs (inject_Z t)
            then (Ret (returncode, stdout), after (Completed returncode stdout))
            else (Raise (TimeoutExpired cmd t), after TimedOut)
        | None => (Ret (returncode, stdout), after (Completed returncode stdout))
        end
    | ExitsUndecodable secs returncode reason =>
        match timeout with
        | Some t =>
            if Qle_bool secs (inject_Z t)
            then (Raise (UnicodeDecodeError reason), after (Undecodable reason))
            else (Raise (TimeoutExpired cmd t), after TimedOut)
        | None => (Raise (UnicodeDecodeError reason), after (Undecodable reason))
        end
    end.

(** [run_cmd], the same in both scripts. *)
Definition run_cmd (cmd : list string) (cwd : Path) (timeout : option Z)
    : M (Z * string) :=
  try_except
    (let* proc := subprocess_run cmd (path_str cwd) timeout in
     ret (fst proc, snd proc))
    (fun e =>
       match e with
       | TimeoutExpired c t =>
           Some (ret (124, "TimeoutExpired: " +:+ str_TimeoutExpired c t))
       | _ => None
       end).

Definition BIN_DIR : Path := PROJECT_ROOT env // "target" // "release".
Definition EXAMPLES_DIR : Path := PROJECT_ROOT env // "examples".
Definition GEN_DIR : Path := EXAMPLES_DIR // "generated_benchmarks".

(** The loop of [ensure_built]: [need_build] is set at the first name
    whose binary is missing. *)
Fixpoint need_build_loop (names : list string) : M bool :=
  match names with
  | [] => ret false
  | name :: rest =>
      let* present := path_exists (BIN_DIR // name) in
      if negb present then ret true else need_build_loop rest
  end.

(** The generator command line both scripts build. *)
Definition generator_cmd (n1 n2 : Z) (density_g density_h : float)
    (seed : option Z) (output_path : Path) : list string :=
  [ path_str (BIN_DIR // "input-generator");
    "--n1"; str_int n1;
    "--n2"; str_int n2;
    "--density-g"; str_float env density_g;
    "--density-h"; str_float env density_h;
    "--noise";
    "--output"; path_str output_path ]
  ++ match seed with
     | Some s => ["--seed"; str_int s]
     | None => []
     end.

(** The body the three [time_solver_*] functions share: they differ in
    the command, in the tag of the log line and in the field of the
    file name the log line shows. *)
Definition timed_run (cmd : list string) (tag : string) (field : nat)
    (instance_path : Path) (timeout_seconds : Z) : M (option float) :=
  let* start := perf_counter in
  let* (code, out) :=
    run_cmd cmd (PROJECT_ROOT env) (Some timeout_seconds) in
  let* stop := perf_counter in
  let elapsed := PrimFloat.sub stop start in
  let* label := index (split_on "_" (stem instance_path)) field in
  print (tag +:+ label +:+ ", exit=" +:+ str_int code
          +:+ ", time=" +:+ fmt_6f env elapsed +:+ "s") >>
  if negb (code =? 0) then print out >> ret None
  else ret (Some elapsed).

(** [GEN_DIR / f"generated_{n1}_{n2}.txt"] *)
Definition instance_path (n1 n2 : Z) : Path :=
  GEN_DIR // ("generated_" +:+ str_int n1 +:+ "_" +:+ str_int n2 +:+ ".txt").

(** What [generate_instance] does before it runs the generator; only
    the script of the [n1] sweep prints the command. *)
Definition before_generator (show_cmd : bool) (cmd : list string)
    (output_path : Path) : M unit :=
  mkdir_parents (parent output_path) >>
  if show_cmd then print (str_list env cmd) else ret tt.

(** The body the two [generate_instance] functions share. *)
Definition generate (show_cmd : bool) (n1 n2 : Z)
    (density_g density_h : float) (seed : option Z) (output_path : Path)
    : M unit :=
  let cmd := generator_cmd n1 n2 density_g density_h seed output_path in
  before_generator show_cmd cmd output_path >>
  let* (code, out) := run_cmd cmd (PROJECT_ROOT env) None in
  print ("[gen n1=" +:+ str_int n1 +:+ ", n2=" +:+ str_int n2
          +:+ "] exit=" +:+ str_int code) >>
  if negb (code =? 0) then
    print out >>
    raise (RuntimeError ("Failed to generate instance: "
                           +:+ path_str output_path))
  else
    let lines := splitlines env (strip env out) in
    print (join nl (take 10 lines)).

(** The instance part of the loop body of both [main] functions. *)
Definition provide (show_cmd : bool) (n1 n2 : Z)
    (density_g density_h : float) (seed : option Z) : M unit :=
  let instance_path := instance_path n1 n2 in
  let* present := path_exists instance_path in
  if negb present then
    print ("Generating instance for n1=" +:+ str_int n1 +:+ ", n2="
            +:+ str_int n2 +:+ " ...") >>
    generate show_cmd n1 n2 density_g density_h seed instance_path
  else
    print ("Using existing instance: " +:+ path_str instance_path).
End Runner.


(* ===================================================================== *)
(** * [scripts/plot_runtime_vs_n2.py]: exact and approximate solver,
      fixed [n2], varying [n1] *)
(* ===================================================================== *)

Module RuntimeVsN1.

(** The namespace [parse_args] returns. *)
Record Args := mkArgs {
  n2 : Z;
  k : Z;
  n1_start : Z;
  n1_end : Z;
  n1_step : Z;
  density_g : float;
  density_h : float;
  seed : Z;
  trials_multiplier : Z;
  timeout_seconds : Z;
  output : string;
}.

(** The three variables the sweep loop of [main] updates. *)
Record loop_state := mkLoop {
  exact_times : list (option float);
  approx_times : list (option float);
  exact_failed : bool;
}.

Section Script.
Variable env : Env.

Definition ensure_built : M unit :=
  let* need_build :=
    need_build_loop env ["exact-solver"; "approx-solver"; "input-generator"] in
  if need_build then
    print "Building release binaries with cargo build --release ..." >>
    let* (code, out) :=
      run_cmd env ["cargo"; "build"; "--release"] (PROJECT_ROOT env) None in
    print out >>
    if negb (code =? 0) then
      print "Failed to build project. Please check the output above." >>
      raise (SystemExit 1)
    else ret tt
  else ret tt.

Definition generate_instance (n1 n2 : Z) (density_g density_h : float)
    (seed : option Z) (output_path : Path) : M unit :=
  mkdir_parents (parent output_path) >>
  let cmd := generator_cmd env n1 n2 density_g density_h seed output_path in
  print (str_list env cmd) >>
  let* (code, out) := run_cmd env cmd (PROJECT_ROOT env) None in
  print ("[gen n1=" +:+ str_int n1 +:+ ", n2=" +:+ str_int n2
          +:+ "] exit=" +:+ str_int code) >>
  if negb (code =? 0) then
    print out >>
    raise (RuntimeError ("Failed to generate instance: "
                           +:+ path_str output_path))
  else
    let lines := splitlines env (strip env out) in
    print (join nl (take 10 lines)).

Definition exact_cmd (instance_path : Path) (k : Z) : list string :=
  [ path_str (BIN_DIR env // "exact-solver");
    "--input"; path_str instance_path;
    "--k"; str_int k ].

Definition time_solver_exact (instance_path : Path) (k timeout_seconds : Z)
    : M (option float) :=
  let cmd := exact_cmd instance_path k in
  let* start := perf_counter env in
  let* (code, out) :=
    run_cmd env cmd (PROJECT_ROOT env) (Some timeout_seconds) in
  let* stop := perf_counter env in
  let elapsed := PrimFloat.sub stop start in
  let* n1_label := index (split_on "_" (stem instance_path)) 1 in
  print ("[exact] n1=" +:+ n1_label +:+ ", exit=" +:+ str_int code
          +:+ ", time=" +:+ fmt_6f env elapsed +:+ "s") >>
  if negb (code =? 0) then print out >> ret None
  else ret (Some elapsed).

Definition approx_cmd (instance_path : Path) (k trials_multiplier : Z)
    : list string :=
  [ path_str (BIN_DIR env // "approx-solver");
    "--input"; path_str instance_path;
    "--k"; str_int k;
    "--trials-multiplier"; str_int trials_multiplier ].

Definition time_solver_approx (instance_path : Path)
    (k trials_multiplier timeout_seconds : Z) : M (option float) :=
  let cmd := approx_cmd instance_path k trials_multiplier in
  let* start := perf_counter env in
  let* (code, out) :=
    run_cmd env cmd (PROJECT_ROOT env) (Some timeout_seconds) in
  let* stop := perf_counter env in
  let elapsed := PrimFloat.sub stop start in
  let* n1_label := index (split_on "_" (stem instance_path)) 1 in
  print ("[approx] n1=" +:+ n1_label +:+ ", exit=" +:+ str_int code
          +:+ ", time=" +:+ fmt_6f env elapsed +:+ "s") >>
  if negb (code =? 0) then print out >> ret None
  else ret (Some elapsed).

Definition plot_runtime (n1_values : list Z)
    (exact_times approx_times : list (option float)) (n2 k : Z)
    (output_path : Path) : M unit :=
  plt (Figure 8 5) >>
  let '(x_exact, y_exact) := mask_vals n1_values exact_times in
  let '(x_approx, y_approx) := mask_vals n1_values approx_times in
  (match x_exact with
   | [] => ret tt
   | _ => plt (Plot x_exact y_exact "o" "-" "tab:red" "Exact")
   end) >>
  (match x_approx with
   | [] => ret tt
   | _ => plt (Plot x_approx y_approx "s" "-" "tab:blue" "Approximation")
   end) >>
  plt (Yscale "log") >>
  plt (Xlabel "|VG| (n1)") >>
  plt (Ylabel "Execution time (seconds)") >>
  plt (Title ("Execution Time vs |VG| (|VH|=" +:+ str_int n2
                +:+ " fixed, k=" +:+ str_int k +:+ ")")) >>
  plt Grid >>
  plt Legend >>
  mkdir_parents (parent output_path) >>
  plt TightLayout >>
  plt (Savefig output_path 200) >>
  print ("Saved figure to: " +:+ path_str output_path).

(** The instance part of the loop body: generate unless the file is
    there. *)
Definition provide_instance (args : Args) (n1 : Z) : M unit :=
  let instance_path := instance_path env n1 (n2 args) in
  let* present := path_exists instance_path in
  if negb present then
    print ("Generating instance for n1=" +:+ str_int n1 +:+ ", n2="
            +:+ str_int (n2 args) +:+ " ...") >>
    generate_instance n1 (n2 args) (density_g args) (density_h args)
      (Some (seed args)) instance_path
  else
    print ("Using existing instance: " +:+ path_str instance_path).

(** The exact-solver part of the loop body, with the early stop. *)
Definition exact_step (args : Args) (n1 : Z) (st : loop_state)
    : M loop_state :=
  let instance_path := instance_path env n1 (n2 args) in
  if negb (exact_failed st) then
    let* t_exact :=
      time_solver_exact instance_path (k args) (timeout_seconds args) in
    let failed := match t_exact with
                  | None => true
                  | Some _ => exact_failed st
                  end in
    ret (mkLoop (exact_times st ++ [t_exact]) (approx_times st) failed)
  else
    print ("[exact] skipping for n1=" +:+ str_int n1
            +:+ " after previous failure/timeout") >>
    ret (mkLoop (exact_times st ++ [None]) (approx_times st)
           (exact_failed st)).

(** The approximate-solver part of the loop body. *)
Definition approx_step (args : Args) (n1 : Z) (st : loop_state)
    : M loop_state :=
  let instance_path := instance_path env n1 (n2 args) in
  let* t_approx :=
    time_solver_approx instance_path (k args) (trials_multiplier args)
      (timeout_seconds args) in
  ret (mkLoop (exact_times st) (approx_times st ++ [t_approx])
         (exact_failed st)).

(** One pass through the body of [for n1 in n1_values]. *)
Definition sweep_step (args : Args) (n1 : Z) (st : loop_state)
    : M loop_state :=
  provide_instance args n1 >>
  let* st := exact_step args n1 st in
  approx_step args n1 st.

Definition sweep_loop (args : Args) (n1_values : list Z) : M loop_state :=
  for_each n1_values (sweep_step args) (mkLoop [] [] false).

Definition summary_line (row : Z * (option float * option float))
    : string :=
  let '(n1, (te, ta)) := row in
  let te_str := match te with
                | Some t => fmt_6f env t
                | None => "infeasible/timeout/fail"
                end in
  let ta_str := match ta with
                | Some t => fmt_6f env t
                | None => "fail"
                end in
  "n1=" +:+ str_int n1 +:+ ", exact=" +:+ te_str +:+ ", approx=" +:+ ta_str.

Definition main (args : Args) : M unit :=
  let* n1_values :=
    py_range (n1_start args) (n1_end args + 1) (n1_step args) in
  print ("Project root: " +:+ path_str (PROJECT_ROOT env)) >>
  print ("Using fixed n2 (|VH|): " +:+ str_int (n2 args)
          +:+ ", varying n1 (|VG|): " +:+ str_int_list n1_values
          +:+ ", k: " +:+ str_int (k args)) >>
  ensure_built >>
  let* st := sweep_loop args n1_values in
  print (nl +:+ "Summary (seconds):") >>
  for_each (zip n1_values (zip (exact_times st) (approx_times st)))
    (fun row _ => print (summary_line row)) tt >>
  let output_path := resolve env (output args) in
  plot_runtime n1_values (exact_times st) (approx_times st)
    (n2 args) (k args) output_path.
End Script.
End RuntimeVsN1.

(* ===================================================================== *)
(** * [scripts/plot_approx_runtime_vs_n2.py]: approximate solver only,
      fixed [n1], varying [n2] *)
(* ===================================================================== *)

Module ApproxVsN2.

Record Args := mkArgs {
  n1 : Z;
  k : Z;
  n2_start : Z;
  n2_end : Z;
  n2_step : Z;
  density_g : float;
  density_h : float;
  seed : Z;
  trials_multiplier : Z;
  timeout_seconds : Z;
  output : string;
  no_log_scale : bool;
}.

Section Script.
Variable env : Env.

Definition ensure_built : M unit :=
  let* need_build :=
    need_build_loop env ["approx_solver"; "input-generator"] in
  if need_build then
    print "Building release binaries with cargo build --release ..." >>
    let* (code, out) :=
      run_cmd env ["cargo"; "build"; "--release"] (PROJECT_ROOT env) None in
    print out >>
    if negb (code =? 0) then
      print "Failed to build project. Please check the output above." >>
      raise (SystemExit 1)
    else ret tt
  else ret tt.

Definition generate_instance (n1 n2 : Z) (density_g density_h : float)
    (seed : option Z) (output_path : Path) : M unit :=
  mkdir_parents (parent output_path) >>
  let cmd := generator_cmd env n1 n2 density_g density_h seed output_path in
  let* (code, out) := run_cmd env cmd (PROJECT_ROOT env) None in
  print ("[gen n1=" +:+ str_int n1 +:+ ", n2=" +:+ str_int n2
          +:+ "] exit=" +:+ str_int code) >>
  if negb (code =? 0) then
    print out >>
    raise (RuntimeError ("Failed to generate instance: "
                           +:+ path_str output_path))
  else
    let lines := splitlines env (strip env out) in
    print (join nl (take 10 lines)).

Definition approx_cmd (instance_path : Path) (k trials_multiplier : Z)
    : list string :=
  [ path_str (BIN_DIR env // "approx_solver");
    "--input"; path_str instance_path;
    "--k"; str_int k;
    "--trials-multiplier"; str_int trials_multiplier ].

Definition time_solver_approx (instance_path : Path)
    (k trials_multiplier timeout_seconds : Z) : M (option float) :=
  let cmd := approx_cmd instance_path k trials_multiplier in
  let* start := perf_counter env in
  let* (code, out) :=
    run_cmd env cmd (PROJECT_ROOT env) (Some timeout_seconds) in
  let* stop := perf_counter env in
  let elapsed := PrimFloat.sub stop start in
  let* n2_label := index (split_on "_" (stem instance_path)) 2 in
  print ("[approx] n2=" +:+ n2_label +:+ ", exit=" +:+ str_int code
          +:+ ", time=" +:+ fmt_6f env elapsed +:+ "s") >>
  if negb (code =? 0) then print out >> ret None
  else ret (Some elapsed).

Definition plot_runtime (n2_values : list Z)
    (approx_times : list (option float)) (n1 k : Z)
    (output_path : Path) (log_scale : bool) : M unit :=
  plt (Figure 8 5) >>
  let '(xs, ys) := mask_vals n2_values approx_times in
  (match xs with
   | [] => ret tt
   | _ => plt (Plot xs ys "o" "-" "tab:blue" "Approximation")
   end) >>
  (if log_scale then plt (Yscale "log") else ret tt) >>
  plt (Xlabel "|VH| (n2)") >>
  plt (Ylabel ("Execution time (seconds"
                 +:+ (if log_scale then ", log scale" else "") +:+ " )")) >>
  plt (Title ("Approximation Runtime vs |VH| (fixed |VG|=" +:+ str_int n1
                +:+ ", k=" +:+ str_int k +:+ ")")) >>
  plt Grid >>
  plt Legend >>
  mkdir_parents (parent output_path) >>
  plt TightLayout >>
  plt (Savefig output_path 200) >>
  print ("Saved figure to: " +:+ path_str output_path).

Definition provide_instance (args : Args) (n2 : Z) : M unit :=
  let instance_path := instance_path env (n1 args) n2 in
  let* present := path_exists instance_path in
  if negb present then
    print ("Generating instance for n1=" +:+ str_int (n1 args) +:+ ", n2="
            +:+ str_int n2 +:+ " ...") >>
    generate_instance (n1 args) n2 (density_g args) (density_h args)
      (Some (seed args)) instance_path
  else
    print ("Using existing instance: " +:+ path_str instance_path).

(** One pass through the body of [for n2 in n2_values]; the state is
    [approx_times]. *)
Definition sweep_step (args : Args) (n2 : Z)
    (approx_times : list (option float)) : M (list (option float)) :=
  provide_instance args n2 >>
  let* t_approx :=
    time_solver_approx (instance_path env (n1 args) n2) (k args)
      (trials_multiplier args) (timeout_seconds args) in
  ret (approx_times ++ [t_approx]).

Definition sweep_loop (args : Args) (n2_values : list Z)
    : M (list (option float)) :=
  for_each n2_values (sweep_step args) [].

Definition summary_line (row : Z * option float) : string :=
  let '(n2, ta) := row in
  let ta_str := match ta with
                | Some t => fmt_6f env t
                | None => "fail/timeout"
                end in
  "n2=" +:+ str_int n2 +:+ ", approx=" +:+ ta_str.

Definition main (args : Args) : M unit :=
  let* n2_values :=
    py_range (n2_start args) (n2_end args + 1) (n2_step args) in
  let log_scale := negb (no_log_scale args) in
  print ("Project root: " +:+ path_str (PROJECT_ROOT env)) >>
  print ("Fixed n1 (|VG|): " +:+ str_int (n1 args)
          +:+ ", varying n2 (|VH|): " +:+ str_int_list n2_values
          +:+ ", k: " +:+ str_int (k args)) >>
  ensure_built >>
  let* approx_times := sweep_loop args n2_values in
  print (nl +:+ "Summary (seconds):") >>
  for_each (zip n2_values approx_times)
    (fun row _ => print (summary_line row)) tt >>
  let output_path := resolve env (output args) in
  plot_runtime n2_values approx_times (n1 args) (k args) output_path
    log_scale.
End Script.
End ApproxVsN2.

(* ===================================================================== *)
(** * Reading the log *)
(* ===================================================================== *)

(** What was logged between two worlds. *)
Definition new_events (w w' : World) : list event :=
  drop (length (log w)) (log w').

(** [str(BIN_DIR / name)], the program a solver or generator command
    starts with. *)
Definition bin (env : Env) (name : string) : string :=
  path_str (BIN_DIR env // name).

(** The event is a run of program [prog]. *)
Definition runs (prog : string) (e : event) : bool :=
  match e with
  | EvRun (c :: _) _ _ _ => String.eqb c prog
  | _ => false
  end.

(** The command lines with which [prog] was run, in order. *)
Definition run_cmds (prog : string) (evs : list event) : list (list string) :=
  omap (fun e => match e with
                 | EvRun cmd _ _ _ => if runs prog e then Some cmd else None
                 | _ => None
                 end) evs.

(** The log entry a [run_cmd] call leaves tells how the call ended. *)
Definition run_outcome (env : Env) (cmd : list string) (timeout : option Z)
    (r : proc_result) : outcome (Z * string) :=
  match r with
  | Completed returncode stdout => Ret (returncode, stdout)
  | TimedOut =>
      match timeout with
      | Some t =>
          Ret (124, "TimeoutExpired: " +:+ str_TimeoutExpired env cmd t)
      | None => Diverge
      end
  | FailedToStart err => Raise (OSError err)
  | Blocked => Diverge
  | Undecodable reason => Raise (UnicodeDecodeError reason)
  end.

Definition is_run (e : event) : bool :=
  match e with EvRun _ _ _ _ => true | _ => false end.

Definition is_savefig (e : event) : bool :=
  match e with EvPlt (Savefig _ _) => true | _ => false end.

(** The [plt.plot] calls, in order. *)
Definition plot_calls (evs : list event) : list plt_call :=
  omap (fun e => match e with
                 | EvPlt (Plot xs ys m l c lbl) => Some (Plot xs ys m l c lbl)
                 | _ => None
                 end) evs.

(** [f] times one run of [cmd]: whenever [run_cmd], called right after
    the first clock reading, returns a status, that call logged only the
    run; [f] then returns [None] for a non-zero status and otherwise the
    difference of the clock readings taken right after and right before
    the call, and only logs the second reading, its line and, after a
    failure, the output. *)
Definition times_one_run (env : Env) (f : M (option float))
    (cmd : list string) (timeout : Z) : Prop :=
  forall w code out w1,
    run_cmd env cmd (PROJECT_ROOT env) (Some timeout) (perf_counter env w).2
      = (Ret (code, out), w1) ->
    let elapsed := PrimFloat.sub (clock env w1) (clock env w) in
    (exists r,
       log w1 = log w ++ [EvClock (clock env w);
                          EvRun cmd (path_str (PROJECT_ROOT env))
                            (Some timeout) r]) /\
    (exists line,
       f w = (Ret (if code =? 0 then Some elapsed else None),
              mkWorld (files w1)
                (log w1 ++ EvClock (clock env w1) :: EvPrint line
                   :: (if code =? 0 then [] else [EvPrint out])))) /\
    ((f w).1 = Ret None <-> code <> 0).

(** The event is a run of the generator that exited with a non-zero
    status. *)
Definition gen_failed (env : Env) (e : event) : bool :=
  match e with
  | EvRun (c :: _) _ _ (Completed code _) =>
      String.eqb c (bin env "input-generator") && negb (code =? 0)
  | _ => false
  end.

(** An event that neither runs a process nor saves the figure. *)
Definition quiet (e : event) : Prop :=
  is_run e = false /\ is_savefig e = false.

(** How a computation ended, without its value. *)
Inductive ending :=
| Returned
| Raised (x : exn)
| Diverged.

Definition ending_of {A} (o : outcome A) : ending :=
  match o with
  | Ret _ => Returned
  | Raise x => Raised x
  | Diverge => Diverged
  end.

(** [m] only appends to the log, and its ending and what it appends are
    related by [Phi]. *)
Definition logs {A} (Phi : ending -> list event -> Prop) (m : M A) : Prop :=
  forall w, exists evs,
    log (m w).2 = log w ++ evs /\ Phi (ending_of (m w).1) evs.

(** [Phi] holds of nothing done, and of two computations in sequence if
    it holds of each. *)
Definition sequential (Phi : ending -> list event -> Prop) : Prop :=
  Phi Returned [] /\
  forall en evs1 evs2,
    Phi Returned evs1 -> Phi en evs2 -> Phi en (evs1 ++ evs2).

(** The event is a run of the build that exited with a non-zero
    status. *)
Definition build_failed (e : event) : bool :=
  match e with
  | EvRun (c :: _) _ _ (Completed code _) =>
      String.eqb c "cargo" && negb (code =? 0)
  | _ => false
  end.

(** What made a computation end without returning, as the log shows it:
    [SystemExit(1)] comes after a failed run of the build, [RuntimeError]
    after a failed run of the generator, [OSError] after a process that
    could not be started, [UnicodeDecodeError] after a process whose
    output did not decode, and a computation that never ends waits for a
    process run without a timeout.  No other exception ends it; a solver
    that exits with a non-zero status or is timed out is no cause. *)
Definition cause (env : Env) (en : ending) (evs : list event) : Prop :=
  match en with
  | Returned => True
  | Raised (SystemExit code) =>
      code = 1 /\ exists e, e ∈ evs /\ build_failed e = true
  | Raised (RuntimeError _) => exists e, e ∈ evs /\ gen_failed env e = true
  | Raised (OSError err) =>
      exists cmd cwd timeout, EvRun cmd cwd timeout (FailedToStart err) ∈ evs
  | Raised (UnicodeDecodeError msg) =>
      exists cmd cwd timeout, EvRun cmd cwd timeout (Undecodable msg) ∈ evs
  | Raised _ => False
  | Diverged => exists cmd cwd, EvRun cmd cwd None Blocked ∈ evs
  end.

(** Every ending is accounted for.  A failed run of the generator is
    followed by quiet events only and ends the computation with
    [RuntimeError]; and an ending other than a return has its [cause] in
    the log. *)
Definition accounted (env : Env) (en : ending) (evs : list event) : Prop :=
  (forall pre e post,
     evs = pre ++ e :: post -> gen_failed env e = true ->
     (exists msg, en = Raised (RuntimeError msg)) /\ Forall quiet post) /\
  cause env en evs.

(** The figure was begun. *)
Definition plotted (evs : list event) : Prop := EvPlt (Figure 8 5) ∈ evs.

(** How a [main] whose sweep has step [step] ended before it began the
    figure: with the [ValueError] of [range] for a zero step, having done
    nothing, or with a [cause] in the log. *)
Definition aborted (env : Env) (step : Z) (en : ending) (evs : list event)
    : Prop :=
  match en with
  | Returned => False
  | Raised (ValueError _) => step = 0 /\ evs = []
  | _ => cause env en evs
  end.

(** The command is run without a time budget: it is the build or the
    generator. *)
Definition no_budget (env : Env) (cmd : list string) : bool :=
  match cmd with
  | c :: _ => String.eqb c "cargo" || String.eqb c (bin env "input-generator")
  | [] => false
  end.

(** A world in which only solvers fail: every process can be started and
    writes text; the build and the generator exit with status 0; any
    other process exits with whatever status or never exits. *)
Definition solvers_may_fail (env : Env) : Prop :=
  forall cmd cwd w,
    match (proc env cmd cwd w).1 with
    | Exits _ code _ => no_budget env cmd = true -> code = 0
    | Hangs => no_budget env cmd = false
    | CannotStart _ | ExitsUndecodable _ _ _ => False
    end.

(** The run ended as runs do in such a world: completed, with status 0
    if it is the build or the generator, or timed out. *)
Definition fair_run (env : Env) (e : event) : Prop :=
  match e with
  | EvRun cmd _ _ (Completed code _) => no_budget env cmd = true -> code = 0
  | EvRun _ _ _ TimedOut => True
  | EvRun _ _ _ _ => False
  | _ => True
  end.

(** The events of a script before it plots: prints, clock readings,
    directories, and runs, from the project root, of the build and of
    the generator without a timeout and of a solver with the timeout of
    the arguments. *)
Definition sweep_event (env : Env) (solver_cmd : list string -> Prop)
    (timeout_seconds : Z) (e : event) : Prop :=
  match e with
  | EvPrint _ | EvClock _ | EvMkdir _ => True
  | EvPlt _ => False
  | EvRun cmd cwd timeout r =>
      cwd = path_str (PROJECT_ROOT env) /\
      ((cmd = ["cargo"; "build"; "--release"]
        /\ timeout = None /\ r <> TimedOut) \/
       ((exists n1 n2 dg dh seed p, cmd = generator_cmd env n1 n2 dg dh seed p)
        /\ timeout = None /\ r <> TimedOut) \/
       (solver_cmd cmd /\ timeout = Some timeout_seconds))
  end.

(** The solver commands of the two scripts. *)
Definition solver_cmd1 (env : Env) (cmd : list string) : Prop :=
  (exists p k, cmd = RuntimeVsN1.exact_cmd env p k) \/
  (exists p k tm, cmd = RuntimeVsN1.approx_cmd env p k tm).

Definition solver_cmd2 (env : Env) (cmd : list string) : Prop :=
  exists p k tm, cmd = ApproxVsN2.approx_cmd env p k tm.

(** Only solver runs have a time budget: a run of [cargo] or of the
    generator has no timeout and is never logged as timed out, any other
    run has the timeout [timeout_seconds]. *)
Definition timeout_rule (env : Env) (timeout_seconds : Z) (e : event) : Prop :=
  match e with
  | EvRun (c :: _) _ timeout r =>
      if String.eqb c "cargo" || String.eqb c (bin env "input-generator")
      then timeout = None /\ r <> TimedOut
      else timeout = Some timeout_seconds
  | EvRun [] _ _ _ => False
  | _ => True
  end.

(** Of the binaries in [BIN_DIR], the event runs at most [name]. *)
Definition only_runs (env : Env) (name : string) (e : event) : Prop :=
  forall other, other <> name -> runs (bin env other) e = false.

(** The figure is only saved by a computation that returns. *)
Definition unsaved (en : ending) (evs : list event) : Prop :=
  en <> Returned -> Forall (fun e => is_savefig e = false) evs.

(** A point survives masking when its time is there and positive. *)
Definition keep_point (xy : Z * option float) : option (Z * float) :=
  match xy.2 with
  | Some t => if PrimFloat.ltb 0%float t then Some (xy.1, t) else None
  | None => None
  end.

(** The body the two [ensure_built] functions share: they differ in the
    binaries they look for. *)
Definition build_if_missing (env : Env) (names : list string) : M unit :=
  let* need_build := need_build_loop env names in
  if need_build then
    print "Building release binaries with cargo build --release ..." >>
    let* (code, out) :=
      run_cmd env ["cargo"; "build"; "--release"] (PROJECT_ROOT env) None in
    print out >>
    if negb (code =? 0) then
      print "Failed to build project. Please check the output above." >>
      raise (SystemExit 1)
    else ret tt
  else ret tt.

(** All the binaries [names] are in [BIN_DIR]. *)
Definition all_built (env : Env) (names : list string) (w : World) : bool :=
  forallb (fun n => bool_decide (BIN_DIR env // n ∈ files w)) names.

(** The run of [cargo] that [ensure_built] logs. *)
Definition cargo_run (env : Env) (r : proc_result) : event :=
  EvRun ["cargo"; "build"; "--release"] (path_str (PROJECT_ROOT env)) None r.

(** How [ensure_built] ends after a build that ended as [r], and what it
    prints after the build. *)
Definition after_build (r : proc_result) : outcome unit * list event :=
  match r with
  | Completed code out =>
      if code =? 0 then (Ret tt, [EvPrint out])
      else (Raise (SystemExit 1),
            [EvPrint out;
             EvPrint "Failed to build project. Please check the output above."])
  | FailedToStart err => (Raise (OSError err), [])
  | Undecodable reason => (Raise (UnicodeDecodeError reason), [])
  | TimedOut | Blocked => (Diverge, [])
  end.

(** The number of sweep points at which the exact solver was run, read
    off the outcomes recorded: every point up to and including the first
    [None]. *)
Fixpoint exact_attempts (tes : list (option float)) : nat :=
  match tes with
  | [] => 0
  | Some _ :: rest => S (exact_attempts rest)
  | None :: _ => 1
  end.

(** The events that save a figure. *)
Definition savefigs (evs : list event) : list event :=
  List.filter is_savefig evs.

Definition is_plt (e : event) : bool :=
  match e with EvPlt _ => true | _ => false end.

(** No process removes a path. *)
Definition only_adds (env : Env) : Prop :=
  forall cmd cwd w, files w ⊆ (proc env cmd cwd w).2.

(** Started where the paths [S] exist, [m] leaves them in place and logs
    events in [R] only. *)
Definition keeps {A : Type} (S : gset Path) (R : event -> Prop) (m : M A)
    : Prop :=
  forall w, S ⊆ files w ->
    S ⊆ files (m w).2 /\
    exists evs, log (m w).2 = log w ++ evs /\ Forall R evs.

(** What [plot_runtime] of the [n1] sweep does after the series are
    drawn. *)
Definition finish_figure1 (n2 k : Z) (output_path : Path) : list event :=
  [EvPlt (Yscale "log");
   EvPlt (Xlabel "|VG| (n1)");
   EvPlt (Ylabel "Execution time (seconds)");
   EvPlt (Title ("Execution Time vs |VG| (|VH|=" +:+ str_int n2
                   +:+ " fixed, k=" +:+ str_int k +:+ ")"));
   EvPlt Grid;
   EvPlt Legend;
   EvMkdir (parent output_path);
   EvPlt TightLayout;
   EvPlt (Savefig output_path 200);
   EvPrint ("Saved figure to: " +:+ path_str output_path)].

(** The same for the [n2] sweep, where the log scale can be switched
    off. *)
Definition finish_figure2 (n1 k : Z) (output_path : Path) (log_scale : bool)
    : list event :=
  (if log_scale then [EvPlt (Yscale "log")] else [])
  ++ [EvPlt (Xlabel "|VH| (n2)");
      EvPlt (Ylabel ("Execution time (seconds"
                       +:+ (if log_scale then ", log scale" else "")
                       +:+ " )"));
      EvPlt (Title ("Approximation Runtime vs |VH| (fixed |VG|="
                      +:+ str_int n1 +:+ ", k=" +:+ str_int k +:+ ")"));
      EvPlt Grid;
      EvPlt Legend;
      EvMkdir (parent output_path);
      EvPlt TightLayout;
      EvPlt (Savefig output_path 200);
      EvPrint ("Saved figure to: " +:+ path_str output_path)].

(** If the event is a run, it is a run from directory [cwd] of a command
    in [allowed]. *)
Definition runs_only (cwd : string) (allowed : list string -> Prop)
    (e : event) : Prop :=
  match e with
  | EvRun cmd dir _ _ => dir = cwd /\ allowed cmd
  | _ => True
  end.

(** The commands of the script of the [n1] sweep: the build, and for a
    point of the sweep the generator and the two solvers, on the
    instance file of that point and with the options of [args]. *)
Definition may_run1 (env : Env) (args : RuntimeVsN1.Args)
    (cmd : list string) : Prop :=
  cmd = ["cargo"; "build"; "--release"] \/
  exists n1,
    n1 ∈ sweep (RuntimeVsN1.n1_start args) (RuntimeVsN1.n1_end args)
           (RuntimeVsN1.n1_step args) /\
    let p := instance_path env n1 (RuntimeVsN1.n2 args) in
    (cmd = generator_cmd env n1 (RuntimeVsN1.n2 args)
             (RuntimeVsN1.density_g args) (RuntimeVsN1.density_h args)
             (Some (RuntimeVsN1.seed args)) p \/
     cmd = RuntimeVsN1.exact_cmd env p (RuntimeVsN1.k args) \/
     cmd = RuntimeVsN1.approx_cmd env p (RuntimeVsN1.k args)
             (RuntimeVsN1.trials_multiplier args)).

(** The commands of the script of the [n2] sweep. *)
Definition may_run2 (env : Env) (args : ApproxVsN2.Args)
    (cmd : list string) : Prop :=
  cmd = ["cargo"; "build"; "--release"] \/
  exists n2,
    n2 ∈ sweep (ApproxVsN2.n2_start args) (ApproxVsN2.n2_end args)
           (ApproxVsN2.n2_step args) /\
    let p := instance_path env (ApproxVsN2.n1 args) n2 in
    (cmd = generator_cmd env (ApproxVsN2.n1 args) n2
             (ApproxVsN2.density_g args) (ApproxVsN2.density_h args)
             (Some (ApproxVsN2.seed args)) p \/
     cmd = ApproxVsN2.approx_cmd env p (ApproxVsN2.k args)
             (ApproxVsN2.trials_multiplier args)).

(* ===================================================================== *)
(** * Example worlds *)
(* ===================================================================== *)

Module Scenario.

Definition root : Path := ["repo"].

Fixpoint float_of_nat (n : nat) : float :=
  match n with
  | O => 0%float
  | S m => PrimFloat.add 1%float (float_of_nat m)
  end.

(** A clock that reads the number of events logged so far. *)
Definition ticks (w : World) : float := float_of_nat (length (log w)).

(** The instance files of sizes 2 to 6 against 25. *)
Definition known_instances : list Path :=
  (fun n1 => root // "examples" // "generated_benchmarks"
               // ("generated_" +:+ str_int n1 +:+ "_25.txt"))
    <$> [2; 3; 4; 5; 6].

Definition output_of (cmd : list string) : gset Path :=
  match cmd !! 11%nat with
  | Some out =>
      list_to_set (filter (fun p => String.eqb (path_str p) out = true)
                          known_instances)
  | None => ∅
  end.

Definition mentions (size : string) (cmd : list string) : bool :=
  match cmd !! 2%nat with
  | Some arg =>
      String.eqb arg ("/repo/examples/generated_benchmarks/generated_"
                        +:+ size +:+ "_25.txt")
  | None => false
  end.

(** The generator writes its output file (it fails for size 6); the
    exact solver takes a second for sizes 2 and 3 and never ends for
    larger ones; the approximate solver takes two seconds and exits
    with status 3 for size 3. *)
Definition processes (cmd : list string) (cwd : string) (w : World)
    : behaviour * gset Path :=
  match cmd with
  | prog :: _ =>
      if String.eqb prog "/repo/target/release/input-generator" then
        if match cmd !! 2%nat with
           | Some a => String.eqb a "6"
           | None => false
           end
        then (Exits 1 2 "cannot generate", files w)
        else (Exits 1 0 "generated", files w ∪ output_of cmd)
      else if String.eqb prog "/repo/target/release/exact-solver" then
        if mentions "2" cmd || mentions "3" cmd
        then (Exits 1 0 "found", files w)
        else (Hangs, files w)
      else if String.eqb prog "/repo/target/release/approx-solver" then
        if mentions "3" cmd then (Exits 2 3 "no luck", files w)
        else (Exits 2 0 "found", files w)
      else if String.eqb prog "/repo/target/release/approx_solver" then
        (Exits 2 0 "found", files w)
      else (CannotStart "No such file or directory", files w)
  | [] => (CannotStart "empty command", files w)
  end.

Definition env : Env :=
  mkEnv root processes ticks (fun s => ["repo"; s])
    (fun _ => "0.5") (fun _ => "0.000000") str_plain_list id (fun s => [s]).

(** The binaries of both scripts are built, no instance exists yet. *)
Definition built : World :=
  mkWorld (list_to_set ((fun n => root // "target" // "release" // n)
                          <$> ["exact-solver"; "approx-solver";
                               "approx_solver"; "input-generator"]))
          [].

(** A process that exits with status 124 on its own, and one that
    never exits. *)
Definition env_exit_124 : Env :=
  mkEnv root (fun _ _ w => (Exits 1 124 "bye", files w)) ticks
    (fun s => ["repo"; s]) (fun _ => "") (fun _ => "") str_plain_list id
    (fun s => [s]).

Definition env_hangs : Env :=
  mkEnv root (fun _ _ w => (Hangs, files w)) ticks
    (fun s => ["repo"; s]) (fun _ => "") (fun _ => "") str_plain_list id
    (fun s => [s]).

Definition env_missing : Env :=
  mkEnv root (fun _ _ w => (CannotStart "No such file or directory", files w))
    ticks (fun s => ["repo"; s]) (fun _ => "") (fun _ => "") str_plain_list id
    (fun s => [s]).

(** A process that exits at once with status 0, having written a byte
    that is no UTF-8. *)
Definition env_binary : Env :=
  mkEnv root
    (fun _ _ w =>
       (ExitsUndecodable 0 0
          "'utf-8' codec can't decode byte 0xff in position 0: invalid start byte",
        files w))
    ticks (fun s => ["repo"; s]) (fun _ => "") (fun _ => "") str_plain_list id
    (fun s => [s]).

Definition args (n1_start n1_end : Z) : RuntimeVsN1.Args :=
  RuntimeVsN1.mkArgs 25 2 n1_start n1_end 1 0.375%float 0.25%float 12345 10
    30 "runtime.png".

Definition args2 (n2_start n2_end : Z) : ApproxVsN2.Args :=
  ApproxVsN2.mkArgs 8 3 n2_start n2_end 5 0.375%float 0.25%float 12345 10
    60 "approx.png" false.
End Scenario.

(** A checkout in which nothing is built yet. *)
Module Unbuilt.

(** [cargo] takes five seconds, exits with [code] and leaves the files
    as they are; every other command behaves as in [Scenario]. *)
Definition processes (code : Z) (cmd : list string) (cwd : string)
    (w : World) : behaviour * gset Path :=
  match cmd with
  | prog :: _ =>
      if String.eqb prog "cargo" then (Exits 5 code "cargo: done", files w)
      else Scenario.processes cmd cwd w
  | [] => Scenario.processes cmd cwd w
  end.

Definition env (code : Z) : Env :=
  mkEnv Scenario.root (processes code) Scenario.ticks (fun s => ["repo"; s])
    (fun _ => "0.5") (fun _ => "0.000000") str_plain_list id (fun s => [s]).

Definition world : World := mkWorld ∅ [].
End Unbuilt.

(** A checkout in which the binaries are built and the instance files
    of [Scenario] are there. *)
Module Cached.

Definition world : World :=
  mkWorld (files Scenario.built ∪ list_to_set Scenario.known_instances) [].
End Cached.

(** A checkout in which everything is built and both solvers fail at
    every size: the build and the generator exit with status 0, the
    exact solver never exits, and every other process (the approximate
    solver of either script) takes two seconds and exits with status
    3. *)
Module SolversFail.

Definition processes (cmd : list string) (cwd : string) (w : World)
    : behaviour * gset Path :=
  match cmd with
  | prog :: _ =>
      if String.eqb prog "cargo" then (Exits 5 0 "cargo: done", files w)
      else if String.eqb prog "/repo/target/release/input-generator" then
        (Exits 1 0 "generated", files w ∪ Scenario.output_of cmd)
      else if String.eqb prog "/repo/target/release/exact-solver" then
        (Hangs, files w)
      else (Exits 2 3 "no luck", files w)
  | [] => (Exits 0 0 "", files w)
  end.

Definition env : Env :=
  mkEnv Scenario.root processes Scenario.ticks (fun s => ["repo"; s])
    (fun _ => "0.5") (fun _ => "0.000000") str_plain_list id (fun s => [s]).
End SolversFail.

(* ===================================================================== *)
(** * The sweep sequence *)
(* ===================================================================== *)

Section SweepFacts.
Variables start end_ step : Z.
Hypothesis step_pos : 0 < step.

Lemma ceil_div_spec (a : Z) :
  step * (ceil_div a step - 1) < a <= step * ceil_div a step.
Proof using step_pos.
  unfold ceil_div.
  pose proof (Z.div_mod (- a) step ltac:(lia)) as Hdm.
  pose proof (Z.mod_pos_bound (- a) step step_pos) as Hb.
  nia.
Qed.

Lemma range_length_pos_step (stop : Z) :
  range_length start stop step = Z.max 0 (ceil_div (stop - start) step).
Proof using step_pos.
  unfold range_length.
  destruct (Z.ltb_spec 0 step) as [_|]; [|lia].
  pose proof (ceil_div_spec (stop - start)) as Hc.
  destruct (Z.ltb_spec start stop) as [Hlt|Hge].
  - pose proof (Z.div_mod (stop - start - 1) step ltac:(lia)) as Hdm.
    pose proof (Z.mod_pos_bound (stop - start - 1) step step_pos) as Hb.
    nia.
  - nia.
Qed.

Lemma sweep_lookup (i : nat) (x : Z) :
  sweep start end_ step !! i = Some x ->
  x = start + Z.of_nat i * step /\
  Z.of_nat i < range_length start (end_ + 1) step.
Proof using Type.
  unfold sweep, range_items. rewrite list_lookup_fmap.
  destruct (seqZ 0 _ !! i) as [k|] eqn:Hk; [|discriminate].
  apply lookup_seqZ in Hk as [-> Hlt]. simpl. intros [= <-]. lia.
Qed.

Lemma sweep_length :
  Z.of_nat (length (sweep start end_ step))
  = Z.max 0 (ceil_div (end_ - start + 1) step).
Proof using step_pos.
  unfold sweep, range_items.
  rewrite length_fmap, length_seqZ, range_length_pos_step.
  replace (end_ + 1 - start) with (end_ - start + 1) by lia. lia.
Qed.

Lemma sweep_increasing (i j : nat) (x y : Z) :
  sweep start end_ step !! i = Some x ->
  sweep start end_ step !! j = Some y ->
  (i < j)%nat -> x < y.
Proof using step_pos.
  intros [-> _]%sweep_lookup [-> _]%sweep_lookup Hij. nia.
Qed.

Lemma sweep_sorted : StronglySorted Z.lt (sweep start end_ step).
Proof using step_pos.
  unfold sweep, range_items.
  generalize (range_length start (end_ + 1) step) as n.
  generalize 0 at 1 as m. intros m n. revert m.
  induction (Z.to_nat n) as [|k IH] eqn:Hk in n |- *; intros m.
  - rewrite seqZ_nil by lia. constructor.
  - rewrite seqZ_cons by lia. cbn [fmap list_fmap]. constructor.
    + apply IH. lia.
    + apply Forall_forall. intros y Hy.
      apply list_elem_of_fmap in Hy as (z & -> & Hz).
      apply elem_of_seqZ in Hz. nia.
Qed.

Lemma sweep_NoDup : NoDup (sweep start end_ step).
Proof using step_pos.
  apply NoDup_alt. intros i j x Hi Hj.
  destruct (Nat.lt_trichotomy i j) as [Hlt|[->|Hgt]]; [|done|].
  - pose proof (sweep_increasing _ _ _ _ Hi Hj Hlt). lia.
  - pose proof (sweep_increasing _ _ _ _ Hj Hi Hgt). lia.
Qed.

Lemma sweep_empty : end_ < start -> sweep start end_ step = [].
Proof using step_pos.
  intros Hlt. unfold sweep, range_items, range_length.
  destruct (Z.ltb_spec 0 step); [|lia].
  destruct (Z.ltb_spec start (end_ + 1)); [lia|]. by rewrite seqZ_nil.
Qed.

Lemma sweep_head_last :
  start <= end_ ->
  head (sweep start end_ step) = Some start /\
  last (sweep start end_ step) = Some (sweep_last start end_ step).
Proof using step_pos.
  intros Hle. unfold sweep, range_items, sweep_last.
  assert (Hlen : range_length start (end_ + 1) step
                 = (end_ - start) / step + 1).
  { unfold range_length.
    destruct (Z.ltb_spec 0 step); [|lia].
    destruct (Z.ltb_spec start (end_ + 1)); [|lia].
    f_equal. f_equal. lia. }
  rewrite Hlen.
  pose proof (Z.div_pos (end_ - start) step ltac:(lia) step_pos) as Hq.
  split.
  - rewrite seqZ_cons by lia. simpl. f_equal. lia.
  - rewrite last_lookup, length_fmap, length_seqZ, list_lookup_fmap.
    rewrite lookup_seqZ_lt by lia. simpl. do 3 f_equal. lia.
Qed.

Lemma sweep_last_largest :
  start <= end_ ->
  sweep_last start end_ step <= end_ /\
  forall k, 0 <= k -> start + k * step <= end_ ->
            start + k * step <= sweep_last start end_ step.
Proof using step_pos.
  intros Hle. unfold sweep_last.
  pose proof (Z.div_mod (end_ - start) step ltac:(lia)) as Hdm.
  pose proof (Z.mod_pos_bound (end_ - start) step step_pos) as Hb.
  split; [nia|]. intros k Hk Hke.
  assert (k <= (end_ - start) / step); [|nia].
  apply Z.div_le_lower_bound; lia.
Qed.
End SweepFacts.

(* ===================================================================== *)
(** * Names of instance files *)
(* ===================================================================== *)

Lemma name_path_join (p : Path) (c : string) : name (p // c) = c.
Proof. unfold name, path_join. apply last_last. Qed.

Lemma append_nil (t : string) : "" +:+ t = t.
Proof. reflexivity. Qed.

Lemma append_cons (a : ascii) (s t : string) :
  String a s +:+ t = String a (s +:+ t).
Proof. reflexivity. Qed.

Lemma rfind_dot_txt (s : string) :
  rfind "." (s +:+ ".txt") = Some (String.length s).
Proof.
  induction s as [|a s IH]; [reflexivity|].
  rewrite append_cons. simpl. by rewrite IH.
Qed.

Lemma substring_prefix (s t : string) :
  substring 0 (String.length s) (s +:+ t) = s.
Proof.
  induction s as [|a s IH].
  - rewrite append_nil. by destruct t.
  - rewrite append_cons. simpl. by rewrite IH.
Qed.

Lemma length_append (s t : string) :
  String.length (s +:+ t) = (String.length s + String.length t)%nat.
Proof.
  induction s as [|a s IH]; [done|].
  rewrite append_cons. simpl. by rewrite IH.
Qed.

Lemma append_assoc (s t u : string) : (s +:+ t) +:+ u = s +:+ (t +:+ u).
Proof.
  induction s as [|a s IH]; [done|].
  rewrite !append_cons. by rewrite IH.
Qed.

Lemma append_inj_l (s t u : string) : s +:+ t = s +:+ u -> t = u.
Proof.
  induction s as [|a s IH]; [done|].
  rewrite !append_cons. intros [= H]. auto.
Qed.

Lemma stem_txt (p : Path) (s : string) :
  s <> "" -> stem (p // (s +:+ ".txt")) = s.
Proof.
  intros Hs. unfold stem. rewrite name_path_join. cbv zeta.
  rewrite rfind_dot_txt, length_append.
  destruct s as [|a s]; [done|]. simpl String.length.
  replace ((0 <? S _)%nat && _) with true.
  - apply (substring_prefix (String a s)).
  - symmetry. apply andb_true_iff. split; apply Nat.ltb_lt; lia.
Qed.

Lemma split_on_nonempty (sep : ascii) (s : string) :
  (1 <= length (split_on sep s))%nat.
Proof.
  induction s as [|a s IH]; simpl; [lia|].
  destruct (Ascii.eqb a sep); [simpl; lia|].
  destruct (split_on sep s); simpl; lia.
Qed.

Lemma split_on_length (sep : ascii) (s t : string) :
  length (split_on sep (s +:+ String sep t))
  = (length (split_on sep s) + length (split_on sep t))%nat.
Proof.
  induction s as [|a s IH].
  - rewrite append_nil. simpl. by rewrite Ascii.eqb_refl.
  - rewrite append_cons. simpl.
    destruct (Ascii.eqb a sep); simpl; [by rewrite IH|].
    pose proof (split_on_nonempty sep s) as Hs.
    pose proof (split_on_nonempty sep (s +:+ String sep t)) as Hst.
    destruct (split_on sep (s +:+ String sep t)) as [|x xs] eqn:E1;
      destruct (split_on sep s) as [|y ys] eqn:E2; simpl in *; lia.
Qed.

Section InstanceNames.
Variable env : Env.

Lemma stem_instance_path (n1 n2 : Z) :
  stem (instance_path env n1 n2)
  = "generated_" +:+ str_int n1 +:+ "_" +:+ str_int n2.
Proof using Type.
  unfold instance_path.
  replace ("generated_" +:+ str_int n1 +:+ "_" +:+ str_int n2 +:+ ".txt")
    with (("generated_" +:+ str_int n1 +:+ "_" +:+ str_int n2) +:+ ".txt").
  - by apply stem_txt.
  - cbn. by rewrite !append_assoc.
Qed.

(** The stem of an instance file has at least three fields between
    underscores, so both labels the solvers' log lines take from it
    exist. *)
Lemma instance_label (n1 n2 : Z) (i : nat) :
  (i <= 2)%nat ->
  exists l, split_on "_" (stem (instance_path env n1 n2)) !! i = Some l.
Proof using Type.
  intros Hi. rewrite stem_instance_path.
  apply lookup_lt_is_Some_2.
  change ("generated_" +:+ str_int n1 +:+ "_" +:+ str_int n2)
    with ("generated" +:+ String "_" (str_int n1 +:+ String "_" (str_int n2))).
  rewrite !split_on_length.
  pose proof (split_on_nonempty "_" (str_int n1)).
  pose proof (split_on_nonempty "_" (str_int n2)).
  cbn. lia.
Qed.
End InstanceNames.
(* ===================================================================== *)
(** * Computations step by step *)
(* ===================================================================== *)

Lemma bind_Ret {A B} (m : M A) (k : A -> M B) w a w1 :
  m w = (Ret a, w1) -> bind m k w = k a w1.
Proof. unfold bind. by intros ->. Qed.

Lemma bind_Raise {A B} (m : M A) (k : A -> M B) w e w1 :
  m w = (Raise e, w1) -> bind m k w = (Raise e, w1).
Proof. unfold bind. by intros ->. Qed.

Lemma bind_Diverge {A B} (m : M A) (k : A -> M B) w w1 :
  m w = (Diverge, w1) -> bind m k w = (Diverge, w1).
Proof. unfold bind. by intros ->. Qed.

Lemma bind_cases {A B} (m : M A) (k : A -> M B) w :
  (exists a, (m w).1 = Ret a /\ bind m k w = k a (m w).2) \/
  (stopped (m w).1 /\ bind m k w = (recast (m w).1, (m w).2)).
Proof.
  unfold bind. destruct (m w) as [[a|e|] w1]; simpl; eauto.
Qed.

Lemma for_each_app {A S} (xs ys : list A) (body : A -> S -> M S) s w :
  for_each (xs ++ ys) body s w
  = bind (for_each xs body s) (for_each ys body) w.
Proof.
  revert s w. induction xs as [|x xs IH]; intros s w; simpl; [reflexivity|].
  unfold bind. destruct (body x s w) as [[s1|e|] w1]; [|reflexivity..].
  rewrite IH. reflexivity.
Qed.

(** ** Everything logged satisfies [P] *)

Lemma emits_new_events {A} (P : event -> Prop) (m : M A) w :
  emits P m -> Forall P (new_events w (m w).2).
Proof.
  intros H. unfold new_events. destruct (H w) as (evs & -> & Hevs).
  by rewrite drop_app_length.
Qed.

Lemma emits_weaken {A} (P Q : event -> Prop) (m : M A) :
  (forall e, P e -> Q e) -> emits P m -> emits Q m.
Proof.
  intros HPQ H w. destruct (H w) as (evs & E & F).
  exists evs. split; [done|]. eapply Forall_impl; eauto.
Qed.

Lemma emits_ret {A} P (a : A) : emits P (ret a).
Proof. intros w. exists []. simpl. rewrite app_nil_r. by split. Qed.

Lemma emits_raise {A} P e : emits P (@raise A e).
Proof. intros w. exists []. simpl. rewrite app_nil_r. by split. Qed.

Lemma emits_bind {A B} P (m : M A) (k : A -> M B) :
  emits P m -> (forall a, emits P (k a)) -> emits P (bind m k).
Proof.
  intros Hm Hk w. destruct (Hm w) as (evs1 & E1 & F1).
  destruct (bind_cases m k w) as [(a & _ & ->)|(_ & ->)].
  - destruct (Hk a (m w).2) as (evs2 & E2 & F2).
    exists (evs1 ++ evs2). rewrite E2, E1, app_assoc.
    split; [done|]. by apply Forall_app.
  - exists evs1. by split.
Qed.

Lemma emits_emit P e : P e -> emits P (emit e).
Proof. intros H w. exists [e]. split; [done|]. by constructor. Qed.

Lemma emits_print P s : P (EvPrint s) -> emits P (print s).
Proof. apply emits_emit. Qed.

Lemma emits_path_exists P p : emits P (path_exists p).
Proof. intros w. exists []. simpl. rewrite app_nil_r. by split. Qed.

Lemma emits_mkdir_parents P p : P (EvMkdir p) -> emits P (mkdir_parents p).
Proof. intros H w. exists [EvMkdir p]. split; [done|]. by constructor. Qed.

Lemma emits_plt P c : P (EvPlt c) -> emits P (plt c).
Proof. intros H w. exists [EvPlt c]. split; [done|]. by constructor. Qed.

Lemma emits_index {A} P (xs : list A) i : emits P (index xs i).
Proof. unfold index. destruct (xs !! i); [apply emits_ret|apply emits_raise]. Qed.

Lemma emits_py_range P start stop step : emits P (py_range start stop step).
Proof.
  unfold py_range. destruct (step =? 0); [apply emits_raise|apply emits_ret].
Qed.

Lemma emits_for_each {A S} P (xs : list A) (body : A -> S -> M S) s :
  (forall x s, emits P (body x s)) -> emits P (for_each xs body s).
Proof.
  intros Hb. revert s. induction xs as [|x xs IH]; intros s; simpl.
  - apply emits_ret.
  - apply emits_bind; [apply Hb|apply IH].
Qed.

Section RunnerFacts.
Variable env : Env.

Lemma emits_perf_counter P :
  (forall t, P (EvClock t)) -> emits P (perf_counter env).
Proof using Type.
  intros H w. exists [EvClock (clock env w)]. split; [done|]. by constructor.
Qed.

(** [run_cmd] logs exactly one run; without a timeout the run is
    never logged as timed out, with one it is never logged as blocked. *)
Lemma run_cmd_run cmd cwd timeout w :
  exists r fs,
    run_cmd env cmd cwd timeout w
    = (run_outcome env cmd timeout r,
       mkWorld fs (log w ++ [EvRun cmd (path_str cwd) timeout r])) /\
    (timeout = None -> r <> TimedOut) /\
    (r = Blocked -> timeout = None).
Proof using Type.
  unfold run_cmd, try_except, bind, subprocess_run.
  destruct (proc env cmd (path_str cwd) w) as [[secs rc out| |err|secs rc why] fs].
  - destruct timeout as [t|].
    + destruct (Qle_bool secs (inject_Z t)).
      * exists (Completed rc out), fs. by repeat split.
      * exists TimedOut, fs. by repeat split.
    + exists (Completed rc out), fs. by repeat split.
  - destruct timeout as [t|].
    + exists TimedOut, fs. by repeat split.
    + exists Blocked, fs. by repeat split.
  - exists (FailedToStart err), (files w). by repeat split.
  - destruct timeout as [t|].
    + destruct (Qle_bool secs (inject_Z t)).
      * exists (Undecodable why), fs. by repeat split.
      * exists TimedOut, fs. by repeat split.
    + exists (Undecodable why), fs. by repeat split.
Qed.

Lemma emits_run_cmd P cmd cwd timeout :
  (forall r, (timeout = None -> r <> TimedOut) ->
             P (EvRun cmd (path_str cwd) timeout r)) ->
  emits P (run_cmd env cmd cwd timeout).
Proof using Type.
  intros H w. destruct (run_cmd_run cmd cwd timeout w) as (r & fs & -> & Hr & _).
  eexists. split; [done|]. constructor; auto.
Qed.

Lemma emits_need_build_loop P names : emits P (need_build_loop env names).
Proof using Type.
  induction names as [|n names IH]; simpl; [apply emits_ret|].
  apply emits_bind; [apply emits_path_exists|].
  intros []; [apply IH|apply emits_ret].
Qed.
End RunnerFacts.

(* ===================================================================== *)
(** * The derived sweep *)
(* ===================================================================== *)

(** C3.  For a positive step and [start <= end], the sweep that both
    [main] functions derive with [list(range(start, end + 1, step))] is
    strictly increasing and free of duplicates, has
    [ceil((end - start + 1) / step)] elements, starts at [start], and ends
    at the largest value [start + k * step] that does not exceed [end].
    (When [end < start] the sweep is empty.) *)
Theorem sweep_shape (start end_ step : Z) :
  0 < step -> start <= end_ ->
  let xs := sweep start end_ step in
  (forall w, py_range start (end_ + 1) step w = (Ret xs, w)) /\
  StronglySorted Z.lt xs /\
  NoDup xs /\
  Z.of_nat (length xs) = ceil_div (end_ - start + 1) step /\
  step * (Z.of_nat (length xs) - 1) < end_ - start + 1
    <= step * Z.of_nat (length xs) /\
  head xs = Some start /\
  last xs = Some (sweep_last start end_ step) /\
  sweep_last start end_ step <= end_ /\
  (exists k, 0 <= k /\ sweep_last start end_ step = start + k * step) /\
  (forall k, 0 <= k -> start + k * step <= end_ ->
             start + k * step <= sweep_last start end_ step).
Proof.
  intros Hstep Hle xs.
  pose proof (sweep_length start end_ step Hstep) as Hlen.
  pose proof (ceil_div_spec step Hstep (end_ - start + 1)) as Hceil.
  assert (Hlen' : Z.of_nat (length xs) = ceil_div (end_ - start + 1) step).
  { subst xs. rewrite Hlen. nia. }
  destruct (sweep_head_last start end_ step Hstep Hle) as [Hhd Hlast].
  destruct (sweep_last_largest start end_ step Hstep Hle) as [Hle_end Hmax].
  repeat split; try done.
  - intros w. unfold py_range. destruct (Z.eqb_spec step 0); [lia|done].
  - by apply sweep_sorted.
  - by apply sweep_NoDup.
  - rewrite Hlen'. apply Hceil.
  - rewrite Hlen'. apply Hceil.
  - exists ((end_ - start) / step). split; [|done].
    apply Z.div_pos; lia.
Qed.

Lemma sweep_shape_witness :
  sweep 10 50 5 = [10; 15; 20; 25; 30; 35; 40; 45; 50] /\
  Z.of_nat (length (sweep 2 12 3)) = ceil_div (12 - 2 + 1) 3 /\
  last (sweep 2 12 3) = Some 11.
Proof.
  split; [reflexivity|].
  pose proof (sweep_shape 2 12 3 ltac:(lia) ltac:(lia)) as H.
  cbv zeta in H.
  destruct H as (_ & _ & _ & Hlen & _ & _ & Hlast & _).
  split; [exact Hlen|exact Hlast].
Defined.

(* ===================================================================== *)
(** * The process runner *)
(* ===================================================================== *)

(** C2, as stated, fails.  A process that exits on its own with status
    124 gives the same status as one that is stopped by the timeout, so
    the timeout status is not distinct from every exit code of a real
    process; and [run_cmd] does not always return: a command that cannot
    be started, or a process whose output does not decode, makes it
    raise. *)
Lemma run_cmd_timeout_status_not_reserved :
  let cmd := ["sleep"; "60"] in
  let w := mkWorld ∅ [] in
  (subprocess_run Scenario.env_exit_124 cmd "/repo" (Some 5) w).1
    = Ret (124, "bye") /\
  (run_cmd Scenario.env_exit_124 cmd Scenario.root (Some 5) w).1
    = Ret (124, "bye") /\
  (subprocess_run Scenario.env_hangs cmd "/repo" (Some 5) w).1
    = Raise (TimeoutExpired cmd 5) /\
  (run_cmd Scenario.env_hangs cmd Scenario.root (Some 5) w).1
    = Ret (124,
           "TimeoutExpired: Command '['sleep', '60']' timed out after 5 seconds") /\
  (run_cmd Scenario.env_missing cmd Scenario.root (Some 5) w).1
    = Raise (OSError "No such file or directory") /\
  (run_cmd Scenario.env_binary cmd Scenario.root (Some 5) w).1
    = Raise (UnicodeDecodeError
               "'utf-8' codec can't decode byte 0xff in position 0: invalid start byte").
Proof. repeat split; reflexivity. Qed.

(** C2, amended.  With a timeout, how [run_cmd] ends is decided by the
    process alone.  It returns the return code and the output of a
    process that exits in time with output that decodes, whatever the
    code, and status 124 with a message that starts with
    [TimeoutExpired: ] for one that is not done in time; 124 is not zero.
    It raises in two cases only, neither of them a non-zero exit: [OSError]
    when the process cannot be started, and [UnicodeDecodeError] when the
    process is done in time and its output does not decode.  It logs
    exactly one run. *)
Theorem run_cmd_status (env : Env) (cmd : list string) (cwd : Path)
    (timeout : Z) (w : World) :
  let timeout_status :=
    Ret (124, "TimeoutExpired: " +:+ str_TimeoutExpired env cmd timeout) in
  let r := run_cmd env cmd cwd (Some timeout) w in
  r.1
  = match (proc env cmd (path_str cwd) w).1 with
    | Exits secs returncode stdout =>
        if Qle_bool secs (inject_Z timeout) then Ret (returncode, stdout)
        else timeout_status
    | Hangs => timeout_status
    | CannotStart err => Raise (OSError err)
    | ExitsUndecodable secs returncode reason =>
        if Qle_bool secs (inject_Z timeout)
        then Raise (UnicodeDecodeError reason)
        else timeout_status
    end
  /\ (exists res,
        log r.2 = log w ++ [EvRun cmd (path_str cwd) (Some timeout) res])
  /\ 124 <> 0.
Proof.
  intros timeout_status r. split; [|split; [|done]].
  - subst r. unfold run_cmd, try_except, bind, subprocess_run.
    destruct (proc env cmd (path_str cwd) w)
      as [[secs rc out| |err|secs rc why] fs]; cbn [fst].
    + by destruct (Qle_bool secs (inject_Z timeout)).
    + done.
    + done.
    + by destruct (Qle_bool secs (inject_Z timeout)).
  - subst r.
    destruct (run_cmd_run env cmd cwd (Some timeout) w) as (res & fs & -> & _).
    by exists res.
Qed.

(* ===================================================================== *)
(** * Masking and plotting *)
(* ===================================================================== *)

Lemma omap_cons_keep (x : Z) (y : option float) (l : list (Z * option float)) :
  omap keep_point ((x, y) :: l)
  = match keep_point (x, y) with
    | Some p => p :: omap keep_point l
    | None => omap keep_point l
    end.
Proof. reflexivity. Qed.

Lemma fold_mask_step (l : list (Z * option float)) (mx : list Z) (my : list float) :
  fold_left mask_step l (mx, my)
  = (mx ++ (omap keep_point l).*1, my ++ (omap keep_point l).*2).
Proof.
  revert mx my. induction l as [|[x y] l IH]; intros mx my.
  - simpl. by rewrite !app_nil_r.
  - change (fold_left mask_step ((x, y) :: l) (mx, my))
      with (fold_left mask_step l (mask_step (mx, my) (x, y))).
    rewrite (omap_cons_keep x y l).
    unfold mask_step, keep_point. simpl.
    destruct y as [t|]; [|apply IH].
    destruct (PrimFloat.ltb 0 t); [|apply IH].
    rewrite IH. simpl. by rewrite <- !app_assoc.
Qed.

Lemma mask_vals_kept (xs : list Z) (ys : list (option float)) :
  mask_vals xs ys
  = ((omap keep_point (zip xs ys)).*1, (omap keep_point (zip xs ys)).*2).
Proof. unfold mask_vals. by rewrite fold_mask_step. Qed.

Lemma kept_sublist (l : list (Z * option float)) :
  (prod_map id Some <$> omap keep_point l) `sublist_of` l.
Proof.
  induction l as [|[x y] l IH]; [constructor|].
  rewrite omap_cons_keep. unfold keep_point at 1. simpl.
  destruct y as [t|]; [|by constructor].
  destruct (PrimFloat.ltb 0 t); by constructor.
Qed.

Lemma elem_of_kept (l : list (Z * option float)) (x : Z) (t : float) :
  (x, t) ∈ omap keep_point l
  <-> (x, Some t) ∈ l /\ PrimFloat.ltb 0%float t = true.
Proof.
  rewrite list_elem_of_omap. split.
  - intros ([x' y] & Hin & Hk). unfold keep_point in Hk. simpl in Hk.
    destruct y as [t'|]; [|done].
    destruct (PrimFloat.ltb 0 t') eqn:E; [|done].
    by injection Hk as -> ->.
  - intros [Hin Hpos]. exists (x, Some t). split; [done|].
    unfold keep_point. simpl. by rewrite Hpos.
Qed.

(** ** Computations that return, whatever the world *)

Lemma yields_ret {A} (a : A) : yields (ret a) a [].
Proof. intros w. simpl. by rewrite app_nil_r. Qed.

Lemma yields_bind {A B} (m : M A) (k : A -> M B) a b evs1 evs2 :
  yields m a evs1 -> yields (k a) b evs2 -> yields (bind m k) b (evs1 ++ evs2).
Proof.
  intros Hm Hk w. destruct (Hm w) as [Ha Hl].
  destruct (m w) as [o w1] eqn:E. simpl in Ha, Hl. subst o.
  rewrite (bind_Ret _ _ _ _ _ E). destruct (Hk w1) as [Hb Hl2].
  split; [done|]. by rewrite Hl2, Hl, app_assoc.
Qed.

Lemma yields_emit e : yields (emit e) tt [e].
Proof. by intros w. Qed.

Lemma yields_print s : yields (print s) tt [EvPrint s].
Proof. by intros w. Qed.

Lemma yields_plt c : yields (plt c) tt [EvPlt c].
Proof. by intros w. Qed.

Lemma yields_mkdir_parents p : yields (mkdir_parents p) tt [EvMkdir p].
Proof. by intros w. Qed.

Lemma yields_new_events {A} (m : M A) a evs w :
  yields m a evs -> (m w).1 = Ret a /\ new_events w (m w).2 = evs.
Proof.
  intros H. destruct (H w) as [Ha Hl]. split; [done|].
  unfold new_events. by rewrite Hl, drop_app_length.
Qed.

Ltac yields_step :=
  lazymatch goal with
  | |- yields (bind _ _) _ _ => eapply yields_bind
  | |- yields (ret _) _ _ => apply yields_ret
  | |- yields (print _) _ _ => apply yields_print
  | |- yields (plt _) _ _ => apply yields_plt
  | |- yields (mkdir_parents _) _ _ => apply yields_mkdir_parents
  end.

Lemma plot_runtime_exact_approx n1_values exact_times approx_times
    n2 k output_path w :
  let exact := mask_vals n1_values exact_times in
  let approx := mask_vals n1_values approx_times in
  let r := RuntimeVsN1.plot_runtime n1_values exact_times approx_times n2 k
             output_path w in
  r.1 = Ret tt /\
  plot_calls (new_events w r.2)
  = match exact.1 with
    | [] => []
    | _ => [Plot exact.1 exact.2 "o" "-" "tab:red" "Exact"]
    end ++
    match approx.1 with
    | [] => []
    | _ => [Plot approx.1 approx.2 "s" "-" "tab:blue" "Approximation"]
    end.
Proof.
  intros exact approx r.
  assert (exists evs,
    yields (RuntimeVsN1.plot_runtime n1_values exact_times approx_times n2 k
              output_path) tt evs /\
    plot_calls evs
    = match exact.1 with
      | [] => []
      | _ => [Plot exact.1 exact.2 "o" "-" "tab:red" "Exact"]
      end ++
      match approx.1 with
      | [] => []
      | _ => [Plot approx.1 approx.2 "s" "-" "tab:blue" "Approximation"]
      end) as (evs & Hy & Hp).
  { unfold RuntimeVsN1.plot_runtime. subst exact approx.
    destruct (mask_vals n1_values exact_times) as [[|x1 x_exact] y_exact];
      destruct (mask_vals n1_values approx_times) as [[|x2 x_approx] y_approx];
      cbv beta iota zeta;
      (eexists; split; [repeat yields_step|reflexivity]). }
  destruct (yields_new_events _ _ _ w Hy) as [H1 H2].
  subst r. by rewrite H1, H2.
Qed.

Lemma plot_runtime_approx n2_values approx_times n1 k output_path
    log_scale w :
  let approx := mask_vals n2_values approx_times in
  let r := ApproxVsN2.plot_runtime n2_values approx_times n1 k output_path
             log_scale w in
  r.1 = Ret tt /\
  plot_calls (new_events w r.2)
  = match approx.1 with
    | [] => []
    | _ => [Plot approx.1 approx.2 "o" "-" "tab:blue" "Approximation"]
    end.
Proof.
  intros approx r.
  assert (exists evs,
    yields (ApproxVsN2.plot_runtime n2_values approx_times n1 k output_path
              log_scale) tt evs /\
    plot_calls evs
    = match approx.1 with
      | [] => []
      | _ => [Plot approx.1 approx.2 "o" "-" "tab:blue" "Approximation"]
      end) as (evs & Hy & Hp).
  { unfold ApproxVsN2.plot_runtime. subst approx.
    destruct (mask_vals n2_values approx_times) as [[|x1 xs] ys];
      destruct log_scale; cbv beta iota zeta;
      (eexists; split; [repeat yields_step|reflexivity]). }
  destruct (yields_new_events _ _ _ w Hy) as [H1 H2].
  subst r. by rewrite H1, H2.
Qed.

(** C6.  Of the points [(size, elapsed)] of a series, the renderer keeps
    exactly those whose elapsed value is there and [> 0], in the order
    of the input; [plt.plot] is called for a series only if a point is
    left, with these points; [plot_runtime] returns in every case, so a
    series without a point left is not drawn, gets no legend entry and
    causes no error. *)
Theorem series_renderer_masks (sizes : list Z) (times : list (option float)) :
  let kept := omap keep_point (zip sizes times) in
  mask_vals sizes times = (kept.*1, kept.*2) /\
  (forall x t, (x, t) ∈ kept
               <-> (x, Some t) ∈ zip sizes times /\ PrimFloat.ltb 0 t = true) /\
  (prod_map id Some <$> kept) `sublist_of` zip sizes times /\
  (forall x, keep_point (x, None) = None
             /\ keep_point (x, Some 0%float) = None
             /\ keep_point (x, Some (-0.5)%float) = None
             /\ keep_point (x, Some 0.25%float) = Some (x, 0.25%float)) /\
  (forall other n2 k output_path w,
     let r := RuntimeVsN1.plot_runtime sizes times other n2 k output_path w in
     let others := mask_vals sizes other in
     r.1 = Ret tt /\
     plot_calls (new_events w r.2)
     = match kept with
       | [] => []
       | _ => [Plot kept.*1 kept.*2 "o" "-" "tab:red" "Exact"]
       end ++
       match others.1 with
       | [] => []
       | _ => [Plot others.1 others.2 "s" "-" "tab:blue" "Approximation"]
       end) /\
  (forall other n2 k output_path w,
     let r := RuntimeVsN1.plot_runtime sizes other times n2 k output_path w in
     let others := mask_vals sizes other in
     r.1 = Ret tt /\
     plot_calls (new_events w r.2)
     = match others.1 with
       | [] => []
       | _ => [Plot others.1 others.2 "o" "-" "tab:red" "Exact"]
       end ++
       match kept with
       | [] => []
       | _ => [Plot kept.*1 kept.*2 "s" "-" "tab:blue" "Approximation"]
       end) /\
  (forall n1 k output_path log_scale w,
     let r := ApproxVsN2.plot_runtime sizes times n1 k output_path log_scale w in
     r.1 = Ret tt /\
     plot_calls (new_events w r.2)
     = match kept with
       | [] => []
       | _ => [Plot kept.*1 kept.*2 "o" "-" "tab:blue" "Approximation"]
       end).
Proof.
  intros kept.
  assert (Hm : mask_vals sizes times = (kept.*1, kept.*2))
    by apply mask_vals_kept.
  assert (Hnil : forall B (a b : list B),
            match kept.*1 with [] => a | _ => b end
            = match kept with [] => a | _ => b end)
    by (intros; by destruct kept).
  split; [done|]. split; [apply elem_of_kept|]. split; [apply kept_sublist|].
  split; [by intros x|].
  split; [|split].
  - intros other n2 k output_path w r others.
    destruct (plot_runtime_exact_approx sizes times other n2 k output_path w)
      as [H1 H2].
    split; [done|]. subst r others. rewrite H2, Hm. simpl. by rewrite Hnil.
  - intros other n2 k output_path w r others.
    destruct (plot_runtime_exact_approx sizes other times n2 k output_path w)
      as [H1 H2].
    split; [done|]. subst r others. rewrite H2, Hm. simpl. by rewrite Hnil.
  - intros n1 k output_path log_scale w r.
    destruct (plot_runtime_approx sizes times n1 k output_path log_scale w)
      as [H1 H2].
    split; [done|]. subst r. rewrite H2, Hm. simpl. by rewrite Hnil.
Qed.

(* ===================================================================== *)
(** * Which program a command runs *)
(* ===================================================================== *)

Lemma join_snoc (sep : string) (p : list string) :
  exists pre, forall a, join sep (p ++ [a]) = pre +:+ a.
Proof.
  induction p as [|x p [pre IH]].
  - by exists "".
  - exists (x +:+ sep +:+ pre). intros a.
    change ((x :: p) ++ [a]) with (x :: (p ++ [a])).
    transitivity (x +:+ sep +:+ join sep (p ++ [a])).
    + destruct p; reflexivity.
    + by rewrite IH, !append_assoc.
Qed.

Section Programs.
Variable env : Env.

Lemma bin_inj (a b : string) : bin env a = bin env b -> a = b.
Proof using Type.
  unfold bin, path_str, path_join.
  destruct (join_snoc "/" (BIN_DIR env)) as [pre Hpre].
  fold (path_join (BIN_DIR env) a) (path_join (BIN_DIR env) b).
  unfold path_join. rewrite !Hpre.
  intros H. apply append_inj_l in H. by apply append_inj_l in H.
Qed.

Lemma bin_not_cargo (a : string) : bin env a <> "cargo".
Proof using Type. unfold bin, path_str. by rewrite append_cons. Qed.

Lemma runs_bin (a b : string) rest cwd timeout r :
  runs (bin env a) (EvRun (bin env b :: rest) cwd timeout r)
  = bool_decide (a = b).
Proof using Type.
  unfold runs. case_bool_decide as Hab.
  - subst. apply String.eqb_refl.
  - apply String.eqb_neq. intros H. by apply bin_inj in H.
Qed.

Lemma runs_cargo (a : string) rest cwd timeout r :
  runs (bin env a) (EvRun ("cargo" :: rest) cwd timeout r) = false.
Proof using Type.
  unfold runs. apply String.eqb_neq. intros H. by apply (bin_not_cargo a).
Qed.
End Programs.

(** Run the first computation of a [bind], given how it ends. *)
Tactic Notation "bind_ret" tactic3(tac) :=
  erewrite bind_Ret by tac; cbv beta iota.

Ltac emits_step :=
  lazymatch goal with
  | |- emits _ (bind _ _) => apply emits_bind; [|intros ?]
  | |- emits _ (ret _) => apply emits_ret
  | |- emits _ (raise _) => apply emits_raise
  | |- emits _ (print _) => apply emits_print
  | |- emits _ (plt _) => apply emits_plt
  | |- emits _ (mkdir_parents _) => apply emits_mkdir_parents
  | |- emits _ (path_exists _) => apply emits_path_exists
  | |- emits _ (index _ _) => apply emits_index
  | |- emits _ (perf_counter _) => apply emits_perf_counter; intros ?
  | |- emits _ (run_cmd _ _ _ _) => apply emits_run_cmd; intros ? ?
  | |- emits _ (py_range _ _ _) => apply emits_py_range
  | |- emits _ (need_build_loop _ _) => apply emits_need_build_loop
  | |- emits _ (for_each _ _ _) => apply emits_for_each; intros ? ?
  | |- emits _ (if ?b then _ else _) => destruct b
  | |- emits _ (match ?x with _ => _ end) => destruct x
  end.

(* ===================================================================== *)
(** * Timing one solver run *)
(* ===================================================================== *)

Section TimedRun.
Variable env : Env.

Lemma time_solver_exact_timed p k t :
  RuntimeVsN1.time_solver_exact env p k t
  = timed_run env (RuntimeVsN1.exact_cmd env p k) "[exact] n1=" 1 p t.
Proof using Type. reflexivity. Qed.

Lemma time_solver_approx_timed p k tm t :
  RuntimeVsN1.time_solver_approx env p k tm t
  = timed_run env (RuntimeVsN1.approx_cmd env p k tm) "[approx] n1=" 1 p t.
Proof using Type. reflexivity. Qed.

Lemma time_solver_approx_timed2 p k tm t :
  ApproxVsN2.time_solver_approx env p k tm t
  = timed_run env (ApproxVsN2.approx_cmd env p k tm) "[approx] n2=" 2 p t.
Proof using Type. reflexivity. Qed.

Lemma emits_timed_run P cmd tag field p timeout :
  (forall t, P (EvClock t)) ->
  (forall s, P (EvPrint s)) ->
  (forall r, P (EvRun cmd (path_str (PROJECT_ROOT env)) (Some timeout) r)) ->
  emits P (timed_run env cmd tag field p timeout).
Proof using Type.
  intros Hc Hp Hr. unfold timed_run. repeat emits_step; auto.
Qed.

(** The outcome and the log of one timed run, from how [run_cmd]
    ended. *)
Lemma timed_run_after cmd tag field p timeout w label o w1 :
  split_on "_" (stem p) !! field = Some label ->
  run_cmd env cmd (PROJECT_ROOT env) (Some timeout) (perf_counter env w).2
    = (o, w1) ->
  timed_run env cmd tag field p timeout w
  = match o with
    | Ret (code, out) =>
        let elapsed := PrimFloat.sub (clock env w1) (clock env w) in
        (Ret (if code =? 0 then Some elapsed else None),
         mkWorld (files w1)
           (log w1 ++ EvClock (clock env w1)
              :: EvPrint (tag +:+ label +:+ ", exit=" +:+ str_int code
                            +:+ ", time=" +:+ fmt_6f env elapsed +:+ "s")
              :: (if code =? 0 then [] else [EvPrint out])))
    | Raise e => (Raise e, w1)
    | Diverge => (Diverge, w1)
    end.
Proof using Type.
  intros Hl Hrun. unfold timed_run.
  bind_ret reflexivity.
  destruct o as [[code out]|e|].
  - bind_ret ltac:(exact Hrun).
    bind_ret reflexivity.
    unfold index. rewrite Hl.
    bind_ret reflexivity.
    bind_ret reflexivity.
    destruct (code =? 0); simpl.
    + unfold ret. by rewrite <- app_assoc.
    + unfold bind, print, emit, ret. simpl. by rewrite <- !app_assoc.
  - by erewrite bind_Raise by exact Hrun.
  - by erewrite bind_Diverge by exact Hrun.
Qed.
End TimedRun.

Lemma timed_run_times_one_run env cmd tag field p timeout label :
  split_on "_" (stem p) !! field = Some label ->
  times_one_run env (timed_run env cmd tag field p timeout) cmd timeout.
Proof.
  intros Hl w code out w1 Hrun elapsed.
  rewrite (timed_run_after env cmd tag field p timeout w label _ _ Hl Hrun).
  cbv zeta. fold elapsed. split; [|split].
  - destruct (run_cmd_run env cmd (PROJECT_ROOT env) (Some timeout)
                (perf_counter env w).2) as (r & fs & E & _).
    rewrite Hrun in E. injection E as _ ->. exists r. simpl.
    by rewrite <- app_assoc.
  - eexists. reflexivity.
  - simpl. destruct (Z.eqb_spec code 0); split; congruence.
Qed.

(** C5.  Each of the three [time_solver_*] functions, called on an
    instance file of [main], reads the clock, calls [run_cmd] and reads
    the clock again, with nothing else in between.  Whenever [run_cmd]
    returns a status (the status of a timeout is 124), the function
    returns [None] if and only if the status is not zero, and for status
    zero the difference of the two clock readings; the output of the
    process is printed after a failure and is no part of the result. *)
Theorem timed_invoker (env : Env) (n1 n2 k trials_multiplier timeout : Z) :
  let p := instance_path env n1 n2 in
  times_one_run env (RuntimeVsN1.time_solver_exact env p k timeout)
    (RuntimeVsN1.exact_cmd env p k) timeout /\
  times_one_run env
    (RuntimeVsN1.time_solver_approx env p k trials_multiplier timeout)
    (RuntimeVsN1.approx_cmd env p k trials_multiplier) timeout /\
  times_one_run env
    (ApproxVsN2.time_solver_approx env p k trials_multiplier timeout)
    (ApproxVsN2.approx_cmd env p k trials_multiplier) timeout.
Proof.
  intros p.
  destruct (instance_label env n1 n2 1 ltac:(lia)) as [l1 H1].
  destruct (instance_label env n1 n2 2 ltac:(lia)) as [l2 H2].
  rewrite time_solver_exact_timed, time_solver_approx_timed,
    time_solver_approx_timed2.
  repeat split; eapply timed_run_times_one_run; eassumption.
Qed.

Lemma timed_invoker_witness :
  (RuntimeVsN1.time_solver_exact Scenario.env
     (instance_path Scenario.env 4 25) 2 30 Scenario.built).1 = Ret None
  <-> 124 <> 0.
Proof.
  destruct (timed_invoker Scenario.env 4 25 2 10 30) as [H _].
  edestruct (H Scenario.built) as (_ & _ & Hiff); [reflexivity|].
  exact Hiff.
Defined.

(* ===================================================================== *)
(** * Providing the instance file *)
(* ===================================================================== *)

Section Provision.
Variable env : Env.

Lemma generate_instance_shape n1 n2 dg dh seed p :
  RuntimeVsN1.generate_instance env n1 n2 dg dh seed p
  = generate env true n1 n2 dg dh seed p.
Proof using Type. reflexivity. Qed.

Lemma generate_instance_shape2 n1 n2 dg dh seed p :
  ApproxVsN2.generate_instance env n1 n2 dg dh seed p
  = generate env false n1 n2 dg dh seed p.
Proof using Type. reflexivity. Qed.

Lemma provide_instance_shape args n1 :
  RuntimeVsN1.provide_instance env args n1
  = provide env true n1 (RuntimeVsN1.n2 args) (RuntimeVsN1.density_g args)
      (RuntimeVsN1.density_h args) (Some (RuntimeVsN1.seed args)).
Proof using Type. reflexivity. Qed.

Lemma provide_instance_shape2 args n2 :
  ApproxVsN2.provide_instance env args n2
  = provide env false (ApproxVsN2.n1 args) n2 (ApproxVsN2.density_g args)
      (ApproxVsN2.density_h args) (Some (ApproxVsN2.seed args)).
Proof using Type. reflexivity. Qed.

Lemma yields_before_generator show_cmd cmd p :
  yields (before_generator env show_cmd cmd p) tt
    (EvMkdir (parent p)
       :: if show_cmd then [EvPrint (str_list env cmd)] else []).
Proof using Type.
  unfold before_generator.
  change (EvMkdir (parent p) :: ?l) with ([EvMkdir (parent p)] ++ l).
  eapply yields_bind; [apply yields_mkdir_parents|].
  destruct show_cmd; [apply yields_print|apply yields_ret].
Qed.

(** The outcome and the log of [generate_instance], from how [run_cmd]
    ended. *)
Lemma generate_after show_cmd n1 n2 dg dh seed p w o w1 :
  let cmd := generator_cmd env n1 n2 dg dh seed p in
  run_cmd env cmd (PROJECT_ROOT env) None
    (before_generator env show_cmd cmd p w).2 = (o, w1) ->
  generate env show_cmd n1 n2 dg dh seed p w
  = match o with
    | Ret (code, out) =>
        let line := "[gen n1=" +:+ str_int n1 +:+ ", n2=" +:+ str_int n2
                      +:+ "] exit=" +:+ str_int code in
        if code =? 0 then
          (Ret tt,
           mkWorld (files w1)
             (log w1 ++ [EvPrint line;
                         EvPrint (join nl (take 10 (splitlines env
                                                      (strip env out))))]))
        else
          (Raise (RuntimeError ("Failed to generate instance: "
                                  +:+ path_str p)),
           mkWorld (files w1) (log w1 ++ [EvPrint line; EvPrint out]))
    | Raise e => (Raise e, w1)
    | Diverge => (Diverge, w1)
    end.
Proof using Type.
  intros cmd Hrun. unfold generate. fold cmd.
  destruct (yields_before_generator show_cmd cmd p w) as [Hb _].
  destruct (before_generator env show_cmd cmd p w) as [ob wb] eqn:Eb.
  simpl in Hb, Hrun. subst ob.
  bind_ret ltac:(exact Eb).
  destruct o as [[code out]|e|].
  - bind_ret ltac:(exact Hrun).
    bind_ret reflexivity.
    destruct (code =? 0); simpl.
    + unfold print, emit. simpl. by rewrite <- app_assoc.
    + unfold bind, raise, print, emit. simpl. by rewrite <- !app_assoc.
  - by erewrite bind_Raise by exact Hrun.
  - by erewrite bind_Diverge by exact Hrun.
Qed.

(** A cache hit: the file is there, nothing is run. *)
Lemma provide_cached show_cmd n1 n2 dg dh seed w :
  instance_path env n1 n2 ∈ files w ->
  provide env show_cmd n1 n2 dg dh seed w
  = (Ret tt,
     mkWorld (files w)
       (log w ++ [EvPrint ("Using existing instance: "
                             +:+ path_str (instance_path env n1 n2))])).
Proof using Type.
  intros Hin. unfold provide.
  assert (Hex : path_exists (instance_path env n1 n2) w = (Ret true, w)).
  { unfold path_exists. by rewrite bool_decide_eq_true_2. }
  bind_ret ltac:(exact Hex). reflexivity.
Qed.

(** A cache miss: the generator is run. *)
Lemma provide_missing show_cmd n1 n2 dg dh seed w :
  instance_path env n1 n2 ∉ files w ->
  provide env show_cmd n1 n2 dg dh seed w
  = generate env show_cmd n1 n2 dg dh seed (instance_path env n1 n2)
      (print ("Generating instance for n1=" +:+ str_int n1 +:+ ", n2="
                +:+ str_int n2 +:+ " ...") w).2.
Proof using Type.
  intros Hin. unfold provide.
  assert (Hex : path_exists (instance_path env n1 n2) w = (Ret false, w)).
  { unfold path_exists. by rewrite bool_decide_eq_false_2. }
  bind_ret ltac:(exact Hex). change (negb false) with true. cbv iota.
  by bind_ret reflexivity.
Qed.

Lemma emits_generate P show_cmd n1 n2 dg dh seed p :
  (forall s, P (EvPrint s)) ->
  (forall q, P (EvMkdir q)) ->
  (forall r, r <> TimedOut ->
     P (EvRun (generator_cmd env n1 n2 dg dh seed p)
          (path_str (PROJECT_ROOT env)) None r)) ->
  emits P (generate env show_cmd n1 n2 dg dh seed p).
Proof using Type.
  intros Hp Hm Hr. unfold generate, before_generator.
  repeat emits_step; auto.
Qed.

Lemma emits_provide P show_cmd n1 n2 dg dh seed :
  (forall s, P (EvPrint s)) ->
  (forall q, P (EvMkdir q)) ->
  (forall r, r <> TimedOut ->
     P (EvRun (generator_cmd env n1 n2 dg dh seed (instance_path env n1 n2))
          (path_str (PROJECT_ROOT env)) None r)) ->
  emits P (provide env show_cmd n1 n2 dg dh seed).
Proof using Type.
  intros Hp Hm Hr. unfold provide.
  apply emits_bind; [apply emits_path_exists|].
  intros []; simpl; [by apply emits_print|].
  apply emits_bind; [by apply emits_print|]. intros _.
  by apply emits_generate.
Qed.
End Provision.

Lemma quiet_no_runs (l : list event) :
  Forall quiet l ->
  List.filter is_run l = [].
Proof.
  induction 1 as [|e l [He _] _ IH]; [done|].
  cbn [List.filter]. by rewrite He.
Qed.

Lemma log_print (s : string) (w : World) :
  log (print s w).2 = log w ++ [EvPrint s].
Proof. reflexivity. Qed.

Section ProvisionTrace.
Variable env : Env.

(** What [generate_instance] logs and how it ends: one run of the
    generator, announced and followed by prints only. *)
Lemma generate_trace show_cmd n1 n2 dg dh seed p w :
  let cmd := generator_cmd env n1 n2 dg dh seed p in
  let r := generate env show_cmd n1 n2 dg dh seed p w in
  exists res pre post,
    log r.2 = log w ++ pre
                ++ EvRun cmd (path_str (PROJECT_ROOT env)) None res :: post /\
    Forall quiet pre /\
    Forall quiet post /\
    res <> TimedOut /\
    r.1 = match res with
          | Completed code _ =>
              if code =? 0 then Ret tt
              else Raise (RuntimeError ("Failed to generate instance: "
                                          +:+ path_str p))
          | FailedToStart err => Raise (OSError err)
          | Undecodable reason => Raise (UnicodeDecodeError reason)
          | TimedOut | Blocked => Diverge
          end.
Proof using Type.
  intros cmd r.
  destruct (yields_before_generator env show_cmd cmd p w) as [_ Hlb].
  destruct (run_cmd_run env cmd (PROJECT_ROOT env) None
              (before_generator env show_cmd cmd p w).2)
    as (res & fs & Hrun & Hnt & _).
  pose proof (generate_after env show_cmd n1 n2 dg dh seed p w _ _ Hrun)
    as Hg.
  fold cmd in Hg. fold r in Hg.
  assert (Hpre : Forall quiet
            (EvMkdir (parent p)
               :: (if show_cmd then [EvPrint (str_list env cmd)] else []))).
  { destruct show_cmd; repeat constructor. }
  exists res,
    (EvMkdir (parent p)
       :: (if show_cmd then [EvPrint (str_list env cmd)] else [])).
  destruct res as [code out| |err| |why]; simpl in Hg.
  - exists [EvPrint ("[gen n1=" +:+ str_int n1 +:+ ", n2=" +:+ str_int n2
                       +:+ "] exit=" +:+ str_int code);
            EvPrint (if code =? 0
                     then join nl (take 10 (splitlines env (strip env out)))
                     else out)].
    rewrite Hg.
    destruct (code =? 0); cbn [fst snd log files]; rewrite Hlb;
      (split; [by rewrite <- !app_assoc|]);
      (split; [exact Hpre|]); (split; [repeat constructor|]); auto.
  - by destruct Hnt.
  - exists []. rewrite Hg. cbn [fst snd log files]. rewrite Hlb.
    split; [by rewrite <- !app_assoc|]. repeat split; auto.
  - exists []. rewrite Hg. cbn [fst snd log files]. rewrite Hlb.
    split; [by rewrite <- !app_assoc|]. repeat split; auto.
  - exists []. rewrite Hg. cbn [fst snd log files]. rewrite Hlb.
    split; [by rewrite <- !app_assoc|]. repeat split; auto.
Qed.

(** The instance step runs at most one process. *)
Lemma provide_runs show_cmd n1 n2 dg dh seed w :
  (length (List.filter is_run
             (new_events w (provide env show_cmd n1 n2 dg dh seed w).2))
   <= 1)%nat.
Proof using Type.
  destruct (decide (instance_path env n1 n2 ∈ files w)) as [Hin|Hout].
  - rewrite provide_cached by done. unfold new_events.
    cbn [snd log]. rewrite drop_app_length. cbn. lia.
  - rewrite provide_missing by done.
    set (w' := (print _ w).2).
    destruct (generate_trace show_cmd n1 n2 dg dh seed
                (instance_path env n1 n2) w')
      as (res & pre & post & Hlog & Hpre & Hpost & _).
    cbv zeta in Hlog. unfold new_events. rewrite Hlog.
    subst w'. rewrite log_print, <- !app_assoc, drop_app_length.
    rewrite !List.filter_app, !length_app.
    rewrite (quiet_no_runs pre Hpre).
    cbn [List.filter is_run app length].
    rewrite (quiet_no_runs post Hpost). cbn [length]. lia.
Qed.
End ProvisionTrace.

(** C7.  In both scripts the instance step of the loop returns at once
    when the instance file exists: it runs no process and only prints
    that it uses the existing file.  So when the file exists after the
    first of two instance steps for the same path, the second one is
    such a no-op, and both together ran the generator at most once. *)
Theorem provisioning_idempotent (env : Env) :
  (forall (args : RuntimeVsN1.Args) (n1 : Z) (w : World),
     let p := instance_path env n1 (RuntimeVsN1.n2 args) in
     (p ∈ files w ->
      RuntimeVsN1.provide_instance env args n1 w
      = (Ret tt,
         mkWorld (files w)
           (log w ++ [EvPrint ("Using existing instance: " +:+ path_str p)])))
     /\
     (let w1 := (RuntimeVsN1.provide_instance env args n1 w).2 in
      let w2 := (RuntimeVsN1.provide_instance env args n1 w1).2 in
      p ∈ files w1 ->
      (RuntimeVsN1.provide_instance env args n1 w1).1 = Ret tt /\
      files w2 = files w1 /\
      List.filter is_run (new_events w1 w2) = [] /\
      (length (List.filter is_run (new_events w w1)) <= 1)%nat))
  /\
  (forall (args : ApproxVsN2.Args) (n2 : Z) (w : World),
     let p := instance_path env (ApproxVsN2.n1 args) n2 in
     (p ∈ files w ->
      ApproxVsN2.provide_instance env args n2 w
      = (Ret tt,
         mkWorld (files w)
           (log w ++ [EvPrint ("Using existing instance: " +:+ path_str p)])))
     /\
     (let w1 := (ApproxVsN2.provide_instance env args n2 w).2 in
      let w2 := (ApproxVsN2.provide_instance env args n2 w1).2 in
      p ∈ files w1 ->
      (ApproxVsN2.provide_instance env args n2 w1).1 = Ret tt /\
      files w2 = files w1 /\
      List.filter is_run (new_events w1 w2) = [] /\
      (length (List.filter is_run (new_events w w1)) <= 1)%nat)).
Proof.
  split.
  - intros args n1 w p. split.
    + intros Hin. rewrite provide_instance_shape. by apply provide_cached.
    + intros w1 w2 Hin. subst w2.
      rewrite (provide_instance_shape env args n1).
      rewrite provide_cached by exact Hin.
      cbn [fst snd files log]. repeat split.
      * unfold new_events. cbn [log]. by rewrite drop_app_length.
      * subst w1. rewrite provide_instance_shape. apply provide_runs.
  - intros args n2 w p. split.
    + intros Hin. rewrite provide_instance_shape2. by apply provide_cached.
    + intros w1 w2 Hin. subst w2.
      rewrite (provide_instance_shape2 env args n2).
      rewrite provide_cached by exact Hin.
      cbn [fst snd files log]. repeat split.
      * unfold new_events. cbn [log]. by rewrite drop_app_length.
      * subst w1. rewrite provide_instance_shape2. apply provide_runs.
Qed.

Lemma provisioning_idempotent_witness :
  let a := Scenario.args 2 5 in
  let w1 := (RuntimeVsN1.provide_instance Scenario.env a 2 Scenario.built).2 in
  let w2 := (RuntimeVsN1.provide_instance Scenario.env a 2 w1).2 in
  instance_path Scenario.env 2 25 ∈ files w1 /\
  (RuntimeVsN1.provide_instance Scenario.env a 2 w1).1 = Ret tt /\
  files w2 = files w1 /\
  List.filter is_run (new_events w1 w2) = [] /\
  (length (List.filter is_run (new_events Scenario.built w1)) <= 1)%nat.
Proof.
  intros a w1 w2.
  assert (Hin : instance_path Scenario.env 2 25 ∈ files w1).
  { refine (bool_decide_unpack _ _). vm_compute. exact I. }
  split; [exact Hin|].
  destruct (provisioning_idempotent Scenario.env) as [H _].
  destruct (H a 2 Scenario.built) as [_ H2].
  exact (H2 Hin).
Defined.

(* ===================================================================== *)
(** * The instance file of a sweep point *)
(* ===================================================================== *)

(** C8.  The instance file of a sweep point is
    [GEN_DIR / generated_<n1>_<n2>.txt], the same in both scripts: a
    function of the two sizes.  When that file exists, the instance step
    of either script does the same for all argument records that agree on
    the fixed size, whatever their densities, seed and other fields: it
    prints that it uses the file and runs nothing. *)
Theorem cache_key_is_sizes_only (env : Env) :
  (forall (a b : RuntimeVsN1.Args) (n1 : Z) (w : World),
     RuntimeVsN1.n2 a = RuntimeVsN1.n2 b ->
     instance_path env n1 (RuntimeVsN1.n2 a) ∈ files w ->
     RuntimeVsN1.provide_instance env a n1 w
     = RuntimeVsN1.provide_instance env b n1 w) /\
  (forall (a b : ApproxVsN2.Args) (n2 : Z) (w : World),
     ApproxVsN2.n1 a = ApproxVsN2.n1 b ->
     instance_path env (ApproxVsN2.n1 a) n2 ∈ files w ->
     ApproxVsN2.provide_instance env a n2 w
     = ApproxVsN2.provide_instance env b n2 w) /\
  (forall (a : RuntimeVsN1.Args) (b : ApproxVsN2.Args) (w : World),
     let n1 := ApproxVsN2.n1 b in
     let n2 := RuntimeVsN1.n2 a in
     instance_path env n1 n2 ∈ files w ->
     RuntimeVsN1.provide_instance env a n1 w
     = ApproxVsN2.provide_instance env b n2 w) /\
  (forall n1 n2 dg dh seed,
     instance_path env n1 n2
     = PROJECT_ROOT env // "examples" // "generated_benchmarks"
         // ("generated_" +:+ str_int n1 +:+ "_" +:+ str_int n2 +:+ ".txt") /\
     generator_cmd env n1 n2 dg dh seed (instance_path env n1 n2) !! 11%nat
     = Some (path_str (instance_path env n1 n2))).
Proof.
  repeat split.
  - intros a b n1 w Hn2 Hin.
    rewrite !provide_instance_shape, <- Hn2.
    by rewrite !provide_cached by done.
  - intros a b n2 w Hn1 Hin.
    rewrite !provide_instance_shape2, <- Hn1.
    by rewrite !provide_cached by done.
  - intros a b w n1 n2 Hin.
    rewrite provide_instance_shape, provide_instance_shape2.
    by rewrite !provide_cached by done.
Qed.

Lemma cache_key_is_sizes_only_witness :
  let a := Scenario.args 2 5 in
  let b := RuntimeVsN1.mkArgs 25 7 0 0 1 0.75%float 0.5%float 1 1 1 "other.png" in
  let w := (RuntimeVsN1.provide_instance Scenario.env a 2 Scenario.built).2 in
  RuntimeVsN1.provide_instance Scenario.env a 2 w
  = RuntimeVsN1.provide_instance Scenario.env b 2 w.
Proof.
  intros a b w.
  destruct (cache_key_is_sizes_only Scenario.env) as [H _].
  apply H; [reflexivity|].
  refine (bool_decide_unpack _ _). vm_compute. exact I.
Defined.

(* ===================================================================== *)
(** * Endings and logs of composed computations *)
(* ===================================================================== *)

Lemma ending_of_recast {A B} (o : outcome A) :
  stopped o -> ending_of (@recast A B o) = ending_of o.
Proof. by destruct o. Qed.

Lemma logs_bind {A B} Phi (m : M A) (k : A -> M B) :
  sequential Phi -> logs Phi m -> (forall a, logs Phi (k a)) ->
  logs Phi (bind m k).
Proof.
  intros [_ Hseq] Hm Hk w. destruct (Hm w) as (evs1 & E1 & F1).
  destruct (bind_cases m k w) as [(a & Ha & ->)|(Hs & ->)].
  - destruct (Hk a (m w).2) as (evs2 & E2 & F2).
    exists (evs1 ++ evs2). rewrite E2, E1, app_assoc. split; [done|].
    apply Hseq; [|done]. by rewrite Ha in F1.
  - exists evs1. cbn [fst snd]. by rewrite ending_of_recast.
Qed.

Lemma logs_for_each {A S} Phi (xs : list A) (body : A -> S -> M S) s :
  sequential Phi -> (forall x s, logs Phi (body x s)) ->
  logs Phi (for_each xs body s).
Proof.
  intros Hseq Hb. revert s. induction xs as [|x xs IH]; intros s.
  - intros w. exists []. cbn. rewrite app_nil_r. split; [done|apply Hseq].
  - cbn [for_each]. apply logs_bind; auto.
Qed.

Lemma logs_yields {A} (Phi : ending -> list event -> Prop) (m : M A) a evs :
  yields m a evs -> Phi Returned evs -> logs Phi m.
Proof.
  intros Hy HPhi w. destruct (Hy w) as [Ho Hl].
  exists evs. rewrite Ho. by split.
Qed.

Lemma logs_if {A} Phi (b : bool) (m1 m2 : M A) :
  logs Phi m1 -> logs Phi m2 -> logs Phi (if b then m1 else m2).
Proof. by destruct b. Qed.

(** ** The endings of [main] are accounted for *)

Lemma gen_failed_is_run env e : gen_failed env e = true -> is_run e = true.
Proof. by destruct e. Qed.

Lemma quiet_not_gen_failed env e : quiet e -> gen_failed env e = false.
Proof.
  intros [Hr _]. destruct (gen_failed env e) eqn:E; [|done].
  apply gen_failed_is_run in E. congruence.
Qed.

(** Where a list with one loud element is split at a loud element. *)
Lemma split_at_loud (Q : event -> Prop) pre0 x post0 pre e post :
  pre0 ++ x :: post0 = pre ++ e :: post ->
  Forall Q pre0 -> Forall Q post0 -> ~ Q e ->
  pre = pre0 /\ e = x /\ post = post0.
Proof.
  revert pre. induction pre0 as [|y pre0 IH]; intros pre Heq Hpre Hpost He.
  - destruct pre as [|z pre]; cbn in Heq.
    + by injection Heq as -> ->.
    + injection Heq as -> ->. apply Forall_app in Hpost as [_ Hpost].
      by apply Forall_cons in Hpost as [? _].
  - apply Forall_cons in Hpre as [Hy Hpre].
    destruct pre as [|z pre]; cbn in Heq.
    + injection Heq as -> _. done.
    + injection Heq as -> Heq.
      destruct (IH pre Heq Hpre Hpost He) as (-> & -> & ->). done.
Qed.

Lemma accounted_quiet env evs : Forall quiet evs -> accounted env Returned evs.
Proof.
  intros Hq. split; [|done]. intros pre e post -> He.
  apply Forall_app in Hq as [_ Hq]. apply Forall_cons in Hq as [Hq _].
  apply (quiet_not_gen_failed env) in Hq. congruence.
Qed.

Lemma accounted_sequential env : sequential (accounted env).
Proof.
  split; [by apply accounted_quiet|].
  intros en evs1 evs2 [H1 _] [H2 H2']. split.
  - intros pre e post Heq He.
    apply app_eq_app in Heq as [l [[-> Hl]|[-> Hl]]].
    + destruct l as [|e' l]; cbn in Hl.
      * subst evs2. by apply (H2 [] e post).
      * injection Hl as <- ->.
        destruct (H1 pre e l eq_refl He) as [[msg Hm] _]. done.
    + by apply (H2 l e post).
  - destruct en as [|[]|]; try done; cbn [cause] in *.
    + destruct H2' as (e & He & Hg). exists e. split; [|done].
      apply elem_of_app. by right.
    + destruct H2' as (c & d & t & He). exists c, d, t.
      apply elem_of_app. by right.
    + destruct H2' as (-> & e & He & Hg). split; [done|]. exists e.
      split; [|done]. apply elem_of_app. by right.
    + destruct H2' as (c & d & t & He). exists c, d, t.
      apply elem_of_app. by right.
    + destruct H2' as (c & d & He). exists c, d. apply elem_of_app. by right.
Qed.

Lemma accounted_yields env {A} (m : M A) a evs :
  yields m a evs -> Forall quiet evs -> logs (accounted env) m.
Proof. intros Hy Hq. eapply logs_yields; [done|]. by apply accounted_quiet. Qed.

Lemma accounted_print env s : logs (accounted env) (print s).
Proof.
  eapply accounted_yields; [apply yields_print|]. by repeat constructor.
Qed.

Lemma accounted_ret env {A} (a : A) : logs (accounted env) (ret a).
Proof. eapply accounted_yields; [apply yields_ret|]. constructor. Qed.


(* ===================================================================== *)
(** * What the scripts log before they plot *)
(* ===================================================================== *)

Section SweepEvents.
Variable env : Env.

Lemma sweep_event_generate sc t show_cmd n1 n2 dg dh seed p :
  emits (sweep_event env sc t) (generate env show_cmd n1 n2 dg dh seed p).
Proof using Type.
  apply emits_generate; try done.
  intros r Hr. split; [done|]. right. left. repeat split; eauto 10.
Qed.

Lemma sweep_event_provide sc t show_cmd n1 n2 dg dh seed :
  emits (sweep_event env sc t) (provide env show_cmd n1 n2 dg dh seed).
Proof using Type.
  apply emits_provide; try done.
  intros r Hr. split; [done|]. right. left. repeat split; eauto 10.
Qed.

Lemma sweep_event_timed_run (sc : list string -> Prop) t cmd tag field p :
  sc cmd -> emits (sweep_event env sc t) (timed_run env cmd tag field p t).
Proof using Type.
  intros Hsc. apply emits_timed_run; try done.
  intros r. split; [done|]. right. right. by split.
Qed.

Lemma sweep_event_ensure_built sc t :
  emits (sweep_event env sc t) (RuntimeVsN1.ensure_built env).
Proof using Type.
  unfold RuntimeVsN1.ensure_built. repeat emits_step; try done.
  split; [done|]. left. by repeat split; auto.
Qed.

Lemma sweep_event_ensure_built2 sc t :
  emits (sweep_event env sc t) (ApproxVsN2.ensure_built env).
Proof using Type.
  unfold ApproxVsN2.ensure_built. repeat emits_step; try done.
  split; [done|]. left. by repeat split; auto.
Qed.

Lemma sweep_event_sweep_step args n1 st :
  emits (sweep_event env (solver_cmd1 env) (RuntimeVsN1.timeout_seconds args))
    (RuntimeVsN1.sweep_step env args n1 st).
Proof using Type.
  unfold RuntimeVsN1.sweep_step. rewrite provide_instance_shape.
  apply emits_bind; [apply sweep_event_provide|]. intros _.
  apply emits_bind.
  - unfold RuntimeVsN1.exact_step. rewrite time_solver_exact_timed.
    destruct (negb (RuntimeVsN1.exact_failed st)).
    + apply emits_bind; [|intros ?; apply emits_ret].
      apply sweep_event_timed_run. left. eauto.
    + apply emits_bind; [by apply emits_print|intros ?; apply emits_ret].
  - intros st'. unfold RuntimeVsN1.approx_step.
    rewrite time_solver_approx_timed.
    apply emits_bind; [|intros ?; apply emits_ret].
    apply sweep_event_timed_run. right. eauto.
Qed.

Lemma sweep_event_sweep_step2 args n2 ts :
  emits (sweep_event env (solver_cmd2 env) (ApproxVsN2.timeout_seconds args))
    (ApproxVsN2.sweep_step env args n2 ts).
Proof using Type.
  unfold ApproxVsN2.sweep_step.
  rewrite provide_instance_shape2, time_solver_approx_timed2.
  apply emits_bind; [apply sweep_event_provide|]. intros _.
  apply emits_bind; [|intros ?; apply emits_ret].
  apply sweep_event_timed_run. unfold solver_cmd2. eauto.
Qed.

(** [sweep_event] implies the rule on timeouts. *)
Lemma sweep_event_timeout_rule sc t e :
  (forall cmd, sc cmd -> exists name rest,
      cmd = bin env name :: rest /\ name <> "input-generator") ->
  sweep_event env sc t e -> timeout_rule env t e.
Proof using Type.
  intros Hsc. destruct e as [| |cmd cwd timeout r| |]; try done.
  intros [_ [(-> & -> & Hr)|[((n1 & n2 & dg & dh & seed & p & ->) & -> & Hr)
                             |[Hcmd ->]]]].
  - done.
  - unfold timeout_rule, generator_cmd. cbn [app].
    fold (bin env "input-generator"). rewrite String.eqb_refl, orb_true_r.
    done.
  - destruct (Hsc cmd Hcmd) as (name & rest & -> & Hname).
    unfold timeout_rule.
    replace (String.eqb (bin env name) "cargo") with false
      by (symmetry; apply String.eqb_neq, bin_not_cargo).
    replace (String.eqb (bin env name) (bin env "input-generator")) with false.
    + done.
    + symmetry. apply String.eqb_neq. intros H. by apply bin_inj in H.
Qed.

Lemma solver_cmd1_bin cmd :
  solver_cmd1 env cmd ->
  exists name rest, cmd = bin env name :: rest /\ name <> "input-generator".
Proof using Type.
  intros [(p & k & ->)|(p & k & tm & ->)].
  - exists "exact-solver". eexists. by split.
  - exists "approx-solver". eexists. by split.
Qed.

Lemma solver_cmd2_bin cmd :
  solver_cmd2 env cmd ->
  exists name rest, cmd = bin env name :: rest /\ name <> "input-generator".
Proof using Type.
  intros (p & k & tm & ->). exists "approx_solver". eexists. by split.
Qed.

Lemma sweep_event_not_savefig sc t e :
  sweep_event env sc t e -> is_savefig e = false.
Proof using Type. by destruct e. Qed.
End SweepEvents.

Lemma emits_yields {A} (P : event -> Prop) (m : M A) a evs :
  yields m a evs -> Forall P evs -> emits P m.
Proof. intros Hy HP w. destruct (Hy w) as [_ Hl]. by exists evs. Qed.

Lemma plot_runtime_quiet n1_values exact_times approx_times n2 k output_path :
  exists evs,
    yields (RuntimeVsN1.plot_runtime n1_values exact_times approx_times n2 k
              output_path) tt evs /\
    Forall (fun e => is_run e = false) evs.
Proof.
  unfold RuntimeVsN1.plot_runtime.
  destruct (mask_vals n1_values exact_times) as [[|x1 x_exact] y_exact];
    destruct (mask_vals n1_values approx_times) as [[|x2 x_approx] y_approx];
    cbv beta iota zeta;
    (eexists; split; [repeat yields_step|cbn [app]; repeat constructor]).
Qed.

Lemma plot_runtime_quiet2 n2_values approx_times n1 k output_path log_scale :
  exists evs,
    yields (ApproxVsN2.plot_runtime n2_values approx_times n1 k output_path
              log_scale) tt evs /\
    Forall (fun e => is_run e = false) evs.
Proof.
  unfold ApproxVsN2.plot_runtime.
  destruct (mask_vals n2_values approx_times) as [[|x1 xs] ys];
    destruct log_scale; cbv beta iota zeta;
    (eexists; split; [repeat yields_step|cbn [app]; repeat constructor]).
Qed.

(* ===================================================================== *)
(** * Which runs have a time budget *)
(* ===================================================================== *)

Section TimeBudget.
Variable env : Env.

Lemma timeout_rule_no_run t e : is_run e = false -> timeout_rule env t e.
Proof using Type. by destruct e. Qed.

Lemma timeout_rule_main args :
  emits (timeout_rule env (RuntimeVsN1.timeout_seconds args))
    (RuntimeVsN1.main env args).
Proof using Type.
  pose (t := RuntimeVsN1.timeout_seconds args).
  assert (Hw : forall A (m : M A),
            emits (sweep_event env (solver_cmd1 env) t) m ->
            emits (timeout_rule env t) m).
  { intros A m. apply emits_weaken. intros e.
    apply sweep_event_timeout_rule, solver_cmd1_bin. }
  unfold RuntimeVsN1.main.
  apply emits_bind; [apply emits_py_range|]. intros n1_values.
  apply emits_bind; [by apply emits_print|]. intros _.
  apply emits_bind; [by apply emits_print|]. intros _.
  apply emits_bind; [apply Hw, sweep_event_ensure_built|]. intros _.
  apply emits_bind.
  { apply Hw, emits_for_each. intros. apply sweep_event_sweep_step. }
  intros st.
  apply emits_bind; [by apply emits_print|]. intros _.
  apply emits_bind.
  { apply emits_for_each. intros. by apply emits_print. }
  intros _.
  destruct (plot_runtime_quiet n1_values (RuntimeVsN1.exact_times st)
              (RuntimeVsN1.approx_times st) (RuntimeVsN1.n2 args)
              (RuntimeVsN1.k args) (resolve env (RuntimeVsN1.output args)))
    as (evs & Hy & Hq).
  eapply emits_yields; [exact Hy|].
  eapply Forall_impl; [exact Hq|]. apply timeout_rule_no_run.
Qed.

Lemma timeout_rule_main2 args :
  emits (timeout_rule env (ApproxVsN2.timeout_seconds args))
    (ApproxVsN2.main env args).
Proof using Type.
  pose (t := ApproxVsN2.timeout_seconds args).
  assert (Hw : forall A (m : M A),
            emits (sweep_event env (solver_cmd2 env) t) m ->
            emits (timeout_rule env t) m).
  { intros A m. apply emits_weaken. intros e.
    apply sweep_event_timeout_rule, solver_cmd2_bin. }
  unfold ApproxVsN2.main.
  apply emits_bind; [apply emits_py_range|]. intros n2_values.
  apply emits_bind; [by apply emits_print|]. intros _.
  apply emits_bind; [by apply emits_print|]. intros _.
  apply emits_bind; [apply Hw, sweep_event_ensure_built2|]. intros _.
  apply emits_bind.
  { apply Hw, emits_for_each. intros. apply sweep_event_sweep_step2. }
  intros approx_times.
  apply emits_bind; [by apply emits_print|]. intros _.
  apply emits_bind.
  { apply emits_for_each. intros. by apply emits_print. }
  intros _.
  destruct (plot_runtime_quiet2 n2_values approx_times (ApproxVsN2.n1 args)
              (ApproxVsN2.k args) (resolve env (ApproxVsN2.output args))
              (negb (ApproxVsN2.no_log_scale args)))
    as (evs & Hy & Hq).
  eapply emits_yields; [exact Hy|].
  eapply Forall_impl; [exact Hq|]. apply timeout_rule_no_run.
Qed.

(** A process that never exits: without a timeout [run_cmd] never
    returns, with one it returns the timeout status. *)
Lemma run_cmd_hangs cmd cwd timeout w :
  (proc env cmd (path_str cwd) w).1 = Hangs ->
  exists fs,
    run_cmd env cmd cwd timeout w
    = match timeout with
      | None =>
          (Diverge,
           mkWorld fs (log w ++ [EvRun cmd (path_str cwd) None Blocked]))
      | Some t =>
          (Ret (124, "TimeoutExpired: " +:+ str_TimeoutExpired env cmd t),
           mkWorld fs (log w ++ [EvRun cmd (path_str cwd) (Some t) TimedOut]))
      end.
Proof using Type.
  unfold run_cmd, try_except, bind, subprocess_run.
  destruct (proc env cmd (path_str cwd) w) as [b fs]. cbn [fst].
  intros ->. exists fs. by destruct timeout.
Qed.

Lemma generate_hangs show_cmd n1 n2 dg dh seed p w :
  let cmd := generator_cmd env n1 n2 dg dh seed p in
  (proc env cmd (path_str (PROJECT_ROOT env))
     (before_generator env show_cmd cmd p w).2).1 = Hangs ->
  (generate env show_cmd n1 n2 dg dh seed p w).1 = Diverge.
Proof using Type.
  intros cmd Hh.
  destruct (run_cmd_hangs cmd (PROJECT_ROOT env) None _ Hh) as [fs Hrun].
  by rewrite (generate_after env show_cmd n1 n2 dg dh seed p w _ _ Hrun).
Qed.

Lemma timed_run_hangs cmd tag field p timeout w label :
  split_on "_" (stem p) !! field = Some label ->
  (proc env cmd (path_str (PROJECT_ROOT env)) (perf_counter env w).2).1
    = Hangs ->
  (timed_run env cmd tag field p timeout w).1 = Ret None.
Proof using Type.
  intros Hl Hh.
  destruct (run_cmd_hangs cmd (PROJECT_ROOT env) (Some timeout) _ Hh)
    as [fs Hrun].
  by rewrite (timed_run_after env cmd tag field p timeout w label _ _ Hl Hrun).
Qed.
End TimeBudget.

(** C10.  In both scripts every run [main] logs obeys the rule on
    timeouts: the build and the generator are run without a timeout and
    are never logged as timed out, the solvers are run with
    [--timeout-seconds].  So a generator or a build that never exits
    makes the script wait forever, where a solver that never exits is
    recorded as a failure. *)
Theorem only_solvers_have_a_time_budget (env : Env) :
  (forall args w,
     Forall (timeout_rule env (RuntimeVsN1.timeout_seconds args))
       (new_events w (RuntimeVsN1.main env args w).2)) /\
  (forall args w,
     Forall (timeout_rule env (ApproxVsN2.timeout_seconds args))
       (new_events w (ApproxVsN2.main env args w).2)) /\
  (forall n1 n2 dg dh seed p w,
     let cmd := generator_cmd env n1 n2 dg dh seed p in
     ((proc env cmd (path_str (PROJECT_ROOT env))
         (before_generator env true cmd p w).2).1 = Hangs ->
      (RuntimeVsN1.generate_instance env n1 n2 dg dh seed p w).1 = Diverge) /\
     ((proc env cmd (path_str (PROJECT_ROOT env))
         (before_generator env false cmd p w).2).1 = Hangs ->
      (ApproxVsN2.generate_instance env n1 n2 dg dh seed p w).1 = Diverge)) /\
  (forall w,
     let cargo := ["cargo"; "build"; "--release"] in
     let w' := (print "Building release binaries with cargo build --release ..."
                  w).2 in
     (proc env cargo (path_str (PROJECT_ROOT env)) w').1 = Hangs ->
     ((need_build_loop env ["exact-solver"; "approx-solver"; "input-generator"]
         w).1 = Ret true ->
      (RuntimeVsN1.ensure_built env w).1 = Diverge) /\
     ((need_build_loop env ["approx_solver"; "input-generator"] w).1 = Ret true ->
      (ApproxVsN2.ensure_built env w).1 = Diverge)) /\
  (forall n1 n2 k timeout w,
     let p := instance_path env n1 n2 in
     (proc env (RuntimeVsN1.exact_cmd env p k) (path_str (PROJECT_ROOT env))
        (perf_counter env w).2).1 = Hangs ->
     (RuntimeVsN1.time_solver_exact env p k timeout w).1 = Ret None).
Proof.
  split; [|split; [|split; [|split]]].
  - intros args w. apply emits_new_events, timeout_rule_main.
  - intros args w. apply emits_new_events, timeout_rule_main2.
  - intros n1 n2 dg dh seed p w cmd. split; intros Hh.
    + rewrite generate_instance_shape. by apply generate_hangs.
    + rewrite generate_instance_shape2. by apply generate_hangs.
  - intros w cargo w' Hh.
    destruct (run_cmd_hangs env cargo (PROJECT_ROOT env) None w' Hh)
      as [fs Hrun].
    assert (Hnb : forall names,
              (need_build_loop env names w).1 = Ret true ->
              need_build_loop env names w = (Ret true, w)).
    { intros names. induction names as [|n names IH]; [done|].
      cbn [need_build_loop]. unfold bind, path_exists.
      destruct (bool_decide _); cbn [negb fst]; [exact IH|done]. }
    split; intros Hneed; apply Hnb in Hneed.
    + unfold RuntimeVsN1.ensure_built.
      bind_ret ltac:(exact Hneed). bind_ret reflexivity.
      fold cargo. fold w'. by erewrite bind_Diverge by exact Hrun.
    + unfold ApproxVsN2.ensure_built.
      bind_ret ltac:(exact Hneed). bind_ret reflexivity.
      fold cargo. fold w'. by erewrite bind_Diverge by exact Hrun.
  - intros n1 n2 k timeout w p Hh.
    destruct (instance_label env n1 n2 1 ltac:(lia)) as [l Hl].
    rewrite time_solver_exact_timed. by eapply timed_run_hangs.
Qed.

Lemma only_solvers_have_a_time_budget_witness :
  (RuntimeVsN1.generate_instance Scenario.env_hangs 2 25 0.375 0.25 (Some 1)
     (instance_path Scenario.env_hangs 2 25) Scenario.built).1 = Diverge /\
  (RuntimeVsN1.ensure_built Scenario.env_hangs (mkWorld ∅ [])).1 = Diverge /\
  (RuntimeVsN1.time_solver_exact Scenario.env_hangs
     (instance_path Scenario.env_hangs 2 25) 2 30 Scenario.built).1 = Ret None.
Proof.
  destruct (only_solvers_have_a_time_budget Scenario.env_hangs)
    as (_ & _ & Hgen & Hbuild & Hsolve).
  split; [|split].
  - apply Hgen. reflexivity.
  - apply Hbuild; reflexivity.
  - apply Hsolve. reflexivity.
Defined.

(* ===================================================================== *)
(** * The sweep loop *)
(* ===================================================================== *)

Lemma bind_Ret_inv {A B} (m : M A) (k : A -> M B) w b w2 :
  bind m k w = (Ret b, w2) ->
  exists a w1, m w = (Ret a, w1) /\ k a w1 = (Ret b, w2).
Proof.
  unfold bind. destruct (m w) as [[a|e|] w1]; [|done..]. eauto.
Qed.

Lemma new_events_app w w' evs : log w' = log w ++ evs -> new_events w w' = evs.
Proof. intros H. unfold new_events. by rewrite H, drop_app_length. Qed.

Lemma new_events_trans w w1 w2 evs1 evs2 :
  log w1 = log w ++ evs1 -> log w2 = log w1 ++ evs2 ->
  new_events w w2 = new_events w w1 ++ new_events w1 w2.
Proof.
  intros H1 H2. rewrite (new_events_app _ _ _ H1), (new_events_app _ _ _ H2).
  apply new_events_app. by rewrite H2, H1, app_assoc.
Qed.

Lemma emits_log {A} P (m : M A) w o w' :
  emits P m -> m w = (o, w') ->
  exists evs, log w' = log w ++ evs /\ Forall P evs.
Proof. intros H E. specialize (H w). by rewrite E in H. Qed.

Lemma run_cmds_app prog evs1 evs2 :
  run_cmds prog (evs1 ++ evs2) = run_cmds prog evs1 ++ run_cmds prog evs2.
Proof. apply omap_app. Qed.

Lemma run_cmds_cons prog e evs :
  run_cmds prog (e :: evs)
  = match e with
    | EvRun cmd _ _ _ => if runs prog e then [cmd] else []
    | _ => []
    end ++ run_cmds prog evs.
Proof.
  destruct e as [| |cmd cwd timeout r| |]; try reflexivity.
  unfold run_cmds. cbn [omap list_omap].
  by destruct (runs prog (EvRun cmd cwd timeout r)).
Qed.

Lemma run_cmds_none prog evs :
  Forall (fun e => runs prog e = false) evs -> run_cmds prog evs = [].
Proof.
  induction 1 as [|e evs He _ IH]; [done|].
  rewrite run_cmds_cons, IH, He. by destruct e.
Qed.

Lemma only_runs_other env name other evs :
  other <> name -> Forall (only_runs env name) evs ->
  run_cmds (bin env other) evs = [].
Proof.
  intros Hne H. apply run_cmds_none.
  eapply Forall_impl; [exact H|]. intros e He. by apply He.
Qed.

Lemma only_runs_quiet env name e : is_run e = false -> only_runs env name e.
Proof. intros H other _. by destruct e. Qed.

Lemma only_runs_bin env name rest cwd timeout r :
  only_runs env name (EvRun (bin env name :: rest) cwd timeout r).
Proof.
  intros other Hne. rewrite runs_bin. by apply bool_decide_eq_false_2.
Qed.

Lemma for_each_run_cmds {A S} prog (f : A -> list string) (xs : list A)
    (body : A -> S -> M S) s w s' w' :
  (forall x s, emits (fun _ => True) (body x s)) ->
  (forall x s w s' w',
     body x s w = (Ret s', w') -> run_cmds prog (new_events w w') = [f x]) ->
  for_each xs body s w = (Ret s', w') ->
  run_cmds prog (new_events w w') = f <$> xs.
Proof.
  intros Hlog Hbody. revert s w.
  induction xs as [|x xs IH]; intros s w Hrun.
  - injection Hrun as _ <-. unfold new_events. by rewrite drop_all.
  - cbn [for_each] in Hrun.
    apply bind_Ret_inv in Hrun as (s1 & w1 & Hx & Hrest).
    destruct (emits_log _ _ _ _ _ (Hlog x s) Hx) as (evs1 & E1 & _).
    destruct (emits_log _ _ _ _ _
                (emits_for_each _ xs body s1 Hlog) Hrest) as (evs2 & E2 & _).
    rewrite (new_events_trans _ _ _ _ _ E1 E2), run_cmds_app.
    rewrite (Hbody _ _ _ _ _ Hx), (IH _ _ Hrest). done.
Qed.

Section TimedTrace.
Variable env : Env.

Lemma log_perf_counter w :
  log (perf_counter env w).2 = log w ++ [EvClock (clock env w)].
Proof using Type. reflexivity. Qed.

(** One timed run logs one run, between clock readings, and then only
    quiet events; how it ends follows from how the run ended. *)
Lemma timed_run_trace cmd tag field p timeout w label :
  split_on "_" (stem p) !! field = Some label ->
  let r := timed_run env cmd tag field p timeout w in
  exists res post,
    log r.2 = log w ++ EvClock (clock env w)
                :: EvRun cmd (path_str (PROJECT_ROOT env)) (Some timeout) res
                :: post /\
    Forall quiet post /\
    match res with
    | Completed code _ => exists v, r.1 = Ret v /\ (v = None <-> code <> 0)
    | TimedOut => r.1 = Ret None
    | FailedToStart err => r.1 = Raise (OSError err)
    | Blocked => False
    | Undecodable reason => r.1 = Raise (UnicodeDecodeError reason)
    end.
Proof using Type.
  intros Hl r.
  destruct (run_cmd_run env cmd (PROJECT_ROOT env) (Some timeout)
              (perf_counter env w).2) as (res & fs & Hrun & _ & Hb).
  pose proof (timed_run_after env cmd tag field p timeout w label _ _ Hl Hrun)
    as Hr.
  fold r in Hr. exists res.
  destruct res as [code out| |err| |why]; cbn [run_outcome] in Hr.
    - rewrite Hr. cbv zeta. cbn [fst snd log].
    eexists. split; [rewrite log_perf_counter, <- !app_assoc; reflexivity|].
    split; [destruct (code =? 0); repeat constructor|].
    eexists. split; [done|].
    destruct (Z.eqb_spec code 0); split; congruence.
  - rewrite Hr. cbv zeta. cbn [fst snd log].
    eexists. split; [rewrite log_perf_counter, <- !app_assoc; reflexivity|].
    split; [repeat constructor|done].
  - rewrite Hr. cbn [fst snd log]. exists [].
    split; [by rewrite log_perf_counter, <- !app_assoc|]. by split.
  - by specialize (Hb eq_refl).
  - rewrite Hr. cbn [fst snd log]. exists [].
    split; [by rewrite log_perf_counter, <- !app_assoc|]. by split.
Qed.

Lemma timed_run_run_cmds name cmd rest tag field p timeout w label :
  cmd = bin env name :: rest ->
  split_on "_" (stem p) !! field = Some label ->
  let r := timed_run env cmd tag field p timeout w in
  run_cmds (bin env name) (new_events w r.2) = [cmd] /\
  Forall (only_runs env name) (new_events w r.2).
Proof using Type.
    intros -> Hl r.
  destruct (timed_run_trace (bin env name :: rest) tag field p timeout w
              label Hl)
    as (res & post & Hlog & Hq & _).
  cbv zeta in Hlog. fold r in Hlog.
  rewrite (new_events_app _ _ _ Hlog). split.
      - rewrite !run_cmds_cons.
    rewrite runs_bin, bool_decide_eq_true_2 by done.
    cbn [app]. f_equal. apply run_cmds_none.
    eapply Forall_impl; [exact Hq|]. intros e [He _]. by destruct e.
  - constructor; [by apply only_runs_quiet|].
            constructor; [apply only_runs_bin|].
    eapply Forall_impl; [exact Hq|]. intros e [He _].
    by apply only_runs_quiet.
Qed.

Lemma only_runs_provide show_cmd n1 n2 dg dh seed :
  emits (only_runs env "input-generator")
    (provide env show_cmd n1 n2 dg dh seed).
Proof using Type.
  apply emits_provide; try (intros; by apply only_runs_quiet).
  intros r _. unfold generator_cmd. cbn [app]. apply only_runs_bin.
Qed.
End TimedTrace.

Section SweepSteps.
Variable env : Env.

Lemma exact_step_Ret args n1 st w st1 w1 :
  RuntimeVsN1.exact_step env args n1 st w = (Ret st1, w1) ->
  exists te evs,
    st1 = RuntimeVsN1.mkLoop (RuntimeVsN1.exact_times st ++ [te])
            (RuntimeVsN1.approx_times st)
            (RuntimeVsN1.exact_failed st
             || match te with None => true | Some _ => false end) /\
    log w1 = log w ++ evs /\
    Forall (only_runs env "exact-solver") evs /\
    (RuntimeVsN1.exact_failed st = true ->
     te = None /\ Forall (fun e => is_run e = false) evs).
Proof using Type.
  unfold RuntimeVsN1.exact_step.
  destruct (RuntimeVsN1.exact_failed st) eqn:Hf; cbn [negb orb].
    - intros H. cbv beta iota delta [bind print emit ret] in H.
    injection H as <- <-.
    exists None. eexists. split; [done|]. split; [reflexivity|].
        split; [|split; [done|]]; repeat constructor.
  - intros H. apply bind_Ret_inv in H as (te & w' & Ht & Hret).
    injection Hret as <- <-. exists te.
    destruct (instance_label env n1 (RuntimeVsN1.n2 args) 1 ltac:(lia))
      as [l Hl].
    rewrite time_solver_exact_timed in Ht.
            destruct (timed_run_run_cmds env "exact-solver"
                (RuntimeVsN1.exact_cmd env
                   (instance_path env n1 (RuntimeVsN1.n2 args))
                   (RuntimeVsN1.k args))
                _ "[exact] n1=" 1 _
                (RuntimeVsN1.timeout_seconds args) w l eq_refl Hl)
      as [_ Hall].
    rewrite Ht in Hall. cbn [snd] in Hall.
    destruct (emits_log _ _ _ _ _
                (emits_timed_run env (fun _ => True) _ _ _ _ _
                   (fun _ => I) (fun _ => I) (fun _ => I)) Ht)
      as (evs & Hlog & _).
    rewrite (new_events_app _ _ _ Hlog) in Hall.
    exists evs. split; [by destruct te|]. by repeat split.
Qed.

Lemma approx_step_Ret args n1 st w st1 w1 :
  RuntimeVsN1.approx_step env args n1 st w = (Ret st1, w1) ->
  exists ta evs,
    st1 = RuntimeVsN1.mkLoop (RuntimeVsN1.exact_times st)
            (RuntimeVsN1.approx_times st ++ [ta])
            (RuntimeVsN1.exact_failed st) /\
    log w1 = log w ++ evs /\
    Forall (only_runs env "approx-solver") evs /\
    run_cmds (bin env "approx-solver") evs
    = [RuntimeVsN1.approx_cmd env
         (instance_path env n1 (RuntimeVsN1.n2 args)) (RuntimeVsN1.k args)
         (RuntimeVsN1.trials_multiplier args)].
Proof using Type.
  unfold RuntimeVsN1.approx_step.
  intros H. apply bind_Ret_inv in H as (ta & w' & Ht & Hret).
  injection Hret as <- <-. exists ta.
  destruct (instance_label env n1 (RuntimeVsN1.n2 args) 1 ltac:(lia))
    as [l Hl].
  rewrite time_solver_approx_timed in Ht.
      destruct (timed_run_run_cmds env "approx-solver"
              (RuntimeVsN1.approx_cmd env
                 (instance_path env n1 (RuntimeVsN1.n2 args))
                 (RuntimeVsN1.k args) (RuntimeVsN1.trials_multiplier args))
              _ "[approx] n1=" 1 _
              (RuntimeVsN1.timeout_seconds args) w l eq_refl Hl)
    as [Hcmds Hall].
  rewrite Ht in Hcmds, Hall. cbn [snd] in Hcmds, Hall.
  destruct (emits_log _ _ _ _ _
              (emits_timed_run env (fun _ => True) _ _ _ _ _
                 (fun _ => I) (fun _ => I) (fun _ => I)) Ht)
    as (evs & Hlog & _).
  rewrite (new_events_app _ _ _ Hlog) in Hcmds, Hall.
  exists evs. by repeat split.
Qed.

(** One pass through the loop body that returns: what it appends to the
    two lists, the flag afterwards, and the runs of the two solvers. *)
Lemma sweep_step_Ret args n1 st w st1 w1 :
  RuntimeVsN1.sweep_step env args n1 st w = (Ret st1, w1) ->
  exists te ta evs,
    st1 = RuntimeVsN1.mkLoop (RuntimeVsN1.exact_times st ++ [te])
            (RuntimeVsN1.approx_times st ++ [ta])
            (RuntimeVsN1.exact_failed st
             || match te with None => true | Some _ => false end) /\
    log w1 = log w ++ evs /\
    run_cmds (bin env "approx-solver") evs
    = [RuntimeVsN1.approx_cmd env
         (instance_path env n1 (RuntimeVsN1.n2 args)) (RuntimeVsN1.k args)
         (RuntimeVsN1.trials_multiplier args)] /\
    (RuntimeVsN1.exact_failed st = true ->
     te = None /\ run_cmds (bin env "exact-solver") evs = []).
Proof using Type.
  unfold RuntimeVsN1.sweep_step. intros H.
  apply bind_Ret_inv in H as ([] & wp & Hp & H).
  apply bind_Ret_inv in H as (st' & we & He & Ha).
  rewrite provide_instance_shape in Hp.
  destruct (emits_log _ _ _ _ _ (only_runs_provide env _ _ _ _ _ _) Hp)
    as (evs_p & Hlp & Hop).
  apply exact_step_Ret in He as (te & evs_e & -> & Hle & Hoe & Hflag).
  apply approx_step_Ret in Ha as (ta & evs_a & -> & Hla & Hoa & Hca).
  cbn [RuntimeVsN1.exact_times RuntimeVsN1.approx_times
         RuntimeVsN1.exact_failed].
  exists te, ta, (evs_p ++ evs_e ++ evs_a).
  split; [done|]. split; [by rewrite Hla, Hle, Hlp, <- !app_assoc|].
  split.
  - rewrite !run_cmds_app, Hca.
    rewrite (only_runs_other env "input-generator" "approx-solver" evs_p)
      by done.
    by rewrite (only_runs_other env "exact-solver" "approx-solver" evs_e)
      by done.
  - intros Hf. destruct (Hflag Hf) as [-> Hquiet]. split; [done|].
    rewrite !run_cmds_app.
    rewrite (only_runs_other env "input-generator" "exact-solver" evs_p)
      by done.
    rewrite (only_runs_other env "approx-solver" "exact-solver" evs_a)
      by done.
    rewrite app_nil_r. cbn [app]. apply run_cmds_none.
    eapply Forall_impl; [exact Hquiet|]. intros e He. by destruct e.
Qed.

Lemma sweep_step_log args n1 st :
  emits (fun _ => True) (RuntimeVsN1.sweep_step env args n1 st).
Proof using Type.
  eapply emits_weaken; [|apply sweep_event_sweep_step]. done.
Qed.

(** The loop keeps: once [None] is in [exact_times], the flag is set. *)
Lemma sweep_loop_exact args xs st w st1 w1 :
  for_each xs (RuntimeVsN1.sweep_step env args) st w = (Ret st1, w1) ->
  exists tes,
    RuntimeVsN1.exact_times st1 = RuntimeVsN1.exact_times st ++ tes /\
    length tes = length xs /\
    ((None ∈ RuntimeVsN1.exact_times st -> RuntimeVsN1.exact_failed st = true) ->
     (None ∈ RuntimeVsN1.exact_times st1 ->
      RuntimeVsN1.exact_failed st1 = true)).
Proof using Type.
  revert st w. induction xs as [|x xs IH]; intros st w H.
  - injection H as <- <-. exists []. by rewrite app_nil_r.
  - cbn [for_each] in H. apply bind_Ret_inv in H as (s' & w' & Hx & Hrest).
    apply sweep_step_Ret in Hx as (te & ta & evs & -> & _ & _ & Hf).
    apply IH in Hrest as (tes & Het & Hlen & Hinv).
    cbn [RuntimeVsN1.exact_times RuntimeVsN1.exact_failed] in *.
    exists (te :: tes). split; [by rewrite Het, <- app_assoc|].
    split; [cbn; lia|].
    intros Hst. apply Hinv. intros Hin.
    apply elem_of_app in Hin as [Hin|Hin].
    + by rewrite (Hst Hin).
    + apply list_elem_of_singleton in Hin as <-. apply orb_true_r.
Qed.
End SweepSteps.

(** C1.  Take a sweep of the [n1] script whose loop gets through the
    sizes [xs].  If the outcome recorded for the exact solver at index
    [i] is [None], then at every later index [j] the recorded outcome is
    [None] too, and the pass of the loop for index [j] does not run the
    exact solver. *)
Theorem early_stop_monotone (env : Env) (args : RuntimeVsN1.Args)
    (xs : list Z) (w : World) (st : RuntimeVsN1.loop_state) (w' : World) :
  RuntimeVsN1.sweep_loop env args xs w = (Ret st, w') ->
  forall i j, (i < j < length xs)%nat ->
    RuntimeVsN1.exact_times st !! i = Some None ->
    RuntimeVsN1.exact_times st !! j = Some None /\
    exists n1 st_j w_j st_j1 w_j1,
      xs !! j = Some n1 /\
      RuntimeVsN1.sweep_loop env args (take j xs) w = (Ret st_j, w_j) /\
      RuntimeVsN1.sweep_step env args n1 st_j w_j = (Ret st_j1, w_j1) /\
      RuntimeVsN1.sweep_loop env args (take (S j) xs) w = (Ret st_j1, w_j1) /\
      run_cmds (bin env "exact-solver") (new_events w_j w_j1) = [].
Proof.
  unfold RuntimeVsN1.sweep_loop. intros Hloop i j [Hij Hj] Hi.
  destruct (lookup_lt_is_Some_2 xs j Hj) as [n1 Hn1].
  rewrite <- (take_drop_middle xs j n1 Hn1) in Hloop.
  rewrite for_each_app in Hloop.
  apply bind_Ret_inv in Hloop as (st_j & w_j & Hpre & Hrest).
  cbn [for_each] in Hrest.
  apply bind_Ret_inv in Hrest as (st_j1 & w_j1 & Hstep & Hrest).
  destruct (sweep_loop_exact env args _ _ _ _ _ Hpre) as (tes & Ht & Hlen & Hinv).
  cbn [RuntimeVsN1.exact_times RuntimeVsN1.exact_failed app] in Ht, Hinv.
  rewrite length_take_le in Hlen by lia.
  destruct (sweep_step_Ret env args _ _ _ _ _ Hstep)
    as (te & ta & evs & Hst1 & Hlog & _ & Hflag).
  destruct (sweep_loop_exact env args _ _ _ _ _ Hrest) as (tes' & Ht' & _ & _).
  rewrite Hst1 in Ht'. cbn [RuntimeVsN1.exact_times] in Ht'.
  rewrite Ht in Ht'. rewrite Ht' in Hi |- *.
  rewrite <- app_assoc in Hi. rewrite lookup_app_l in Hi by lia.
  assert (Hfailed : RuntimeVsN1.exact_failed st_j = true).
  { apply Hinv; [by intros ?%elem_of_nil|].
    rewrite Ht. by eapply list_elem_of_lookup_2. }
  destruct (Hflag Hfailed) as [-> Hnone].
  split.
  - rewrite lookup_app_l by (rewrite length_app; cbn; lia).
    rewrite lookup_app_r by lia. by rewrite Hlen, Nat.sub_diag.
  - exists n1, st_j, w_j, st_j1, w_j1.
    split; [done|]. split; [done|]. split; [done|]. split.
    + rewrite (take_S_r xs j n1 Hn1), for_each_app.
      rewrite (bind_Ret _ _ _ _ _ Hpre). cbn [for_each].
      by rewrite (bind_Ret _ _ _ _ _ Hstep).
    + by rewrite (new_events_app _ _ _ Hlog).
Qed.

Lemma early_stop_monotone_witness :
  let r := RuntimeVsN1.sweep_loop Scenario.env (Scenario.args 2 5)
             [2; 3; 4; 5] Scenario.built in
  exists st, r.1 = Ret st /\
    RuntimeVsN1.exact_times st !! 2%nat = Some None /\
    RuntimeVsN1.exact_times st !! 3%nat = Some None.
Proof.
  intros r. destruct r as [o w'] eqn:E.
  assert (Ho : exists st, o = Ret st /\
                 RuntimeVsN1.exact_times st !! 2%nat = Some None).
  { assert (o = r.1) as -> by (subst r; by rewrite E).
    vm_compute. eexists. split; reflexivity. }
  destruct Ho as (st & -> & H2). exists st. split; [done|]. split; [done|].
  exact (proj1 (early_stop_monotone Scenario.env (Scenario.args 2 5)
                  [2; 3; 4; 5] Scenario.built st w' E 2%nat 3%nat
                  ltac:(cbn; lia) H2)).
Defined.

Section ApproxRuns.
Variable env : Env.

Lemma sweep_step2_Ret args n2 ts w ts1 w1 :
  ApproxVsN2.sweep_step env args n2 ts w = (Ret ts1, w1) ->
  exists ta evs,
    ts1 = ts ++ [ta] /\
    log w1 = log w ++ evs /\
    run_cmds (bin env "approx_solver") evs
    = [ApproxVsN2.approx_cmd env
         (instance_path env (ApproxVsN2.n1 args) n2) (ApproxVsN2.k args)
         (ApproxVsN2.trials_multiplier args)].
Proof using Type.
  unfold ApproxVsN2.sweep_step. intros H.
  apply bind_Ret_inv in H as ([] & wp & Hp & H).
  apply bind_Ret_inv in H as (ta & wa & Ht & Hret).
  injection Hret as <- <-.
  rewrite provide_instance_shape2 in Hp.
  destruct (emits_log _ _ _ _ _ (only_runs_provide env _ _ _ _ _ _) Hp)
    as (evs_p & Hlp & Hop).
  destruct (instance_label env (ApproxVsN2.n1 args) n2 2 ltac:(lia))
    as [l Hl].
  rewrite time_solver_approx_timed2 in Ht.
  destruct (timed_run_run_cmds env "approx_solver"
              (ApproxVsN2.approx_cmd env
                 (instance_path env (ApproxVsN2.n1 args) n2)
                 (ApproxVsN2.k args) (ApproxVsN2.trials_multiplier args))
              _ "[approx] n2=" 2 _
              (ApproxVsN2.timeout_seconds args) wp l eq_refl Hl)
    as [Hcmds _].
  rewrite Ht in Hcmds. cbn [snd] in Hcmds.
  destruct (emits_log _ _ _ _ _
              (emits_timed_run env (fun _ => True) _ _ _ _ _
                 (fun _ => I) (fun _ => I) (fun _ => I)) Ht)
    as (evs_a & Hla & _).
  rewrite (new_events_app _ _ _ Hla) in Hcmds.
  exists ta, (evs_p ++ evs_a).
  split; [done|]. split; [by rewrite Hla, Hlp, <- app_assoc|].
  rewrite run_cmds_app, Hcmds.
  by rewrite (only_runs_other env "input-generator" "approx_solver" evs_p)
    by done.
Qed.

Lemma sweep_step2_log args n2 ts :
  emits (fun _ => True) (ApproxVsN2.sweep_step env args n2 ts).
Proof using Type.
  eapply emits_weaken; [|apply sweep_event_sweep_step2]. done.
Qed.

Lemma sweep_loop_approx_length args xs st w st1 w1 :
  for_each xs (RuntimeVsN1.sweep_step env args) st w = (Ret st1, w1) ->
  length (RuntimeVsN1.approx_times st1)
  = (length (RuntimeVsN1.approx_times st) + length xs)%nat.
Proof using Type.
  revert st w. induction xs as [|x xs IH]; intros st w H.
  - injection H as <- <-. cbn. lia.
  - cbn [for_each] in H. apply bind_Ret_inv in H as (s' & w' & Hx & Hrest).
    apply sweep_step_Ret in Hx as (te & ta & evs & -> & _).
    apply IH in Hrest. rewrite Hrest.
    cbn [RuntimeVsN1.approx_times]. rewrite length_app. cbn. lia.
Qed.

Lemma sweep_loop2_approx_length args xs ts w ts1 w1 :
  for_each xs (ApproxVsN2.sweep_step env args) ts w = (Ret ts1, w1) ->
  length ts1 = (length ts + length xs)%nat.
Proof using Type.
  revert ts w. induction xs as [|x xs IH]; intros ts w H.
  - injection H as <- <-. cbn. lia.
  - cbn [for_each] in H. apply bind_Ret_inv in H as (s' & w' & Hx & Hrest).
    apply sweep_step2_Ret in Hx as (ta & evs & -> & _).
    apply IH in Hrest. rewrite Hrest, length_app. cbn. lia.
Qed.
End ApproxRuns.

(* ===================================================================== *)
(** * How [main] can end *)
(* ===================================================================== *)

Lemma ensure_built_shape (env : Env) :
  RuntimeVsN1.ensure_built env
  = build_if_missing env ["exact-solver"; "approx-solver"; "input-generator"].
Proof. reflexivity. Qed.

Lemma ensure_built_shape2 (env : Env) :
  ApproxVsN2.ensure_built env
  = build_if_missing env ["approx_solver"; "input-generator"].
Proof. reflexivity. Qed.

(** The loop over the names only looks: [need_build] is set exactly when
    one of the binaries is missing. *)
Lemma need_build_loop_all_built env names w :
  need_build_loop env names w = (Ret (negb (all_built env names w)), w).
Proof.
  induction names as [|n names IH]; [reflexivity|].
  cbn [need_build_loop all_built forallb]. unfold bind, path_exists.
  destruct (bool_decide (BIN_DIR env // n ∈ files w)); cbn [negb andb].
  - exact IH.
  - reflexivity.
Qed.

Lemma build_if_missing_built env names w :
  all_built env names w = true -> build_if_missing env names w = (Ret tt, w).
Proof.
  intros Hb. unfold build_if_missing.
  bind_ret ltac:(apply need_build_loop_all_built).
  by rewrite Hb.
Qed.

Lemma build_if_missing_builds env names w :
  all_built env names w = false ->
  exists r fs,
    r <> TimedOut /\
    build_if_missing env names w
    = ((after_build r).1,
       mkWorld fs
         (log w
          ++ EvPrint "Building release binaries with cargo build --release ..."
          :: cargo_run env r :: (after_build r).2)).
Proof.
  intros Hb. unfold build_if_missing.
  bind_ret ltac:(apply need_build_loop_all_built).
  rewrite Hb. cbn [negb].
  bind_ret reflexivity.
  destruct (run_cmd_run env ["cargo"; "build"; "--release"] (PROJECT_ROOT env)
              None
              (print "Building release binaries with cargo build --release ..."
                 w).2)
    as (r & fs & Hrun & Hnt & _).
  exists r, fs. split; [by apply Hnt|].
  destruct r as [code out| |err| |why]; cbn [run_outcome] in Hrun.
  - bind_ret ltac:(exact Hrun). bind_ret reflexivity.
    cbn [after_build]. destruct (code =? 0); cbn [negb fst snd].
    + unfold ret, cargo_run. cbn [files log].
      by rewrite log_print, <- !app_assoc.
    + bind_ret reflexivity. unfold raise, cargo_run. cbn [files log].
      by rewrite log_print, <- !app_assoc.
  - by destruct Hnt.
  - erewrite bind_Raise by exact Hrun. unfold cargo_run.
    cbn [after_build fst snd]. by rewrite log_print, <- !app_assoc.
  - erewrite bind_Diverge by exact Hrun. unfold cargo_run.
    cbn [after_build fst snd]. by rewrite log_print, <- !app_assoc.
  - erewrite bind_Raise by exact Hrun. unfold cargo_run.
    cbn [after_build fst snd]. by rewrite log_print, <- !app_assoc.
Qed.

Lemma accounted_no_run env evs :
  Forall (fun e => is_run e = false) evs -> accounted env Returned evs.
Proof.
  intros Hq. split; [|done]. intros pre e post -> He.
  apply Forall_app in Hq as [_ Hq]. apply Forall_cons in Hq as [Hq _].
  apply gen_failed_is_run in He. congruence.
Qed.

Lemma accounted_nothing env {A} (m : M A) :
  (forall w, exists a, m w = (Ret a, w)) -> logs (accounted env) m.
Proof.
  intros H w. destruct (H w) as [a ->]. exists []. cbn.
  rewrite app_nil_r. split; [done|]. by apply accounted_quiet.
Qed.

Ltac accounted_step env :=
  lazymatch goal with
  | |- logs _ (bind _ _) =>
      apply logs_bind; [apply accounted_sequential| |intros ?]
  | |- logs _ (ret _) => apply accounted_ret
  | |- logs _ (print _) => apply accounted_print
  | |- logs _ (for_each _ _ _) =>
      apply logs_for_each; [apply accounted_sequential|intros ? ?]
  | |- logs _ (if ?b then _ else _) => destruct b
  | |- logs _ (match ?x with _ => _ end) => destruct x
  end.

Section Accounted.
Variable env : Env.

Lemma accounted_path_exists p : logs (accounted env) (path_exists p).
Proof using Type. apply accounted_nothing. intros w. by eexists. Qed.

Lemma accounted_need_build_loop names :
  logs (accounted env) (need_build_loop env names).
Proof using Type.
  induction names as [|n names IH]; cbn [need_build_loop].
  - apply accounted_ret.
  - apply logs_bind; [apply accounted_sequential|apply accounted_path_exists|].
    intros []; cbn [negb]; [apply IH|apply accounted_ret].
Qed.

Lemma accounted_perf_counter : logs (accounted env) (perf_counter env).
Proof using Type.
  intros w. exists [EvClock (clock env w)]. split; [done|].
  apply accounted_quiet. by repeat constructor.
Qed.

Lemma accounted_run_cmd cmd cwd timeout :
  (forall r, gen_failed env (EvRun cmd (path_str cwd) timeout r) = false) ->
  logs (accounted env) (run_cmd env cmd cwd timeout).
Proof using Type.
  intros Hg w.
  destruct (run_cmd_run env cmd cwd timeout w) as (r & fs & -> & Hnt & Hb).
  eexists. split; [reflexivity|]. cbn [fst]. split.
  - intros pre e post Heq He.
    destruct pre as [|x [|y pre]]; try done.
    injection Heq as <- <-. by rewrite Hg in He.
  - destruct r as [code out| |err| |why]; cbn [run_outcome ending_of cause].
    + done.
    + destruct timeout; [done|]. by destruct Hnt.
    + exists cmd, (path_str cwd), timeout. by apply list_elem_of_singleton.
    + rewrite (Hb eq_refl). exists cmd, (path_str cwd).
      by apply list_elem_of_singleton.
    + exists cmd, (path_str cwd), timeout. by apply list_elem_of_singleton.
Qed.

Lemma gen_failed_bin name rest cwd timeout r :
  name <> "input-generator" ->
  gen_failed env (EvRun (bin env name :: rest) cwd timeout r) = false.
Proof using Type.
  intros Hne. destruct r; try done. cbn [gen_failed].
  replace (String.eqb (bin env name) (bin env "input-generator")) with false;
    [done|].
  symmetry. apply String.eqb_neq. intros H. by apply bin_inj in H.
Qed.

Lemma gen_failed_cargo rest cwd timeout r :
  gen_failed env (EvRun ("cargo" :: rest) cwd timeout r) = false.
Proof using Type.
    by destruct r.
Qed.

Lemma accounted_timed_run name cmd rest tag field p timeout label :
  cmd = bin env name :: rest -> name <> "input-generator" ->
  split_on "_" (stem p) !! field = Some label ->
  logs (accounted env) (timed_run env cmd tag field p timeout).
Proof using Type.
  intros -> Hne Hl. unfold timed_run, index. rewrite Hl.
  apply logs_bind; [apply accounted_sequential|apply accounted_perf_counter|].
  intros start.
  apply logs_bind; [apply accounted_sequential| |].
  { apply accounted_run_cmd. intros r. by apply gen_failed_bin. }
  intros [code out].
  apply logs_bind; [apply accounted_sequential|apply accounted_perf_counter|].
  intros stop. repeat accounted_step env.
Qed.

Lemma accounted_generate show_cmd n1 n2 dg dh seed p :
  logs (accounted env) (generate env show_cmd n1 n2 dg dh seed p).
Proof using Type.
  intros w.
  destruct (generate_trace env show_cmd n1 n2 dg dh seed p w)
    as (res & pre0 & post0 & Hlog & Hpre & Hpost & Hnt & Ho).
  cbv zeta in Hlog, Ho. eexists. split; [exact Hlog|].
  assert (Hloud : forall e, gen_failed env e = true -> ~ quiet e).
  { intros e He Hq. apply (quiet_not_gen_failed env) in Hq. congruence. }
  split.
  - intros pre e post Heq He.
    destruct (split_at_loud quiet _ _ _ _ _ _ Heq Hpre Hpost (Hloud e He))
      as (-> & -> & ->).
    split; [|done]. rewrite Ho.
    destruct res as [code out| | | |]; try done.
    unfold generator_cmd in He. cbn [app gen_failed] in He.
    apply andb_true_iff in He as [_ He].
    destruct (code =? 0); [done|]. cbn. eauto.
  - rewrite Ho. destruct res as [code out| |err| |why].
    + destruct (code =? 0) eqn:Hc; cbn [ending_of cause]; [done|].
      eexists. split; [apply elem_of_app; right; by left|].
      unfold generator_cmd. cbn [app gen_failed].
      fold (bin env "input-generator"). by rewrite String.eqb_refl, Hc.
    + by destruct Hnt.
    + cbn [ending_of cause]. do 3 eexists. apply elem_of_app. right. by left.
    + cbn [ending_of cause]. do 2 eexists. apply elem_of_app. right. by left.
    + cbn [ending_of cause]. do 3 eexists. apply elem_of_app. right. by left.
Qed.

Lemma accounted_provide show_cmd n1 n2 dg dh seed :
  logs (accounted env) (provide env show_cmd n1 n2 dg dh seed).
Proof using Type.
  unfold provide.
  apply logs_bind; [apply accounted_sequential|apply accounted_path_exists|].
  intros []; cbn [negb]; [apply accounted_print|].
  apply logs_bind; [apply accounted_sequential|apply accounted_print|].
  intros _. apply accounted_generate.
Qed.

Lemma build_failed_not_gen cmd cwd timeout r :
  cmd = ["cargo"; "build"; "--release"] ->
  gen_failed env (EvRun cmd cwd timeout r) = false.
Proof using Type. intros ->. apply gen_failed_cargo. Qed.

(** [ensure_built] ends with [SystemExit(1)] only after a failed build. *)
Lemma accounted_build_if_missing names :
  logs (accounted env) (build_if_missing env names).
Proof using Type.
  intros w. destruct (all_built env names w) eqn:Hb.
  - rewrite (build_if_missing_built env names w Hb).
    exists []. cbn [fst snd]. rewrite app_nil_r. split; [done|].
    by apply accounted_quiet.
  - destruct (build_if_missing_builds env names w Hb)
      as (r & fs & Hnt & ->).
    eexists. split; [reflexivity|]. cbn [fst]. split.
    + intros pre e post Heq He.
      assert (Hin : e ∈ EvPrint
                "Building release binaries with cargo build --release ..."
                :: cargo_run env r :: (after_build r).2)
        by (rewrite Heq; apply elem_of_app; right; by left).
      apply elem_of_cons in Hin as [->|Hin]; [done|].
      apply elem_of_cons in Hin as [->|Hin];
        [unfold cargo_run in He; by rewrite gen_failed_cargo in He|].
      destruct r as [code out| |err| |why]; cbn [after_build] in Hin.
      * destruct (code =? 0); cbn [snd] in Hin;
          repeat (apply elem_of_cons in Hin as [->|Hin]; [done|]);
          by apply elem_of_nil in Hin.
      * by apply elem_of_nil in Hin.
      * by apply elem_of_nil in Hin.
      * by apply elem_of_nil in Hin.
      * by apply elem_of_nil in Hin.
    + destruct r as [code out| |err| |why]; cbn [after_build fst snd].
      * destruct (code =? 0) eqn:Hc; cbn [fst ending_of cause]; [done|].
        split; [done|]. exists (cargo_run env (Completed code out)).
        split; [right; by left|]. unfold cargo_run. cbn. by rewrite Hc.
      * done.
      * cbn [ending_of cause]. do 3 eexists. right. by left.
      * cbn [ending_of cause]. do 2 eexists. right. by left.
      * cbn [ending_of cause]. do 3 eexists. right. by left.
Qed.

Lemma accounted_ensure_built : logs (accounted env) (RuntimeVsN1.ensure_built env).
Proof using Type. rewrite ensure_built_shape. apply accounted_build_if_missing. Qed.

Lemma accounted_ensure_built2 :
  logs (accounted env) (ApproxVsN2.ensure_built env).
Proof using Type. rewrite ensure_built_shape2. apply accounted_build_if_missing. Qed.
End Accounted.

Section AccountedMain.
Variable env : Env.

Lemma accounted_sweep_step args n1 st :
  logs (accounted env) (RuntimeVsN1.sweep_step env args n1 st).
Proof using Type.
  destruct (instance_label env n1 (RuntimeVsN1.n2 args) 1 ltac:(lia))
    as [l Hl].
  unfold RuntimeVsN1.sweep_step. rewrite provide_instance_shape.
  apply logs_bind; [apply accounted_sequential|apply accounted_provide|].
  intros _. apply logs_bind; [apply accounted_sequential| |].
  - unfold RuntimeVsN1.exact_step. rewrite time_solver_exact_timed.
    destruct (negb (RuntimeVsN1.exact_failed st)).
    + apply logs_bind; [apply accounted_sequential| |intros ?; apply accounted_ret].
      by eapply (accounted_timed_run env "exact-solver").
    + apply logs_bind; [apply accounted_sequential|apply accounted_print|].
      intros _. apply accounted_ret.
  - intros st'. unfold RuntimeVsN1.approx_step.
    rewrite time_solver_approx_timed.
    apply logs_bind; [apply accounted_sequential| |intros ?; apply accounted_ret].
    by eapply (accounted_timed_run env "approx-solver").
Qed.

Lemma accounted_sweep_step2 args n2 ts :
  logs (accounted env) (ApproxVsN2.sweep_step env args n2 ts).
Proof using Type.
  destruct (instance_label env (ApproxVsN2.n1 args) n2 2 ltac:(lia))
    as [l Hl].
  unfold ApproxVsN2.sweep_step.
  rewrite provide_instance_shape2, time_solver_approx_timed2.
  apply logs_bind; [apply accounted_sequential|apply accounted_provide|].
  intros _.
  apply logs_bind; [apply accounted_sequential| |intros ?; apply accounted_ret].
  by eapply (accounted_timed_run env "approx_solver").
Qed.

Lemma accounted_main args :
  RuntimeVsN1.n1_step args <> 0 ->
  logs (accounted env) (RuntimeVsN1.main env args).
Proof using Type.
  intros Hs. unfold RuntimeVsN1.main, py_range.
  destruct (Z.eqb_spec (RuntimeVsN1.n1_step args) 0); [done|].
  apply logs_bind; [apply accounted_sequential|apply accounted_ret|].
  intros n1_values.
  apply logs_bind; [apply accounted_sequential|apply accounted_print|].
  intros _.
  apply logs_bind; [apply accounted_sequential|apply accounted_print|].
  intros _.
  apply logs_bind; [apply accounted_sequential|apply accounted_ensure_built|].
  intros _.
  apply logs_bind; [apply accounted_sequential| |].
  { apply logs_for_each; [apply accounted_sequential|].
    intros. apply accounted_sweep_step. }
  intros st.
  apply logs_bind; [apply accounted_sequential|apply accounted_print|].
  intros _.
  apply logs_bind; [apply accounted_sequential| |].
  { apply logs_for_each; [apply accounted_sequential|].
    intros. apply accounted_print. }
  intros _.
  destruct (plot_runtime_quiet n1_values (RuntimeVsN1.exact_times st)
              (RuntimeVsN1.approx_times st) (RuntimeVsN1.n2 args)
              (RuntimeVsN1.k args) (resolve env (RuntimeVsN1.output args)))
    as (evs & Hy & Hq).
  eapply logs_yields; [exact Hy|]. by apply accounted_no_run.
Qed.

Lemma accounted_main2 args :
  ApproxVsN2.n2_step args <> 0 ->
  logs (accounted env) (ApproxVsN2.main env args).
Proof using Type.
  intros Hs. unfold ApproxVsN2.main, py_range.
  destruct (Z.eqb_spec (ApproxVsN2.n2_step args) 0); [done|].
  apply logs_bind; [apply accounted_sequential|apply accounted_ret|].
  intros n2_values.
  apply logs_bind; [apply accounted_sequential|apply accounted_print|].
  intros _.
  apply logs_bind; [apply accounted_sequential|apply accounted_print|].
  intros _.
  apply logs_bind; [apply accounted_sequential|apply accounted_ensure_built2|].
  intros _.
  apply logs_bind; [apply accounted_sequential| |].
  { apply logs_for_each; [apply accounted_sequential|].
    intros. apply accounted_sweep_step2. }
  intros approx_times.
  apply logs_bind; [apply accounted_sequential|apply accounted_print|].
  intros _.
  apply logs_bind; [apply accounted_sequential| |].
  { apply logs_for_each; [apply accounted_sequential|].
    intros. apply accounted_print. }
  intros _.
  destruct (plot_runtime_quiet2 n2_values approx_times (ApproxVsN2.n1 args)
              (ApproxVsN2.k args) (resolve env (ApproxVsN2.output args))
              (negb (ApproxVsN2.no_log_scale args)))
    as (evs & Hy & Hq).
  eapply logs_yields; [exact Hy|]. by apply accounted_no_run.
Qed.

(** ** No figure unless [main] returns *)

Lemma unsaved_bind {A B} (m : M A) (k : A -> M B) :
  emits (fun e => is_savefig e = false) m ->
  (forall a, logs unsaved (k a)) -> logs unsaved (bind m k).
Proof using Type.
  intros Hm Hk w. destruct (Hm w) as (evs1 & E1 & F1).
  destruct (bind_cases m k w) as [(a & Ha & ->)|(Hs & ->)].
  - destruct (Hk a (m w).2) as (evs2 & E2 & F2).
    exists (evs1 ++ evs2). rewrite E2, E1, app_assoc. split; [done|].
        intros Hne. apply Forall_app. split; [done|by apply F2].
  - exists evs1. cbn [fst snd]. split; [done|]. by intros _.
Qed.

Lemma unsaved_yields {A} (m : M A) a evs : yields m a evs -> logs unsaved m.
Proof using Type.
  intros Hy w. destruct (Hy w) as [Ho Hl]. exists evs. split; [done|].
  rewrite Ho. by intros [].
Qed.

Lemma unsaved_main args : logs unsaved (RuntimeVsN1.main env args).
Proof using Type.
  pose (t := RuntimeVsN1.timeout_seconds args).
  assert (Hw : forall A (m : M A),
            emits (sweep_event env (solver_cmd1 env) t) m ->
            emits (fun e => is_savefig e = false) m).
  { intros A m. apply emits_weaken. intros e. apply sweep_event_not_savefig. }
  unfold RuntimeVsN1.main.
  apply unsaved_bind; [apply emits_py_range|]. intros n1_values.
  apply unsaved_bind; [by apply emits_print|]. intros _.
  apply unsaved_bind; [by apply emits_print|]. intros _.
  apply unsaved_bind; [apply Hw, sweep_event_ensure_built|]. intros _.
  apply unsaved_bind.
  { apply Hw, emits_for_each. intros. apply sweep_event_sweep_step. }
  intros st.
  apply unsaved_bind; [by apply emits_print|]. intros _.
  apply unsaved_bind.
  { apply emits_for_each. intros. by apply emits_print. }
  intros _.
  destruct (plot_runtime_quiet n1_values (RuntimeVsN1.exact_times st)
              (RuntimeVsN1.approx_times st) (RuntimeVsN1.n2 args)
              (RuntimeVsN1.k args) (resolve env (RuntimeVsN1.output args)))
    as (evs & Hy & _).
  by eapply unsaved_yields.
Qed.

Lemma unsaved_main2 args : logs unsaved (ApproxVsN2.main env args).
Proof using Type.
  pose (t := ApproxVsN2.timeout_seconds args).
  assert (Hw : forall A (m : M A),
            emits (sweep_event env (solver_cmd2 env) t) m ->
            emits (fun e => is_savefig e = false) m).
  { intros A m. apply emits_weaken. intros e. apply sweep_event_not_savefig. }
  unfold ApproxVsN2.main.
  apply unsaved_bind; [apply emits_py_range|]. intros n2_values.
  apply unsaved_bind; [by apply emits_print|]. intros _.
  apply unsaved_bind; [by apply emits_print|]. intros _.
  apply unsaved_bind; [apply Hw, sweep_event_ensure_built2|]. intros _.
  apply unsaved_bind.
  { apply Hw, emits_for_each. intros. apply sweep_event_sweep_step2. }
  intros approx_times.
  apply unsaved_bind; [by apply emits_print|]. intros _.
  apply unsaved_bind.
  { apply emits_for_each. intros. by apply emits_print. }
  intros _.
  destruct (plot_runtime_quiet2 n2_values approx_times (ApproxVsN2.n1 args)
              (ApproxVsN2.k args) (resolve env (ApproxVsN2.output args))
              (negb (ApproxVsN2.no_log_scale args)))
    as (evs & Hy & _).
  by eapply unsaved_yields.
Qed.

End AccountedMain.

(* ===================================================================== *)
(** * Two runs in the example world *)
(* ===================================================================== *)

(** The exact solver succeeds for sizes 2 and 3 and times out for size 4:
    it is skipped for size 5, while the approximate solver, which fails
    for size 3, is run for every size. *)
Example scenario_early_stop :
  (RuntimeVsN1.sweep_loop Scenario.env (Scenario.args 2 5) [2; 3; 4; 5]
     Scenario.built).1
  = Ret (RuntimeVsN1.mkLoop
           [Some 2%float; Some 2%float; None; None]
           [Some 2%float; None; Some 2%float; Some 2%float]
           true).
Proof. vm_compute. reflexivity. Qed.

(** The generator fails for size 6: [main] ends with [RuntimeError]. *)
Example scenario_generation_fails :
  (RuntimeVsN1.main Scenario.env (Scenario.args 5 6) Scenario.built).1
  = Raise (RuntimeError
             "Failed to generate instance: /repo/examples/generated_benchmarks/generated_6_25.txt").
Proof. vm_compute. reflexivity. Qed.

(** The script of the [n2] sweep over sizes 10, 15 and 20 returns and
    saves its figure. *)
Example scenario_approx_sweep :
  let r := ApproxVsN2.main Scenario.env (Scenario.args2 10 20) Scenario.built in
  r.1 = Ret tt /\
  List.filter is_savefig (log r.2)
  = [EvPlt (Savefig ["repo"; "approx.png"] 200)].
Proof. vm_compute. split; reflexivity. Qed.

(* ===================================================================== *)
(** * From a file name back to the sizes *)
(* ===================================================================== *)

(** A string that is its own only field holds no separator. *)
Lemma split_on_whole_cons (sep a : ascii) (s : string) :
  split_on sep (String a s) = [String a s] ->
  Ascii.eqb a sep = false /\ split_on sep s = [s].
Proof.
  cbn [split_on]. destruct (Ascii.eqb a sep); [by intros [=]|].
  pose proof (split_on_nonempty sep s) as Hlen.
  destruct (split_on sep s) as [|p ps]; [cbn in Hlen; lia|].
  by intros [= -> ->].
Qed.

Lemma split_on_first (sep : ascii) (s t : string) :
  split_on sep s = [s] ->
  split_on sep (s +:+ String sep t) = s :: split_on sep t.
Proof.
  induction s as [|a s IH]; intros Hs.
  - rewrite append_nil. cbn [split_on]. by rewrite Ascii.eqb_refl.
  - apply split_on_whole_cons in Hs as [Ha Hs].
    rewrite append_cons. cbn [split_on]. by rewrite Ha, (IH Hs).
Qed.

Lemma split_on_whole_app (sep : ascii) (s t : string) :
  split_on sep s = [s] -> split_on sep t = [t] ->
  split_on sep (s +:+ t) = [s +:+ t].
Proof.
  induction s as [|a s IH]; intros Hs Ht; [by rewrite append_nil|].
  apply split_on_whole_cons in Hs as [Ha Hs].
  rewrite append_cons. cbn [split_on]. by rewrite Ha, (IH Hs Ht).
Qed.

(** Decimal digits are no underscores. *)
Lemma split_on_uint (d : Decimal.uint) :
  split_on "_" (DecimalString.NilEmpty.string_of_uint d)
  = [DecimalString.NilEmpty.string_of_uint d].
Proof.
  induction d as [|d IH|d IH|d IH|d IH|d IH|d IH|d IH|d IH|d IH|d IH];
    [reflexivity|..];
    cbn [DecimalString.NilEmpty.string_of_uint split_on];
    rewrite IH; reflexivity.
Qed.

Lemma split_on_str_int (z : Z) : split_on "_" (str_int z) = [str_int z].
Proof.
  unfold str_int, DecimalString.NilZero.string_of_int.
  assert (H : forall d,
            split_on "_" (DecimalString.NilZero.string_of_uint d)
            = [DecimalString.NilZero.string_of_uint d]).
  { intros d. destruct d; [reflexivity|..]; apply split_on_uint. }
  destruct (Z.to_int z) as [d|d]; [apply H|].
  cbn [split_on]. rewrite H. reflexivity.
Qed.

(** [str] of an integer can be read back. *)
Lemma str_int_inj (a b : Z) : str_int a = str_int b -> a = b.
Proof.
  unfold str_int. intros H.
  assert (Hn : forall z, Z.to_int z <> Decimal.Pos Decimal.Nil /\
                         Z.to_int z <> Decimal.Neg Decimal.Nil).
  { intros [|p|p]; cbn; split; try discriminate;
      intros [= E]; by apply (DecimalPos.Unsigned.to_uint_nonnil p). }
  apply (f_equal DecimalString.NilZero.int_of_string) in H.
  rewrite !DecimalString.NilZero.isi in H by apply Hn.
  injection H as H.
  rewrite <- (DecimalZ.of_to a), <- (DecimalZ.of_to b). by rewrite H.
Qed.

Lemma split_stem_instance_path (env : Env) (n1 n2 : Z) :
  split_on "_" (stem (instance_path env n1 n2))
  = ["generated"; str_int n1; str_int n2].
Proof.
  rewrite stem_instance_path.
  change ("generated_" +:+ str_int n1 +:+ "_" +:+ str_int n2)
    with ("generated" +:+ String "_" (str_int n1 +:+ String "_" (str_int n2))).
  rewrite split_on_first by reflexivity.
  rewrite split_on_first by apply split_on_str_int.
  by rewrite split_on_str_int.
Qed.

Lemma instance_path_inj (env : Env) (a b a' b' : Z) :
  instance_path env a b = instance_path env a' b' -> a = a' /\ b = b'.
Proof.
  intros H. apply (f_equal (fun p => split_on "_" (stem p))) in H.
  rewrite !split_stem_instance_path in H.
  injection H as Ha Hb. split; by apply str_int_inj.
Qed.

Lemma range_items_NoDup (start stop step : Z) :
  step <> 0 -> NoDup (range_items start stop step).
Proof.
  intros Hs. unfold range_items. apply NoDup_fmap_2; [|apply NoDup_seqZ].
  intros i j Hij. nia.
Qed.

(** The events of one timed run that returns. *)
Lemma timed_run_events env cmd tag field p timeout w label code out w1 :
  split_on "_" (stem p) !! field = Some label ->
  run_cmd env cmd (PROJECT_ROOT env) (Some timeout) (perf_counter env w).2
    = (Ret (code, out), w1) ->
  let elapsed := PrimFloat.sub (clock env w1) (clock env w) in
  exists res,
    new_events w (timed_run env cmd tag field p timeout w).2
    = [EvClock (clock env w);
       EvRun cmd (path_str (PROJECT_ROOT env)) (Some timeout) res;
       EvClock (clock env w1);
       EvPrint (tag +:+ label +:+ ", exit=" +:+ str_int code
                  +:+ ", time=" +:+ fmt_6f env elapsed +:+ "s")]
      ++ (if code =? 0 then [] else [EvPrint out]).
Proof.
  intros Hl Hrun elapsed.
  rewrite (timed_run_after env cmd tag field p timeout w label _ _ Hl Hrun).
  cbv zeta. fold elapsed. cbn [snd log].
  destruct (run_cmd_run env cmd (PROJECT_ROOT env) (Some timeout)
              (perf_counter env w).2) as (res & fs & E & _).
  rewrite Hrun in E. injection E as _ ->. exists res.
  apply new_events_app. cbn [log]. by rewrite <- !app_assoc.
Qed.

(** X1.  The name of an instance file can be taken apart again: split at
    the underscores, the stem of [generated_{n1}_{n2}.txt] has exactly the
    three fields [generated], [str(n1)] and [str(n2)], whatever the sizes
    (a minus sign is no underscore); so the subscripts [1] and [2] the
    solver functions use are in range and give the two sizes. *)
Theorem instance_name_round_trip (env : Env) (n1 n2 : Z) :
  let fields := split_on "_" (stem (instance_path env n1 n2)) in
  fields = ["generated"; str_int n1; str_int n2] /\
  (forall w, index fields 1 w = (Ret (str_int n1), w)) /\
  (forall w, index fields 2 w = (Ret (str_int n2), w)) /\
  (forall w, index fields 3 w
             = (Raise (IndexError "list index out of range"), w)).
Proof.
  intros fields. subst fields. rewrite split_stem_instance_path.
  by repeat split.
Qed.

(** X2.  The line a solver function logs for an instance file of [main]
    shows the size that is swept: [n1], field 1 of the file name, in the
    script of the [n1] sweep, and [n2], field 2, in the script of the
    [n2] sweep; then the status [run_cmd] returned and the elapsed time
    with six decimals.  The events of a call that gets a status are the
    two clock readings around the run, this line and, for a non-zero
    status, the output. *)
Theorem solver_log_line (env : Env) (n1 n2 k tm timeout : Z) (w : World) :
  let p := instance_path env n1 n2 in
  let root := path_str (PROJECT_ROOT env) in
  let trace cmd tag size code out w1 res :=
    [EvClock (clock env w);
     EvRun cmd root (Some timeout) res;
     EvClock (clock env w1);
     EvPrint (tag +:+ str_int size +:+ ", exit=" +:+ str_int code
                +:+ ", time="
                +:+ fmt_6f env (PrimFloat.sub (clock env w1) (clock env w))
                +:+ "s")]
    ++ (if code =? 0 then [] else [EvPrint out]) in
  (forall code out w1,
     run_cmd env (RuntimeVsN1.exact_cmd env p k) (PROJECT_ROOT env)
       (Some timeout) (perf_counter env w).2 = (Ret (code, out), w1) ->
     exists res,
       new_events w (RuntimeVsN1.time_solver_exact env p k timeout w).2
       = trace (RuntimeVsN1.exact_cmd env p k) "[exact] n1=" n1 code out w1
           res) /\
  (forall code out w1,
     run_cmd env (RuntimeVsN1.approx_cmd env p k tm) (PROJECT_ROOT env)
       (Some timeout) (perf_counter env w).2 = (Ret (code, out), w1) ->
     exists res,
       new_events w (RuntimeVsN1.time_solver_approx env p k tm timeout w).2
       = trace (RuntimeVsN1.approx_cmd env p k tm) "[approx] n1=" n1 code out
           w1 res) /\
  (forall code out w1,
     run_cmd env (ApproxVsN2.approx_cmd env p k tm) (PROJECT_ROOT env)
       (Some timeout) (perf_counter env w).2 = (Ret (code, out), w1) ->
     exists res,
       new_events w (ApproxVsN2.time_solver_approx env p k tm timeout w).2
       = trace (ApproxVsN2.approx_cmd env p k tm) "[approx] n2=" n2 code out
           w1 res).
Proof.
  intros p root trace.
  assert (H1 : split_on "_" (stem p) !! 1%nat = Some (str_int n1))
    by (subst p; by rewrite split_stem_instance_path).
  assert (H2 : split_on "_" (stem p) !! 2%nat = Some (str_int n2))
    by (subst p; by rewrite split_stem_instance_path).
  split; [|split]; intros code out w1 Hrun.
  - rewrite time_solver_exact_timed.
    exact (timed_run_events env _ _ _ _ _ _ _ _ _ _ H1 Hrun).
  - rewrite time_solver_approx_timed.
    exact (timed_run_events env _ _ _ _ _ _ _ _ _ _ H1 Hrun).
  - rewrite time_solver_approx_timed2.
    exact (timed_run_events env _ _ _ _ _ _ _ _ _ _ H2 Hrun).
Qed.

Lemma solver_log_line_witness :
  EvPrint "[exact] n1=2, exit=0, time=0.000000s"
  ∈ new_events Scenario.built
      (RuntimeVsN1.time_solver_exact Scenario.env
         (instance_path Scenario.env 2 25) 2 30 Scenario.built).2.
Proof.
  destruct (solver_log_line Scenario.env 2 25 2 10 30 Scenario.built)
    as [H _].
  cbv zeta in H.
  destruct (run_cmd Scenario.env
              (RuntimeVsN1.exact_cmd Scenario.env
                 (instance_path Scenario.env 2 25) 2)
              (PROJECT_ROOT Scenario.env) (Some 30)
              (perf_counter Scenario.env Scenario.built).2)
    as [o w1] eqn:E.
  assert (Ho : o = Ret (0, "found")).
  { change o with (o, w1).1. rewrite <- E. vm_compute. reflexivity. }
  subst o. destruct (H 0 "found" w1 eq_refl) as [res Hres].
  rewrite Hres. by apply list_elem_of_lookup_2 with 3%nat.
Defined.

(** X3.  The sizes can be read off the path of an instance file, so two
    sweep points never share a file: [instance_path] is injective in both
    sizes, and the instance files of the points of a sweep (any step but
    zero, any fixed other size) are pairwise different. *)
Theorem distinct_points_distinct_files (env : Env) :
  (forall a b a' b',
     instance_path env a b = instance_path env a' b' -> a = a' /\ b = b') /\
  (forall start end_ step n2,
     step <> 0 ->
     NoDup ((fun n1 => instance_path env n1 n2) <$> sweep start end_ step)) /\
  (forall start end_ step n1,
     step <> 0 ->
     NoDup ((fun n2 => instance_path env n1 n2) <$> sweep start end_ step)).
Proof.
  split; [apply instance_path_inj|].
  split; intros start end_ step n Hs.
  - apply NoDup_fmap_2; [|by apply range_items_NoDup].
    intros a b H. by apply instance_path_inj in H as [? _].
  - apply NoDup_fmap_2; [|by apply range_items_NoDup].
    intros a b H. by apply instance_path_inj in H as [_ ?].
Qed.

Lemma distinct_points_distinct_files_witness :
  NoDup ((fun n1 => instance_path Scenario.env n1 25) <$> sweep 12 2 (-3)) /\
  NoDup ((fun n2 => instance_path Scenario.env 8 n2) <$> sweep 10 50 5).
Proof.
  destruct (distinct_points_distinct_files Scenario.env) as (_ & Hn1 & Hn2).
  split; [apply Hn1; lia|apply Hn2; lia].
Defined.

(* ===================================================================== *)
(** * Sweeps that are not the usual ones *)
(* ===================================================================== *)

(** X4.  With a negative step the sweep counts down from the start and
    stops above [end + 1]: it is empty unless [start > end + 1], its items
    are [start + i * step], strictly decreasing, and all larger than
    [end + 1].  So the end of the sweep is inclusive for positive steps
    only: counting down, neither [end] nor [end + 1] is swept. *)
Theorem sweep_negative_step (start end_ step : Z) :
  step < 0 ->
  let xs := sweep start end_ step in
  (xs = [] <-> start <= end_ + 1) /\
  (end_ + 1 < start -> head xs = Some start) /\
  (forall i x, xs !! i = Some x ->
     x = start + Z.of_nat i * step /\ end_ + 1 < x <= start) /\
  (forall i j x y,
     xs !! i = Some x -> xs !! j = Some y -> (i < j)%nat -> y < x).
Proof.
  intros Hs xs.
  assert (Hlen : range_length start (end_ + 1) step
                 = if end_ + 1 <? start
                   then (start - (end_ + 1) - 1) / (- step) + 1 else 0).
  { unfold range_length. by destruct (Z.ltb_spec 0 step); [lia|]. }
  assert (Hlook : forall i x, xs !! i = Some x ->
            x = start + Z.of_nat i * step /\ end_ + 1 < x <= start).
  { intros i x Hi. apply sweep_lookup in Hi as [-> Hi]. split; [done|].
    rewrite Hlen in Hi. destruct (Z.ltb_spec (end_ + 1) start) as [Hlt|]; [|lia].
    pose proof (Z.mul_div_le (start - (end_ + 1) - 1) (- step) ltac:(lia)).
    nia. }
  split; [|split; [|split; [exact Hlook|]]].
  - subst xs. unfold sweep, range_items. rewrite Hlen. split.
    + intros H. apply (f_equal length) in H.
      rewrite length_fmap, length_seqZ in H. cbn [length] in H.
      destruct (Z.ltb_spec (end_ + 1) start) as [Hlt|]; [|lia].
      pose proof (Z.div_pos (start - (end_ + 1) - 1) (- step)
                    ltac:(lia) ltac:(lia)).
      lia.
    + intros Hle. destruct (Z.ltb_spec (end_ + 1) start); [lia|].
      by rewrite seqZ_nil.
  - intros Hlt. subst xs. unfold sweep, range_items. rewrite Hlen.
    destruct (Z.ltb_spec (end_ + 1) start); [|lia].
    pose proof (Z.div_pos (start - (end_ + 1) - 1) (- step)
                  ltac:(lia) ltac:(lia)).
    rewrite seqZ_cons by lia. cbn. f_equal. lia.
  - intros i j x y [-> _]%Hlook [-> _]%Hlook Hij. nia.
Qed.

Lemma sweep_negative_step_witness :
  sweep 5 2 (-1) = [5; 4] /\
  (forall i x, sweep 5 2 (-1) !! i = Some x -> 3 < x <= 5).
Proof.
  split; [reflexivity|].
  intros i x Hi.
  destruct (sweep_negative_step 5 2 (-1) ltac:(lia)) as (_ & _ & H & _).
  destruct (H i x Hi) as [_ Hx]. lia.
Defined.

(** X5.  A zero step is not caught by the scripts: in both, [main] ends
    with the [ValueError] of [range] before it has printed, built or run
    anything, so the interpreter exits with status 1 and the world is as
    it was. *)
Theorem zero_step_is_a_value_error (env : Env) :
  (forall (args : RuntimeVsN1.Args) w,
     RuntimeVsN1.n1_step args = 0 ->
     RuntimeVsN1.main env args w
     = (Raise (ValueError "range() arg 3 must not be zero"), w)) /\
  (forall (args : ApproxVsN2.Args) w,
     ApproxVsN2.n2_step args = 0 ->
     ApproxVsN2.main env args w
     = (Raise (ValueError "range() arg 3 must not be zero"), w)).
Proof.
  split; intros args w Hs.
  - unfold RuntimeVsN1.main, py_range. rewrite Hs. reflexivity.
  - unfold ApproxVsN2.main, py_range. rewrite Hs. reflexivity.
Qed.

Lemma zero_step_is_a_value_error_witness :
  let args := RuntimeVsN1.mkArgs 25 2 2 9 0 0.375%float 0.25%float 12345 10
                60 "runtime.png" in
  exit_status (RuntimeVsN1.main Scenario.env args Unbuilt.world).1 = Some 1 /\
  (RuntimeVsN1.main Scenario.env args Unbuilt.world).2 = Unbuilt.world.
Proof.
  intros args.
  destruct (zero_step_is_a_value_error Scenario.env) as [H _].
  rewrite (H args Unbuilt.world eq_refl). by split.
Defined.

(* ===================================================================== *)
(** * A file name without the field a solver function asks for *)
(* ===================================================================== *)

Lemma timed_run_no_label env cmd tag field p timeout w code out w1 :
  split_on "_" (stem p) !! field = None ->
  run_cmd env cmd (PROJECT_ROOT env) (Some timeout) (perf_counter env w).2
    = (Ret (code, out), w1) ->
  timed_run env cmd tag field p timeout w
  = (Raise (IndexError "list index out of range"),
     mkWorld (files w1) (log w1 ++ [EvClock (clock env w1)])).
Proof.
  intros Hl Hrun. unfold timed_run.
  bind_ret reflexivity.
  bind_ret ltac:(exact Hrun).
  bind_ret reflexivity.
  unfold index. rewrite Hl. reflexivity.
Qed.

(** X6.  The solver functions take their label from the file name after
    the solver has run.  On a path whose stem has too few fields between
    underscores (field 1 in the script of the [n1] sweep, field 2 in the
    other), a call whose [run_cmd] returned a status ends with
    [IndexError]: the solver was run and the clock read twice, but no
    line is printed and the timing is lost. *)
Theorem label_missing_loses_the_run (env : Env) (p : Path)
    (k tm timeout : Z) (w : World) :
  let lost (w1 : World) : outcome (option float) * World :=
    (Raise (IndexError "list index out of range"),
     mkWorld (files w1) (log w1 ++ [EvClock (clock env w1)])) in
  (split_on "_" (stem p) !! 1%nat = None ->
   (forall code out w1,
      run_cmd env (RuntimeVsN1.exact_cmd env p k) (PROJECT_ROOT env)
        (Some timeout) (perf_counter env w).2 = (Ret (code, out), w1) ->
      RuntimeVsN1.time_solver_exact env p k timeout w = lost w1) /\
   (forall code out w1,
      run_cmd env (RuntimeVsN1.approx_cmd env p k tm) (PROJECT_ROOT env)
        (Some timeout) (perf_counter env w).2 = (Ret (code, out), w1) ->
      RuntimeVsN1.time_solver_approx env p k tm timeout w = lost w1)) /\
  (split_on "_" (stem p) !! 2%nat = None ->
   forall code out w1,
     run_cmd env (ApproxVsN2.approx_cmd env p k tm) (PROJECT_ROOT env)
       (Some timeout) (perf_counter env w).2 = (Ret (code, out), w1) ->
     ApproxVsN2.time_solver_approx env p k tm timeout w = lost w1).
Proof.
  intros lost. split; [intros Hl; split|intros Hl]; intros code out w1 Hrun.
  - rewrite time_solver_exact_timed. by eapply timed_run_no_label.
  - rewrite time_solver_approx_timed. by eapply timed_run_no_label.
  - rewrite time_solver_approx_timed2. by eapply timed_run_no_label.
Qed.

Lemma label_missing_loses_the_run_witness :
  (RuntimeVsN1.time_solver_exact Scenario.env ["repo"; "instance.txt"] 2 30
     Scenario.built).1
  = Raise (IndexError "list index out of range") /\
  (ApproxVsN2.time_solver_approx Scenario.env ["repo"; "generated_5.txt"] 3
     10 60 Scenario.built).1
  = Raise (IndexError "list index out of range").
Proof.
  split.
  - destruct (label_missing_loses_the_run Scenario.env
                ["repo"; "instance.txt"] 2 10 30 Scenario.built) as [H _].
    destruct (H eq_refl) as [H1 _].
    destruct (run_cmd Scenario.env
                (RuntimeVsN1.exact_cmd Scenario.env ["repo"; "instance.txt"] 2)
                (PROJECT_ROOT Scenario.env) (Some 30)
                (perf_counter Scenario.env Scenario.built).2)
      as [o w1] eqn:E.
    assert (Ho : exists code out, o = Ret (code, out)).
    { change o with (o, w1).1. rewrite <- E. vm_compute. by do 2 eexists. }
    destruct Ho as (code & out & ->).
    by rewrite (H1 code out w1 eq_refl).
  - destruct (label_missing_loses_the_run Scenario.env
                ["repo"; "generated_5.txt"] 3 10 60 Scenario.built) as [_ H].
    specialize (H eq_refl).
    destruct (run_cmd Scenario.env
                (ApproxVsN2.approx_cmd Scenario.env
                   ["repo"; "generated_5.txt"] 3 10)
                (PROJECT_ROOT Scenario.env) (Some 60)
                (perf_counter Scenario.env Scenario.built).2)
      as [o w1] eqn:E.
    assert (Ho : exists code out, o = Ret (code, out)).
    { change o with (o, w1).1. rewrite <- E. vm_compute. by do 2 eexists. }
    destruct Ho as (code & out & ->).
    by rewrite (H code out w1 eq_refl).
Defined.

(* ===================================================================== *)
(** * Building the binaries *)
(* ===================================================================== *)

(** X7.  [ensure_built] of either script does nothing at all when its
    binaries are in [BIN_DIR] (three names in the script of the [n1]
    sweep, two in the other, where the approximate solver is spelled
    [approx_solver]).  When one is missing it announces the build and
    runs [cargo build --release] once, from the project root and without
    a timeout, and prints the output; a non-zero status ends it with
    [SystemExit(1)] after one more line, a zero status makes it return
    without looking for the binaries again. *)
Theorem ensure_built_behaviour (env : Env) (w : World) :
  let names1 := ["exact-solver"; "approx-solver"; "input-generator"] in
  let names2 := ["approx_solver"; "input-generator"] in
  let built (r : proc_result) (fs : gset Path) :=
    ((after_build r).1,
     mkWorld fs
       (log w
        ++ EvPrint "Building release binaries with cargo build --release ..."
        :: cargo_run env r :: (after_build r).2)) in
  (all_built env names1 w = true ->
   RuntimeVsN1.ensure_built env w = (Ret tt, w)) /\
  (all_built env names1 w = false ->
   exists r fs, r <> TimedOut /\ RuntimeVsN1.ensure_built env w = built r fs) /\
  (all_built env names2 w = true ->
   ApproxVsN2.ensure_built env w = (Ret tt, w)) /\
  (all_built env names2 w = false ->
   exists r fs, r <> TimedOut /\ ApproxVsN2.ensure_built env w = built r fs).
Proof.
  intros names1 names2 built.
  rewrite ensure_built_shape, ensure_built_shape2.
  split; [apply build_if_missing_built|].
  split; [apply build_if_missing_builds|].
  split; [apply build_if_missing_built|apply build_if_missing_builds].
Qed.

Lemma ensure_built_behaviour_witness :
  RuntimeVsN1.ensure_built Scenario.env Scenario.built
  = (Ret tt, Scenario.built) /\
  exists r fs,
    r <> TimedOut /\
    ApproxVsN2.ensure_built (Unbuilt.env 101) Unbuilt.world
    = ((after_build r).1,
       mkWorld fs
         (log Unbuilt.world
          ++ EvPrint "Building release binaries with cargo build --release ..."
          :: cargo_run (Unbuilt.env 101) r :: (after_build r).2)).
Proof.
  split.
  - apply (ensure_built_behaviour Scenario.env Scenario.built).
    vm_compute. reflexivity.
  - apply (ensure_built_behaviour (Unbuilt.env 101) Unbuilt.world).
    vm_compute. reflexivity.
Defined.

(* ===================================================================== *)
(** * The figure *)
(* ===================================================================== *)

(** [plot_runtime] saves the figure once, and the file is there
    afterwards. *)
Lemma plot_runtime_saves n1_values exact_times approx_times n2 k output_path w :
  let r := RuntimeVsN1.plot_runtime n1_values exact_times approx_times n2 k
             output_path w in
  r.1 = Ret tt /\
  savefigs (new_events w r.2) = [EvPlt (Savefig output_path 200)] /\
  output_path ∈ files r.2.
Proof.
  intros r.
  assert (exists evs,
    yields (RuntimeVsN1.plot_runtime n1_values exact_times approx_times n2 k
              output_path) tt evs /\
    savefigs evs = [EvPlt (Savefig output_path 200)]) as (evs & Hy & Hs).
  { unfold RuntimeVsN1.plot_runtime.
    destruct (mask_vals n1_values exact_times) as [[|x1 x_exact] y_exact];
      destruct (mask_vals n1_values approx_times) as [[|x2 x_approx] y_approx];
      cbv beta iota zeta;
      (eexists; split; [repeat yields_step|reflexivity]). }
  destruct (yields_new_events _ _ _ w Hy) as [H1 H2].
  split; [done|]. split; [subst r; by rewrite H2|].
  subst r. unfold RuntimeVsN1.plot_runtime.
  destruct (mask_vals n1_values exact_times) as [[|x1 x_exact] y_exact];
    destruct (mask_vals n1_values approx_times) as [[|x2 x_approx] y_approx];
    cbv beta iota zeta delta [bind plt print emit ret mkdir_parents snd files];
    set_solver.
Qed.

Lemma plot_runtime_saves2 n2_values approx_times n1 k output_path log_scale w :
  let r := ApproxVsN2.plot_runtime n2_values approx_times n1 k output_path
             log_scale w in
  r.1 = Ret tt /\
  savefigs (new_events w r.2) = [EvPlt (Savefig output_path 200)] /\
  output_path ∈ files r.2.
Proof.
  intros r.
  assert (exists evs,
    yields (ApproxVsN2.plot_runtime n2_values approx_times n1 k output_path
              log_scale) tt evs /\
    savefigs evs = [EvPlt (Savefig output_path 200)]) as (evs & Hy & Hs).
  { unfold ApproxVsN2.plot_runtime.
    destruct (mask_vals n2_values approx_times) as [[|x1 xs] ys];
      destruct log_scale; cbv beta iota zeta;
      (eexists; split; [repeat yields_step|reflexivity]). }
  destruct (yields_new_events _ _ _ w Hy) as [H1 H2].
  split; [done|]. split; [subst r; by rewrite H2|].
  subst r. unfold ApproxVsN2.plot_runtime.
  destruct (mask_vals n2_values approx_times) as [[|x1 xs] ys];
    destruct log_scale;
    cbv beta iota zeta delta [bind plt print emit ret mkdir_parents snd files];
    set_solver.
Qed.

Lemma savefigs_none (evs : list event) :
  Forall (fun e => is_savefig e = false) evs -> savefigs evs = [].
Proof.
  induction 1 as [|e evs He _ IH]; [done|].
  unfold savefigs in *. cbn [List.filter]. by rewrite He.
Qed.

Lemma savefigs_app (evs1 evs2 : list event) :
  savefigs (evs1 ++ evs2) = savefigs evs1 ++ savefigs evs2.
Proof. apply List.filter_app. Qed.

(** A [bind] that returns: its first part returned, and logged what it
    may log. *)
Lemma bind_Ret_front {A B} P (m : M A) (k : A -> M B) w b w2 :
  emits P m -> bind m k w = (Ret b, w2) ->
  exists a w1 evs,
    log w1 = log w ++ evs /\ Forall P evs /\ k a w1 = (Ret b, w2).
Proof.
  intros Hm H. apply bind_Ret_inv in H as (a & w1 & Hmw & Hk).
  destruct (emits_log _ _ _ _ _ Hm Hmw) as (evs & Hl & HP).
  by exists a, w1, evs.
Qed.

Section MainReturns.
Variable env : Env.

(** A [main] that returns got as far as [plot_runtime], saving no figure
    on the way. *)
Lemma main_Ret args w w' :
  RuntimeVsN1.main env args w = (Ret tt, w') ->
  exists xs st w1 evs,
    log w1 = log w ++ evs /\
    Forall (fun e => is_savefig e = false) evs /\
    RuntimeVsN1.plot_runtime xs (RuntimeVsN1.exact_times st)
      (RuntimeVsN1.approx_times st) (RuntimeVsN1.n2 args) (RuntimeVsN1.k args)
      (resolve env (RuntimeVsN1.output args)) w1 = (Ret tt, w').
Proof using Type.
  pose (t := RuntimeVsN1.timeout_seconds args).
  assert (Hw : forall A (m : M A),
            emits (sweep_event env (solver_cmd1 env) t) m ->
            emits (fun e => is_savefig e = false) m).
  { intros A m. apply emits_weaken. intros e. apply sweep_event_not_savefig. }
  unfold RuntimeVsN1.main. intros H.
  eapply (bind_Ret_front (fun e => is_savefig e = false)) in H as (xs & w1 & e1 & L1 & F1 & H);
    [|apply emits_py_range].
  eapply (bind_Ret_front (fun e => is_savefig e = false)) in H as ([] & w2 & e2 & L2 & F2 & H);
    [|by apply emits_print].
  eapply (bind_Ret_front (fun e => is_savefig e = false)) in H as ([] & w3 & e3 & L3 & F3 & H);
    [|by apply emits_print].
  eapply (bind_Ret_front (fun e => is_savefig e = false)) in H as ([] & w4 & e4 & L4 & F4 & H);
    [|apply Hw, sweep_event_ensure_built].
  eapply (bind_Ret_front (fun e => is_savefig e = false)) in H as (st & w5 & e5 & L5 & F5 & H);
    [|apply Hw, emits_for_each; intros; apply sweep_event_sweep_step].
  eapply (bind_Ret_front (fun e => is_savefig e = false)) in H as ([] & w6 & e6 & L6 & F6 & H);
    [|by apply emits_print].
  eapply (bind_Ret_front (fun e => is_savefig e = false)) in H as ([] & w7 & e7 & L7 & F7 & H);
    [|apply emits_for_each; intros; by apply emits_print].
  exists xs, st, w7, (e1 ++ e2 ++ e3 ++ e4 ++ e5 ++ e6 ++ e7).
  split; [by rewrite L7, L6, L5, L4, L3, L2, L1, <- !app_assoc|].
  split; [by rewrite !Forall_app|exact H].
Qed.

Lemma main_Ret2 args w w' :
  ApproxVsN2.main env args w = (Ret tt, w') ->
  exists xs ts w1 evs,
    log w1 = log w ++ evs /\
    Forall (fun e => is_savefig e = false) evs /\
    ApproxVsN2.plot_runtime xs ts (ApproxVsN2.n1 args) (ApproxVsN2.k args)
      (resolve env (ApproxVsN2.output args))
      (negb (ApproxVsN2.no_log_scale args)) w1 = (Ret tt, w').
Proof using Type.
  pose (t := ApproxVsN2.timeout_seconds args).
  assert (Hw : forall A (m : M A),
            emits (sweep_event env (solver_cmd2 env) t) m ->
            emits (fun e => is_savefig e = false) m).
  { intros A m. apply emits_weaken. intros e. apply sweep_event_not_savefig. }
  unfold ApproxVsN2.main. intros H.
  eapply (bind_Ret_front (fun e => is_savefig e = false)) in H as (xs & w1 & e1 & L1 & F1 & H);
    [|apply emits_py_range].
  eapply (bind_Ret_front (fun e => is_savefig e = false)) in H as ([] & w2 & e2 & L2 & F2 & H);
    [|by apply emits_print].
  eapply (bind_Ret_front (fun e => is_savefig e = false)) in H as ([] & w3 & e3 & L3 & F3 & H);
    [|by apply emits_print].
  eapply (bind_Ret_front (fun e => is_savefig e = false)) in H as ([] & w4 & e4 & L4 & F4 & H);
    [|apply Hw, sweep_event_ensure_built2].
  eapply (bind_Ret_front (fun e => is_savefig e = false)) in H as (ts & w5 & e5 & L5 & F5 & H);
    [|apply Hw, emits_for_each; intros; apply sweep_event_sweep_step2].
  eapply (bind_Ret_front (fun e => is_savefig e = false)) in H as ([] & w6 & e6 & L6 & F6 & H);
    [|by apply emits_print].
  eapply (bind_Ret_front (fun e => is_savefig e = false)) in H as ([] & w7 & e7 & L7 & F7 & H);
    [|apply emits_for_each; intros; by apply emits_print].
  exists xs, ts, w7, (e1 ++ e2 ++ e3 ++ e4 ++ e5 ++ e6 ++ e7).
  split; [by rewrite L7, L6, L5, L4, L3, L2, L1, <- !app_assoc|].
  split; [by rewrite !Forall_app|exact H].
Qed.


End MainReturns.


(* ===================================================================== *)
(** * [main] when the build fails, and when there is nothing to sweep *)
(* ===================================================================== *)

Section MainEdges.
Variable env : Env.

Lemma py_range_Ret start stop step w :
  step <> 0 ->
  py_range start stop step w = (Ret (range_items start stop step), w).
Proof using Type.
  intros Hs. unfold py_range. by destruct (Z.eqb_spec step 0).
Qed.

Lemma Forall_any (evs : list event) : Forall (fun _ => True) evs.
Proof using Type. by apply Forall_forall. Qed.

Lemma failed_build_main args w :
  RuntimeVsN1.n1_step args <> 0 ->
  all_built env ["exact-solver"; "approx-solver"; "input-generator"] w
    = false ->
  exists r fs,
    r <> TimedOut /\
    let head :=
      [EvPrint ("Project root: " +:+ path_str (PROJECT_ROOT env));
       EvPrint ("Using fixed n2 (|VH|): " +:+ str_int (RuntimeVsN1.n2 args)
                  +:+ ", varying n1 (|VG|): "
                  +:+ str_int_list (sweep (RuntimeVsN1.n1_start args)
                                      (RuntimeVsN1.n1_end args)
                                      (RuntimeVsN1.n1_step args))
                  +:+ ", k: " +:+ str_int (RuntimeVsN1.k args));
       EvPrint "Building release binaries with cargo build --release ...";
       cargo_run env r] in
    (exists post,
       new_events w (RuntimeVsN1.main env args w).2 = head ++ post) /\
    match (after_build r).1 with
    | Ret _ => True
    | o => RuntimeVsN1.main env args w
           = (o, mkWorld fs (log w ++ head ++ (after_build r).2))
    end.
Proof using Type.
  intros Hs Hb.
  destruct (RuntimeVsN1.main env args w) as [o w'] eqn:E.
  unfold RuntimeVsN1.main in E.
  erewrite bind_Ret in E by (by apply py_range_Ret). cbv beta iota in E.
  erewrite bind_Ret in E by reflexivity. cbv beta iota in E.
  erewrite bind_Ret in E by reflexivity. cbv beta iota in E.
  rewrite ensure_built_shape in E.
  lazymatch type of E with
  | bind _ ?k ?W = _ =>
      set (K := k) in E;
      destruct (build_if_missing_builds env
                  ["exact-solver"; "approx-solver"; "input-generator"] W Hb)
        as (r & fs & Hnt & Hbuild)
  end.
  assert (HK : emits (fun _ => True) (K tt)).
  { subst K. cbv beta. unfold RuntimeVsN1.sweep_loop.
    apply emits_bind; [apply emits_for_each; intros; apply sweep_step_log|].
    intros st. apply emits_bind; [by apply emits_print|]. intros _.
    apply emits_bind; [apply emits_for_each; intros; by apply emits_print|].
    intros _.
    destruct (plot_runtime_quiet
                (range_items (RuntimeVsN1.n1_start args)
                   (RuntimeVsN1.n1_end args + 1) (RuntimeVsN1.n1_step args))
                (RuntimeVsN1.exact_times st)
                (RuntimeVsN1.approx_times st) (RuntimeVsN1.n2 args)
                (RuntimeVsN1.k args) (resolve env (RuntimeVsN1.output args)))
      as (evs & Hy & _).
    eapply emits_yields; [exact Hy|apply Forall_any]. }
  exists r, fs. split; [done|]. cbv zeta. cbn [snd].
  destruct (after_build r) as [[[]|x|] tail] eqn:Ea; cbn [fst snd] in *.
  - rewrite (bind_Ret _ _ _ _ _ Hbuild) in E.
    destruct (emits_log _ _ _ _ _ HK E) as (evs & Hl & _).
    split; [|done]. exists (tail ++ evs). apply new_events_app.
    rewrite Hl. cbn [log]. rewrite ?log_print. unfold sweep.
    by rewrite <- !app_assoc.
  - rewrite (bind_Raise _ _ _ _ _ Hbuild) in E. injection E as <- <-.
    cbn [log]. rewrite ?log_print. unfold sweep. split.
    + exists tail. apply new_events_app. cbn [log]. by rewrite <- !app_assoc.
    + by rewrite <- !app_assoc.
  - rewrite (bind_Diverge _ _ _ _ Hbuild) in E. injection E as <- <-.
    cbn [log]. rewrite ?log_print. unfold sweep. split.
    + exists tail. apply new_events_app. cbn [log]. by rewrite <- !app_assoc.
    + by rewrite <- !app_assoc.
Qed.
Lemma failed_build_main2 args w :
  ApproxVsN2.n2_step args <> 0 ->
  all_built env ["approx_solver"; "input-generator"] w = false ->
  exists r fs,
    r <> TimedOut /\
    let head :=
      [EvPrint ("Project root: " +:+ path_str (PROJECT_ROOT env));
       EvPrint ("Fixed n1 (|VG|): " +:+ str_int (ApproxVsN2.n1 args)
                  +:+ ", varying n2 (|VH|): "
                  +:+ str_int_list (sweep (ApproxVsN2.n2_start args)
                                      (ApproxVsN2.n2_end args)
                                      (ApproxVsN2.n2_step args))
                  +:+ ", k: " +:+ str_int (ApproxVsN2.k args));
       EvPrint "Building release binaries with cargo build --release ...";
       cargo_run env r] in
    (exists post,
       new_events w (ApproxVsN2.main env args w).2 = head ++ post) /\
    match (after_build r).1 with
    | Ret _ => True
    | o => ApproxVsN2.main env args w
           = (o, mkWorld fs (log w ++ head ++ (after_build r).2))
    end.
Proof using Type.
  intros Hs Hb.
  destruct (ApproxVsN2.main env args w) as [o w'] eqn:E.
  unfold ApproxVsN2.main in E.
  erewrite bind_Ret in E by (by apply py_range_Ret). cbv beta iota zeta in E.
  erewrite bind_Ret in E by reflexivity. cbv beta iota in E.
  erewrite bind_Ret in E by reflexivity. cbv beta iota in E.
  rewrite ensure_built_shape2 in E.
  lazymatch type of E with
  | bind _ ?k ?W = _ =>
      set (K := k) in E;
      destruct (build_if_missing_builds env
                  ["approx_solver"; "input-generator"] W Hb)
        as (r & fs & Hnt & Hbuild)
  end.
  assert (HK : emits (fun _ => True) (K tt)).
  { subst K. cbv beta. unfold ApproxVsN2.sweep_loop.
    apply emits_bind; [apply emits_for_each; intros; apply sweep_step2_log|].
    intros ts. apply emits_bind; [by apply emits_print|]. intros _.
    apply emits_bind; [apply emits_for_each; intros; by apply emits_print|].
    intros _.
    destruct (plot_runtime_quiet2
                (range_items (ApproxVsN2.n2_start args)
                   (ApproxVsN2.n2_end args + 1) (ApproxVsN2.n2_step args))
                ts (ApproxVsN2.n1 args) (ApproxVsN2.k args)
                (resolve env (ApproxVsN2.output args))
                (negb (ApproxVsN2.no_log_scale args)))
      as (evs & Hy & _).
    eapply emits_yields; [exact Hy|apply Forall_any]. }
  exists r, fs. split; [done|]. cbv zeta. cbn [snd].
  destruct (after_build r) as [[[]|x|] tail] eqn:Ea; cbn [fst snd] in *.
  - rewrite (bind_Ret _ _ _ _ _ Hbuild) in E.
    destruct (emits_log _ _ _ _ _ HK E) as (evs & Hl & _).
    split; [|done]. exists (tail ++ evs). apply new_events_app.
    rewrite Hl. cbn [log]. rewrite ?log_print. unfold sweep.
    by rewrite <- !app_assoc.
  - rewrite (bind_Raise _ _ _ _ _ Hbuild) in E. injection E as <- <-.
    cbn [log]. rewrite ?log_print. unfold sweep. split.
    + exists tail. apply new_events_app. cbn [log]. by rewrite <- !app_assoc.
    + by rewrite <- !app_assoc.
  - rewrite (bind_Diverge _ _ _ _ Hbuild) in E. injection E as <- <-.
    cbn [log]. rewrite ?log_print. unfold sweep. split.
    + exists tail. apply new_events_app. cbn [log]. by rewrite <- !app_assoc.
    + by rewrite <- !app_assoc.
Qed.

(** With nothing to sweep and nothing to build, [main] goes straight to
    the summary header and the figure. *)
Lemma empty_sweep_main args w :
  RuntimeVsN1.n1_step args <> 0 ->
  sweep (RuntimeVsN1.n1_start args) (RuntimeVsN1.n1_end args)
    (RuntimeVsN1.n1_step args) = [] ->
  all_built env ["exact-solver"; "approx-solver"; "input-generator"] w
    = true ->
  RuntimeVsN1.main env args w
  = RuntimeVsN1.plot_runtime [] [] [] (RuntimeVsN1.n2 args)
      (RuntimeVsN1.k args) (resolve env (RuntimeVsN1.output args))
      (mkWorld (files w)
         (log w ++
          [EvPrint ("Project root: " +:+ path_str (PROJECT_ROOT env));
           EvPrint ("Using fixed n2 (|VH|): " +:+ str_int (RuntimeVsN1.n2 args)
                      +:+ ", varying n1 (|VG|): []"
                      +:+ ", k: " +:+ str_int (RuntimeVsN1.k args));
           EvPrint (nl +:+ "Summary (seconds):")])).
Proof using Type.
  intros Hs He Hb. unfold sweep in He. unfold RuntimeVsN1.main.
  bind_ret ltac:(by apply py_range_Ret). rewrite He.
  bind_ret reflexivity. bind_ret reflexivity.
  rewrite ensure_built_shape.
  bind_ret ltac:(apply build_if_missing_built; exact Hb).
  unfold RuntimeVsN1.sweep_loop. cbn [for_each].
  bind_ret reflexivity.
  cbn [RuntimeVsN1.exact_times RuntimeVsN1.approx_times zip_with for_each].
  bind_ret reflexivity. bind_ret reflexivity.
  cbn [files log]. by rewrite <- !app_assoc.
Qed.

Lemma empty_sweep_main2 args w :
  ApproxVsN2.n2_step args <> 0 ->
  sweep (ApproxVsN2.n2_start args) (ApproxVsN2.n2_end args)
    (ApproxVsN2.n2_step args) = [] ->
  all_built env ["approx_solver"; "input-generator"] w = true ->
  ApproxVsN2.main env args w
  = ApproxVsN2.plot_runtime [] [] (ApproxVsN2.n1 args) (ApproxVsN2.k args)
      (resolve env (ApproxVsN2.output args))
      (negb (ApproxVsN2.no_log_scale args))
      (mkWorld (files w)
         (log w ++
          [EvPrint ("Project root: " +:+ path_str (PROJECT_ROOT env));
           EvPrint ("Fixed n1 (|VG|): " +:+ str_int (ApproxVsN2.n1 args)
                      +:+ ", varying n2 (|VH|): []"
                      +:+ ", k: " +:+ str_int (ApproxVsN2.k args));
           EvPrint (nl +:+ "Summary (seconds):")])).
Proof using Type.
  intros Hs He Hb. unfold sweep in He. unfold ApproxVsN2.main.
  bind_ret ltac:(by apply py_range_Ret). cbv zeta. rewrite He.
  bind_ret reflexivity. bind_ret reflexivity.
  rewrite ensure_built_shape2.
  bind_ret ltac:(apply build_if_missing_built; exact Hb).
  unfold ApproxVsN2.sweep_loop. cbn [for_each].
  bind_ret reflexivity.
  cbn [zip_with for_each].
  bind_ret reflexivity. bind_ret reflexivity.
  cbn [files log]. by rewrite <- !app_assoc.
Qed.
End MainEdges.

(** The events of [plot_runtime]: a new figure, the series, and the
    fixed end. *)
Lemma plot_runtime_events n1_values exact_times approx_times n2 k output_path :
  exists evs,
    yields (RuntimeVsN1.plot_runtime n1_values exact_times approx_times n2 k
              output_path) tt evs /\
    evs = EvPlt (Figure 8 5) :: (EvPlt <$> plot_calls evs)
            ++ finish_figure1 n2 k output_path.
Proof.
  unfold RuntimeVsN1.plot_runtime.
  destruct (mask_vals n1_values exact_times) as [[|x1 x_exact] y_exact];
    destruct (mask_vals n1_values approx_times) as [[|x2 x_approx] y_approx];
    cbv beta iota zeta;
    (eexists; split; [repeat yields_step|reflexivity]).
Qed.

Lemma plot_runtime_events2 n2_values approx_times n1 k output_path log_scale :
  exists evs,
    yields (ApproxVsN2.plot_runtime n2_values approx_times n1 k output_path
              log_scale) tt evs /\
    evs = EvPlt (Figure 8 5) :: (EvPlt <$> plot_calls evs)
            ++ finish_figure2 n1 k output_path log_scale.
Proof.
  unfold ApproxVsN2.plot_runtime.
  destruct (mask_vals n2_values approx_times) as [[|x1 xs] ys];
    destruct log_scale; cbv beta iota zeta;
    (eexists; split; [repeat yields_step|reflexivity]).
Qed.

Lemma elem_of_head {A} (x : A) (l l' : list A) : l = x :: l' -> x ∈ l.
Proof. intros ->. by left. Qed.

Lemma no_runs_filter (evs : list event) :
  Forall (fun e => is_run e = false) evs -> List.filter is_run evs = [].
Proof.
  induction 1 as [|e evs He _ IH]; [done|].
  cbn [List.filter]. by rewrite He.
Qed.

(** What the build leaves behind in the log of [main]. *)
Lemma build_outcome {A} (m : M A) (w : World) (head : list event)
    (res : proc_result) :
  (exists post, new_events w (m w).2 = head ++ post) ->
  (forall o, (after_build res).1 = o ->
     match o with
     | Ret _ => True
     | _ => (m w).1 = recast o /\
            log (m w).2 = log w ++ head ++ (after_build res).2
     end) ->
  exists post,
    new_events w (m w).2 = head ++ post /\
    match res with
    | Completed code out =>
        code <> 0 ->
        (m w).1 = Raise (SystemExit 1) /\
        post = [EvPrint out;
                EvPrint "Failed to build project. Please check the output above."]
    | FailedToStart err => (m w).1 = Raise (OSError err) /\ post = []
    | Undecodable reason =>
        (m w).1 = Raise (UnicodeDecodeError reason) /\ post = []
    | TimedOut | Blocked => (m w).1 = Diverge /\ post = []
    end.
Proof.
  intros [post Hev] Hm. exists post. split; [done|].
  assert (Hpost : forall tail,
            log (m w).2 = log w ++ head ++ tail -> post = tail).
  { intros tail Hl. apply new_events_app in Hl. rewrite Hev in Hl.
    by apply app_inv_head in Hl. }
  specialize (Hm _ eq_refl).
  destruct res as [code out| |err| |why]; cbn [after_build] in Hm.
  - intros Hc. destruct (Z.eqb_spec code 0); [done|].
    cbn [fst snd] in Hm. destruct Hm as [Ho Hl]. split; [done|].
    by apply Hpost.
  - cbn [fst snd] in Hm. destruct Hm as [Ho Hl]. split; [done|by apply Hpost].
  - cbn [fst snd] in Hm. destruct Hm as [Ho Hl]. split; [done|by apply Hpost].
  - cbn [fst snd] in Hm. destruct Hm as [Ho Hl]. split; [done|by apply Hpost].
  - cbn [fst snd] in Hm. destruct Hm as [Ho Hl]. split; [done|by apply Hpost].
Qed.

(** X9.  When a binary is missing (and the step is not zero), the build
    is the first process [main] starts, right after its two banner lines
    and the announcement.  If [cargo] exits with a non-zero status, [main]
    prints its output and one more line and ends with [SystemExit(1)]:
    no instance is generated, no solver is run, nothing is plotted.  If
    [cargo] cannot be started, [main] ends with [OSError]; if it never
    exits, [main] never ends. *)
Theorem failed_build_stops_main (env : Env) :
  (forall args w,
     RuntimeVsN1.n1_step args <> 0 ->
     all_built env ["exact-solver"; "approx-solver"; "input-generator"] w
       = false ->
     let r := RuntimeVsN1.main env args w in
     exists res banner1 banner2 post,
       res <> TimedOut /\
       new_events w r.2
       = [EvPrint banner1; EvPrint banner2;
          EvPrint "Building release binaries with cargo build --release ..."]
         ++ cargo_run env res :: post /\
       match res with
       | Completed code out =>
           code <> 0 ->
           r.1 = Raise (SystemExit 1) /\
           post = [EvPrint out;
                   EvPrint "Failed to build project. Please check the output above."]
       | FailedToStart err => r.1 = Raise (OSError err) /\ post = []
       | Undecodable reason =>
           r.1 = Raise (UnicodeDecodeError reason) /\ post = []
       | TimedOut | Blocked => r.1 = Diverge /\ post = []
       end) /\
  (forall args w,
     ApproxVsN2.n2_step args <> 0 ->
     all_built env ["approx_solver"; "input-generator"] w = false ->
     let r := ApproxVsN2.main env args w in
     exists res banner1 banner2 post,
       res <> TimedOut /\
       new_events w r.2
       = [EvPrint banner1; EvPrint banner2;
          EvPrint "Building release binaries with cargo build --release ..."]
         ++ cargo_run env res :: post /\
       match res with
       | Completed code out =>
           code <> 0 ->
           r.1 = Raise (SystemExit 1) /\
           post = [EvPrint out;
                   EvPrint "Failed to build project. Please check the output above."]
       | FailedToStart err => r.1 = Raise (OSError err) /\ post = []
       | Undecodable reason =>
           r.1 = Raise (UnicodeDecodeError reason) /\ post = []
       | TimedOut | Blocked => r.1 = Diverge /\ post = []
       end).
Proof.
  split; intros args w Hs Hb r.
  - destruct (failed_build_main env args w Hs Hb)
      as (res & fs & Hnt & Hev & Hm).
    cbv zeta in Hev, Hm.
    destruct (build_outcome (RuntimeVsN1.main env args) w _ res Hev)
      as (post & Hpost & Hres).
    { intros o Ho. rewrite Ho in Hm.
      destruct o as [a|x|]; [done|..]; by rewrite Hm. }
    exists res. do 2 eexists. exists post.
    split; [done|]. split; [exact Hpost|exact Hres].
  - destruct (failed_build_main2 env args w Hs Hb)
      as (res & fs & Hnt & Hev & Hm).
    cbv zeta in Hev, Hm.
    destruct (build_outcome (ApproxVsN2.main env args) w _ res Hev)
      as (post & Hpost & Hres).
    { intros o Ho. rewrite Ho in Hm.
      destruct o as [a|x|]; [done|..]; by rewrite Hm. }
    exists res. do 2 eexists. exists post.
    split; [done|]. split; [exact Hpost|exact Hres].
Qed.

Lemma failed_build_stops_main_witness :
  let r := RuntimeVsN1.main (Unbuilt.env 101) (Scenario.args 2 5)
             Unbuilt.world in
  r.1 = Raise (SystemExit 1) /\
  length (List.filter is_run (new_events Unbuilt.world r.2)) = 1%nat.
Proof.
  intros r.
  destruct (failed_build_stops_main (Unbuilt.env 101)) as [H _].
  destruct (H (Scenario.args 2 5) Unbuilt.world ltac:(cbn; lia) eq_refl)
    as (res & b1 & b2 & post & Hnt & Hev & Hres).
  fold r in Hev, Hres.
  assert (Hc : new_events Unbuilt.world r.2 !! 3%nat
               = Some (cargo_run (Unbuilt.env 101)
                         (Completed 101 "cargo: done")))
    by (vm_compute; reflexivity).
  rewrite Hev in Hc. cbn [app lookup list_lookup] in Hc.
  injection Hc as Hc. subst res.
  destruct (Hres ltac:(lia)) as [Ho Hpost]. split; [exact Ho|].
  by rewrite Hev, Hpost.
Defined.

(** X10.  An empty sweep is no error on the way to the figure.  When the
    sweep has no point (for a positive step: the end below the start) and
    the binaries are there, [main] runs no process at all, begins the
    figure, draws no series, and calls [plt.savefig] once, with the
    resolved [--output] path: the figure it asks for has no series.
    (Whether [savefig] accepts the path is not part of this: the statement
    is about the calls.) *)
Theorem empty_sweep_saves_an_empty_figure (env : Env) :
  (forall args w,
     RuntimeVsN1.n1_step args <> 0 ->
     sweep (RuntimeVsN1.n1_start args) (RuntimeVsN1.n1_end args)
       (RuntimeVsN1.n1_step args) = [] ->
     all_built env ["exact-solver"; "approx-solver"; "input-generator"] w
       = true ->
     let r := RuntimeVsN1.main env args w in
     let evs := new_events w r.2 in
     let p := resolve env (RuntimeVsN1.output args) in
     List.filter is_run evs = [] /\
     plotted evs /\
     plot_calls evs = [] /\
     savefigs evs = [EvPlt (Savefig p 200)]) /\
  (forall args w,
     ApproxVsN2.n2_step args <> 0 ->
     sweep (ApproxVsN2.n2_start args) (ApproxVsN2.n2_end args)
       (ApproxVsN2.n2_step args) = [] ->
     all_built env ["approx_solver"; "input-generator"] w = true ->
     let r := ApproxVsN2.main env args w in
     let evs := new_events w r.2 in
     let p := resolve env (ApproxVsN2.output args) in
     List.filter is_run evs = [] /\
     plotted evs /\
     plot_calls evs = [] /\
     savefigs evs = [EvPlt (Savefig p 200)]).
Proof.
  split; intros args w Hs He Hb r evs p; subst r evs.
  - rewrite (empty_sweep_main env args w Hs He Hb). fold p.
    set (w1 := mkWorld _ _).
    assert (Hl1 : exists pre, log w1 = log w ++ pre /\
                    Forall (fun e => is_run e = false) pre /\
                    plot_calls pre = [] /\ savefigs pre = [])
      by (eexists; split; [reflexivity|]; by repeat constructor).
    destruct Hl1 as (pre & Hl1 & Hr1 & Hp1 & Hs1).
    destruct (plot_runtime_saves [] [] [] (RuntimeVsN1.n2 args)
                (RuntimeVsN1.k args) p w1) as (Ho & Hsave & Hf).
    destruct (plot_runtime_exact_approx [] [] [] (RuntimeVsN1.n2 args)
                (RuntimeVsN1.k args) p w1) as (_ & Hplot).
    destruct (plot_runtime_quiet [] [] [] (RuntimeVsN1.n2 args)
                (RuntimeVsN1.k args) p) as (evs2 & Hy & Hq).
    destruct (Hy w1) as [_ Hl2].
    assert (Hfig : plotted
                     (new_events w
                        (RuntimeVsN1.plot_runtime [] [] [] (RuntimeVsN1.n2 args)
                           (RuntimeVsN1.k args) p w1).2)).
    { destruct (plot_runtime_events [] [] [] (RuntimeVsN1.n2 args)
                  (RuntimeVsN1.k args) p) as (evs3 & Hy3 & Hevs3).
      destruct (Hy3 w1) as [_ Hl3].
      rewrite (new_events_trans _ _ _ _ _ Hl1 Hl3). unfold plotted.
      apply elem_of_app. right. rewrite (new_events_app _ _ _ Hl3).
      exact (elem_of_head _ _ _ Hevs3). }
    split; [|split; [exact Hfig|]];
      rewrite (new_events_trans _ _ _ _ _ Hl1 Hl2).
    { rewrite List.filter_app, (new_events_app _ _ _ Hl1).
      rewrite (no_runs_filter _ Hr1).
      by rewrite (new_events_app _ _ _ Hl2), (no_runs_filter _ Hq). }
    rewrite savefigs_app. unfold plot_calls at 1.
    rewrite omap_app. fold (plot_calls (new_events w w1)).
    fold (plot_calls
            (new_events w1
               (RuntimeVsN1.plot_runtime [] [] [] (RuntimeVsN1.n2 args)
                  (RuntimeVsN1.k args) p w1).2)).
    rewrite Hsave, Hplot. rewrite (new_events_app _ _ _ Hl1), Hp1, Hs1.
    by split.
  - rewrite (empty_sweep_main2 env args w Hs He Hb). fold p.
    set (w1 := mkWorld _ _).
    assert (Hl1 : exists pre, log w1 = log w ++ pre /\
                    Forall (fun e => is_run e = false) pre /\
                    plot_calls pre = [] /\ savefigs pre = [])
      by (eexists; split; [reflexivity|]; by repeat constructor).
    destruct Hl1 as (pre & Hl1 & Hr1 & Hp1 & Hs1).
    destruct (plot_runtime_saves2 [] [] (ApproxVsN2.n1 args)
                (ApproxVsN2.k args) p
                (negb (ApproxVsN2.no_log_scale args)) w1) as (Ho & Hsave & Hf).
    destruct (plot_runtime_approx [] [] (ApproxVsN2.n1 args)
                (ApproxVsN2.k args) p
                (negb (ApproxVsN2.no_log_scale args)) w1) as (_ & Hplot).
    destruct (plot_runtime_quiet2 [] [] (ApproxVsN2.n1 args)
                (ApproxVsN2.k args) p
                (negb (ApproxVsN2.no_log_scale args))) as (evs2 & Hy & Hq).
    destruct (Hy w1) as [_ Hl2].
    assert (Hfig : plotted
                     (new_events w
                        (ApproxVsN2.plot_runtime [] [] (ApproxVsN2.n1 args)
                           (ApproxVsN2.k args) p
                           (negb (ApproxVsN2.no_log_scale args)) w1).2)).
    { destruct (plot_runtime_events2 [] [] (ApproxVsN2.n1 args)
                  (ApproxVsN2.k args) p
                  (negb (ApproxVsN2.no_log_scale args)))
        as (evs3 & Hy3 & Hevs3).
      destruct (Hy3 w1) as [_ Hl3].
      rewrite (new_events_trans _ _ _ _ _ Hl1 Hl3). unfold plotted.
      apply elem_of_app. right. rewrite (new_events_app _ _ _ Hl3).
      exact (elem_of_head _ _ _ Hevs3). }
    split; [|split; [exact Hfig|]];
      rewrite (new_events_trans _ _ _ _ _ Hl1 Hl2).
    { rewrite List.filter_app, (new_events_app _ _ _ Hl1).
      rewrite (no_runs_filter _ Hr1).
      by rewrite (new_events_app _ _ _ Hl2), (no_runs_filter _ Hq). }
    rewrite savefigs_app. unfold plot_calls at 1.
    rewrite omap_app. fold (plot_calls (new_events w w1)).
    fold (plot_calls
            (new_events w1
               (ApproxVsN2.plot_runtime [] [] (ApproxVsN2.n1 args)
                  (ApproxVsN2.k args) p
                  (negb (ApproxVsN2.no_log_scale args)) w1).2)).
    rewrite Hsave, Hplot. rewrite (new_events_app _ _ _ Hl1), Hp1, Hs1.
    by split.
Qed.

Lemma empty_sweep_saves_an_empty_figure_witness :
  let r := RuntimeVsN1.main Scenario.env (Scenario.args 5 2) Scenario.built in
  List.filter is_run (new_events Scenario.built r.2) = [] /\
  savefigs (new_events Scenario.built r.2)
  = [EvPlt (Savefig ["repo"; "runtime.png"] 200)].
Proof.
  intros r.
  destruct (empty_sweep_saves_an_empty_figure Scenario.env) as [H _].
  destruct (H (Scenario.args 5 2) Scenario.built ltac:(cbn; lia) eq_refl
              eq_refl) as (Hr & _ & _ & Hf).
  by split.
Defined.

(* ===================================================================== *)
(** * What the sweep loop records, and the summary *)
(* ===================================================================== *)

(** The summary loop prints one line per row, in order. *)
Lemma summary_yields {A} (f : A -> string) (rows : list A) :
  yields (for_each rows (fun row _ => print (f row)) tt) tt
    ((fun row => EvPrint (f row)) <$> rows).
Proof.
  induction rows as [|row rows IH]; [apply yields_ret|].
  cbn [for_each fmap list_fmap].
  change (EvPrint (f row) :: ?l) with ([EvPrint (f row)] ++ l).
  eapply yields_bind; [apply yields_print|exact IH].
Qed.

Section LoopRecords.
Variable env : Env.

(** The flag is only set when a [None] was recorded. *)
Lemma sweep_loop_flag args xs st w st1 w1 :
  for_each xs (RuntimeVsN1.sweep_step env args) st w = (Ret st1, w1) ->
  (RuntimeVsN1.exact_failed st = true -> None ∈ RuntimeVsN1.exact_times st) ->
  RuntimeVsN1.exact_failed st1 = true -> None ∈ RuntimeVsN1.exact_times st1.
Proof using Type.
  revert st w. induction xs as [|x xs IH]; intros st w H Hst.
  - by injection H as <- <-.
  - cbn [for_each] in H. apply bind_Ret_inv in H as (s' & w' & Hx & Hrest).
    apply sweep_step_Ret in Hx as (te & ta & evs & -> & _ & _ & _).
    apply (IH _ _ Hrest).
    cbn [RuntimeVsN1.exact_times RuntimeVsN1.exact_failed].
    intros [Hf|Hf]%orb_true_iff.
    + apply elem_of_app. left. by apply Hst.
    + apply elem_of_app. right. destruct te; [done|]. by constructor.
Qed.

Lemma exact_step_runs args n1 st w st1 w1 :
  RuntimeVsN1.exact_step env args n1 st w = (Ret st1, w1) ->
  run_cmds (bin env "exact-solver") (new_events w w1)
  = if RuntimeVsN1.exact_failed st then []
    else [RuntimeVsN1.exact_cmd env
            (instance_path env n1 (RuntimeVsN1.n2 args)) (RuntimeVsN1.k args)].
Proof using Type.
  unfold RuntimeVsN1.exact_step.
  destruct (RuntimeVsN1.exact_failed st) eqn:Hf; cbn [negb].
  - intros H. cbv beta iota delta [bind print emit ret] in H.
    injection H as _ <-. unfold new_events. cbn [log].
    by rewrite drop_app_length.
  - intros H. apply bind_Ret_inv in H as (te & w' & Ht & Hret).
    injection Hret as _ <-.
    destruct (instance_label env n1 (RuntimeVsN1.n2 args) 1 ltac:(lia))
      as [l Hl].
    rewrite time_solver_exact_timed in Ht.
    destruct (timed_run_run_cmds env "exact-solver"
                (RuntimeVsN1.exact_cmd env
                   (instance_path env n1 (RuntimeVsN1.n2 args))
                   (RuntimeVsN1.k args))
                _ "[exact] n1=" 1 _
                (RuntimeVsN1.timeout_seconds args) w l eq_refl Hl)
      as [Hcmds _].
    by rewrite Ht in Hcmds.
Qed.

(** One pass of the loop that returns runs the exact solver once, on the
    instance of its sweep point, unless the flag is set. *)
Lemma sweep_step_exact_runs args n1 st w st1 w1 :
  RuntimeVsN1.sweep_step env args n1 st w = (Ret st1, w1) ->
  exists evs,
    log w1 = log w ++ evs /\
    run_cmds (bin env "exact-solver") evs
    = if RuntimeVsN1.exact_failed st then []
      else [RuntimeVsN1.exact_cmd env
              (instance_path env n1 (RuntimeVsN1.n2 args))
              (RuntimeVsN1.k args)].
Proof using Type.
  unfold RuntimeVsN1.sweep_step. intros H.
  apply bind_Ret_inv in H as ([] & wp & Hp & H).
  apply bind_Ret_inv in H as (st' & we & He & Ha).
  rewrite provide_instance_shape in Hp.
  destruct (emits_log _ _ _ _ _ (only_runs_provide env _ _ _ _ _ _) Hp)
    as (evs_p & Hlp & Hop).
  pose proof (exact_step_runs _ _ _ _ _ _ He) as Hruns.
  apply exact_step_Ret in He as (te & evs_e & _ & Hle & _ & _).
  apply approx_step_Ret in Ha as (ta & evs_a & _ & Hla & Hoa & _).
  rewrite (new_events_app _ _ _ Hle) in Hruns.
  exists (evs_p ++ evs_e ++ evs_a).
  split; [by rewrite Hla, Hle, Hlp, <- !app_assoc|].
  rewrite !run_cmds_app, Hruns.
  rewrite (only_runs_other env "input-generator" "exact-solver" evs_p)
    by done.
  rewrite (only_runs_other env "approx-solver" "exact-solver" evs_a)
    by done.
  by rewrite app_nil_r.
Qed.

Lemma sweep_loop_exact_runs args xs st w st1 w1 :
  for_each xs (RuntimeVsN1.sweep_step env args) st w = (Ret st1, w1) ->
  exists tes,
    RuntimeVsN1.exact_times st1 = RuntimeVsN1.exact_times st ++ tes /\
    run_cmds (bin env "exact-solver") (new_events w w1)
    = (fun n1 => RuntimeVsN1.exact_cmd env
                   (instance_path env n1 (RuntimeVsN1.n2 args))
                   (RuntimeVsN1.k args))
        <$> take (if RuntimeVsN1.exact_failed st then 0%nat
                  else exact_attempts tes) xs.
Proof using Type.
  revert st w. induction xs as [|x xs IH]; intros st w H.
  - injection H as <- <-. exists []. rewrite app_nil_r. split; [done|].
    unfold new_events. rewrite drop_all. by destruct (RuntimeVsN1.exact_failed st).
  - cbn [for_each] in H. apply bind_Ret_inv in H as (s' & w' & Hx & Hrest).
    destruct (sweep_step_exact_runs _ _ _ _ _ _ Hx) as (evs1 & E1 & Hr1).
    apply sweep_step_Ret in Hx as (te & ta & evs & -> & _ & _ & Hflag).
    destruct (emits_log _ _ _ _ _
                (emits_for_each _ xs (RuntimeVsN1.sweep_step env args) _
                   (sweep_step_log env args)) Hrest) as (evs2 & E2 & _).
    apply IH in Hrest as (tes & Het & Hr2).
    cbn [RuntimeVsN1.exact_times RuntimeVsN1.exact_failed] in Het, Hr2.
    exists (te :: tes). split; [by rewrite Het, <- app_assoc|].
    rewrite (new_events_trans _ _ _ _ _ E1 E2), run_cmds_app, Hr2.
    rewrite (new_events_app _ _ _ E1), Hr1.
    destruct (RuntimeVsN1.exact_failed st) eqn:Hf; cbn [orb].
    + done.
    + destruct te as [t|]; cbn [exact_attempts]; [done|].
      by rewrite take_0.
Qed.

Lemma exact_attempts_le (tes : list (option float)) :
  (exact_attempts tes <= length tes)%nat.
Proof using Type.
  induction tes as [|[t|] tes IH]; cbn [exact_attempts length]; lia.
Qed.

Lemma exact_attempts_all (tes : list (option float)) :
  None ∉ tes -> exact_attempts tes = length tes.
Proof using Type.
  induction tes as [|[t|] tes IH]; intros Hn; cbn [exact_attempts length].
  - done.
  - rewrite IH; [done|]. intros Hin. apply Hn. by constructor.
  - destruct Hn. by constructor.
Qed.

Lemma exact_attempts_first (tes : list (option float)) (i : nat) :
  tes !! i = Some None -> (exact_attempts tes <= S i)%nat.
Proof using Type.
  revert i. induction tes as [|[t|] tes IH]; intros i Hi.
  - done.
  - destruct i as [|i]; [done|]. cbn [exact_attempts].
    specialize (IH i Hi). lia.
  - cbn [exact_attempts]. lia.
Qed.
End LoopRecords.

Lemma exact_attempts_stop (tes : list (option float)) :
  (exact_attempts tes < length tes)%nat ->
  exists i, exact_attempts tes = S i /\ tes !! i = Some None.
Proof.
  induction tes as [|[t|] tes IH]; cbn [exact_attempts length]; intros Hlt.
  - lia.
  - destruct IH as (i & Hi & Hl); [lia|]. exists (S i). by rewrite Hi.
  - by exists 0%nat.
Qed.

(** X11.  A sweep loop that gets through the sizes [xs] has recorded one
    outcome per size in each of its lists, so the [zip]s of the summary
    and of the plot drop no point: the summary prints one line per sweep
    point, in sweep order.  In the script of the [n1] sweep the flag
    [exact_failed] is set exactly when a [None] is among the outcomes
    recorded for the exact solver. *)
Theorem sweep_loop_records (env : Env) :
  (forall (args : RuntimeVsN1.Args) xs w st w',
     RuntimeVsN1.sweep_loop env args xs w = (Ret st, w') ->
     let rows := zip xs (zip (RuntimeVsN1.exact_times st)
                           (RuntimeVsN1.approx_times st)) in
     length (RuntimeVsN1.exact_times st) = length xs /\
     length (RuntimeVsN1.approx_times st) = length xs /\
     (RuntimeVsN1.exact_failed st = true
      <-> None ∈ RuntimeVsN1.exact_times st) /\
     rows.*1 = xs /\
     rows.*2.*1 = RuntimeVsN1.exact_times st /\
     rows.*2.*2 = RuntimeVsN1.approx_times st /\
     yields (for_each rows
               (fun row _ => print (RuntimeVsN1.summary_line env row)) tt) tt
       ((fun row => EvPrint (RuntimeVsN1.summary_line env row)) <$> rows)) /\
  (forall (args : ApproxVsN2.Args) xs w ts w',
     ApproxVsN2.sweep_loop env args xs w = (Ret ts, w') ->
     let rows := zip xs ts in
     length ts = length xs /\
     rows.*1 = xs /\
     rows.*2 = ts /\
     yields (for_each rows
               (fun row _ => print (ApproxVsN2.summary_line env row)) tt) tt
       ((fun row => EvPrint (ApproxVsN2.summary_line env row)) <$> rows)).
Proof.
  split.
  - intros args xs w st w' H rows. unfold RuntimeVsN1.sweep_loop in H.
    destruct (sweep_loop_exact env _ _ _ _ _ _ H) as (tes & Ht & Hlen & Hinv).
    pose proof (sweep_loop_approx_length env _ _ _ _ _ _ H) as Ha.
    pose proof (sweep_loop_flag env _ _ _ _ _ _ H) as Hflag.
    cbn [RuntimeVsN1.exact_times RuntimeVsN1.approx_times
           RuntimeVsN1.exact_failed app length] in Ht, Hinv, Ha, Hflag.
    assert (He : length (RuntimeVsN1.exact_times st) = length xs)
      by (by rewrite Ht).
    assert (Hz : length (zip (RuntimeVsN1.exact_times st)
                           (RuntimeVsN1.approx_times st)) = length xs)
      by (rewrite length_zip_with; lia).
    split; [done|]. split; [done|]. split.
    { split; [by apply Hflag|]. apply Hinv. by intros ?%elem_of_nil. }
    subst rows.
    split; [apply fst_zip; lia|].
    rewrite snd_zip by lia.
    split; [apply fst_zip; lia|]. split; [apply snd_zip; lia|].
    apply summary_yields.
  - intros args xs w ts w' H rows. unfold ApproxVsN2.sweep_loop in H.
    pose proof (sweep_loop2_approx_length env _ _ _ _ _ _ H) as Ha.
    cbn [length] in Ha. subst rows.
    split; [done|]. split; [apply fst_zip; lia|].
    split; [apply snd_zip; lia|]. apply summary_yields.
Qed.

Lemma sweep_loop_records_witness :
  let r := RuntimeVsN1.sweep_loop Scenario.env (Scenario.args 2 5)
             [2; 3; 4; 5] Scenario.built in
  exists st, r.1 = Ret st /\
    length (RuntimeVsN1.exact_times st) = 4%nat /\
    (zip [2; 3; 4; 5] (zip (RuntimeVsN1.exact_times st)
                          (RuntimeVsN1.approx_times st))).*1 = [2; 3; 4; 5].
Proof.
  intros r. destruct r as [o w'] eqn:E.
  assert (Ho : exists st, o = Ret st).
  { assert (o = r.1) as -> by (subst r; by rewrite E).
    vm_compute. by eexists. }
  destruct Ho as [st ->]. exists st. split; [done|].
  destruct (sweep_loop_records Scenario.env) as [H _].
  destruct (H (Scenario.args 2 5) [2; 3; 4; 5] Scenario.built st w' E)
    as (He & _ & _ & Hrows & _).
  by split.
Defined.

(** X12.  The exact solver is run once for every sweep point up to and
    including the first one at which it fails, in sweep order, each time
    on the instance file of that point, and for no other point: with [m]
    the number of outcomes recorded up to and including the first [None],
    its runs are those for the first [m] sizes.  If it never failed it
    was run for every size; if it was run for fewer, its last run is the
    one recorded as [None]. *)
Theorem exact_solver_runs_until_first_failure (env : Env)
    (args : RuntimeVsN1.Args) (xs : list Z) (w : World)
    (st : RuntimeVsN1.loop_state) (w' : World) :
  RuntimeVsN1.sweep_loop env args xs w = (Ret st, w') ->
  let m := exact_attempts (RuntimeVsN1.exact_times st) in
  run_cmds (bin env "exact-solver") (new_events w w')
  = (fun n1 => RuntimeVsN1.exact_cmd env
                 (instance_path env n1 (RuntimeVsN1.n2 args))
                 (RuntimeVsN1.k args)) <$> take m xs /\
  (m <= length xs)%nat /\
  (None ∉ RuntimeVsN1.exact_times st -> m = length xs) /\
  (forall i, RuntimeVsN1.exact_times st !! i = Some None -> (m <= S i)%nat) /\
  ((m < length xs)%nat ->
   exists i, m = S i /\ RuntimeVsN1.exact_times st !! i = Some None).
Proof.
  intros H m. unfold RuntimeVsN1.sweep_loop in H.
  destruct (sweep_loop_exact env _ _ _ _ _ _ H) as (tes & Ht & Hlen & _).
  destruct (sweep_loop_exact_runs env _ _ _ _ _ _ H) as (tes' & Ht' & Hruns).
  cbn [RuntimeVsN1.exact_times RuntimeVsN1.exact_failed app] in Ht, Ht', Hruns.
  subst m. rewrite Ht'. split; [exact Hruns|].
  assert (Hl : length tes' = length xs) by (by rewrite <- Ht', Ht).
  rewrite <- Hl.
  split; [apply exact_attempts_le|].
  split; [apply exact_attempts_all|].
  split; [apply exact_attempts_first|apply exact_attempts_stop].
Qed.

Lemma exact_solver_runs_until_first_failure_witness :
  let r := RuntimeVsN1.sweep_loop Scenario.env (Scenario.args 2 5)
             [2; 3; 4; 5] Scenario.built in
  length (run_cmds (bin Scenario.env "exact-solver")
            (new_events Scenario.built r.2)) = 3%nat.
Proof.
  intros r. destruct r as [o w'] eqn:E.
  assert (Ho : exists st, o = Ret st /\
                 exact_attempts (RuntimeVsN1.exact_times st) = 3%nat).
  { assert (o = r.1) as -> by (subst r; by rewrite E).
    vm_compute. eexists. split; reflexivity. }
  destruct Ho as (st & -> & Hm).
  destruct (exact_solver_runs_until_first_failure Scenario.env
              (Scenario.args 2 5) [2; 3; 4; 5] Scenario.built st w' E)
    as [Hc _].
  cbn [snd]. rewrite Hc, Hm. reflexivity.
Defined.

(* ===================================================================== *)
(** * The points that are plotted *)
(* ===================================================================== *)

Lemma keep_all_positive (xs : list Z) (ts : list float) :
  Forall (fun t => PrimFloat.ltb 0%float t = true) ts ->
  omap keep_point (zip xs (Some <$> ts)) = zip xs ts.
Proof.
  intros Hpos. revert xs.
  induction Hpos as [|t ts Ht _ IH]; intros [|x xs]; try reflexivity.
  cbn [fmap list_fmap zip_with]. rewrite omap_cons_keep.
  unfold keep_point at 1. cbn [fst snd]. rewrite Ht. by rewrite IH.
Qed.

Lemma fst_zip_sublist {A B} (xs : list A) (ys : list B) :
  (zip xs ys).*1 `sublist_of` xs.
Proof.
  revert ys. induction xs as [|x xs IH]; intros [|y ys]; cbn.
  - constructor.
  - constructor.
  - apply sublist_nil_l.
  - constructor. apply IH.
Qed.

(** X13.  What [mask_vals] hands to [plt.plot] is well formed: as many
    sizes as times, no more than there were sizes or outcomes, the sizes
    a subsequence of the sweep, and every time positive, so that the
    log scale is defined at every plotted point.  Masking what was
    masked changes nothing, and a series in which every run has a
    positive time is plotted in full. *)
Theorem mask_vals_shape (xs : list Z) (ys : list (option float)) :
  let m := mask_vals xs ys in
  length m.1 = length m.2 /\
  (length m.1 <= length xs)%nat /\
  (length m.1 <= length ys)%nat /\
  Forall (fun t => PrimFloat.ltb 0%float t = true) m.2 /\
  m.1 `sublist_of` xs /\
  mask_vals m.1 (Some <$> m.2) = m /\
  (forall ts,
     length ts = length xs ->
     Forall (fun t => PrimFloat.ltb 0%float t = true) ts ->
     mask_vals xs (Some <$> ts) = (xs, ts)).
Proof.
  intros m. subst m. rewrite mask_vals_kept.
  set (kept := omap keep_point (zip xs ys)). cbn [fst snd].
  pose proof (kept_sublist (zip xs ys)) as Hsub. fold kept in Hsub.
  assert (Hlen : (length kept <= length (zip xs ys))%nat).
  { apply sublist_length in Hsub. by rewrite length_fmap in Hsub. }
  rewrite length_zip_with in Hlen.
  assert (Hpos : Forall (fun t => PrimFloat.ltb 0%float t = true) kept.*2).
  { apply Forall_forall. intros t Ht.
    apply list_elem_of_fmap in Ht as ([x t'] & -> & Hin).
    by apply elem_of_kept in Hin as [_ Hin]. }
  assert (Hfull : forall (xs' : list Z) ts,
            length ts = length xs' ->
            Forall (fun t => PrimFloat.ltb 0%float t = true) ts ->
            mask_vals xs' (Some <$> ts) = (xs', ts)).
  { intros xs' ts Hl Hp. rewrite mask_vals_kept, keep_all_positive by done.
    by rewrite fst_zip, snd_zip by lia. }
  split; [by rewrite !length_fmap|].
  split; [rewrite length_fmap; lia|]. split; [rewrite length_fmap; lia|].
  split; [exact Hpos|]. split.
  - transitivity ((zip xs ys).*1); [|apply fst_zip_sublist].
    apply (fmap_sublist fst) in Hsub.
    rewrite <- list_fmap_compose in Hsub.
    erewrite (list_fmap_ext _ fst) in Hsub; [exact Hsub|].
    by intros _ [x t] _.
  - split; [|exact (Hfull xs)].
    apply Hfull; [by rewrite !length_fmap|exact Hpos].
Qed.

Lemma mask_vals_shape_witness :
  mask_vals [2; 3; 4] [Some 0.5%float; Some 2%float; Some 8%float]
  = ([2; 3; 4], [0.5%float; 2%float; 8%float]).
Proof.
  destruct (mask_vals_shape [2; 3; 4]
              [Some 0.5%float; Some 2%float; Some 8%float])
    as (_ & _ & _ & _ & _ & _ & H).
  apply (H [0.5%float; 2%float; 8%float]); [reflexivity|].
  by repeat constructor.
Defined.

(* ===================================================================== *)
(** * A cache miss, event by event *)
(* ===================================================================== *)

Lemma parent_path_join (p : Path) (c : string) : parent (p // c) = p.
Proof. unfold parent, path_join. apply removelast_last. Qed.

Section MissTrace.
Variable env : Env.

(** The log of [generate_instance]: the directory, the command if it is
    shown, the run, and then prints only. *)
Lemma generate_events show_cmd n1 n2 dg dh seed p w :
  let cmd := generator_cmd env n1 n2 dg dh seed p in
  exists res post,
    log (generate env show_cmd n1 n2 dg dh seed p w).2
    = log w ++ EvMkdir (parent p)
        :: (if show_cmd then [EvPrint (str_list env cmd)] else [])
        ++ EvRun cmd (path_str (PROJECT_ROOT env)) None res :: post /\
    Forall quiet post /\
    res <> TimedOut.
Proof using Type.
  intros cmd.
  destruct (yields_before_generator env show_cmd cmd p w) as [_ Hlb].
  destruct (run_cmd_run env cmd (PROJECT_ROOT env) None
              (before_generator env show_cmd cmd p w).2)
    as (res & fs & Hrun & Hnt & _).
  pose proof (generate_after env show_cmd n1 n2 dg dh seed p w _ _ Hrun)
    as Hg.
  fold cmd in Hg. exists res.
  destruct res as [code out| |err| |why]; cbn [run_outcome] in Hg.
  - exists [EvPrint ("[gen n1=" +:+ str_int n1 +:+ ", n2=" +:+ str_int n2
                       +:+ "] exit=" +:+ str_int code);
            EvPrint (if code =? 0
                     then join nl (take 10 (splitlines env (strip env out)))
                     else out)].
    rewrite Hg. cbv zeta.
    destruct (code =? 0); cbn [fst snd log files]; rewrite Hlb;
      (split; [by rewrite <- !app_assoc|]);
      (split; [repeat constructor|]); auto.
  - by destruct Hnt.
  - exists []. rewrite Hg. cbn [fst snd log files]. rewrite Hlb.
    split; [by rewrite <- !app_assoc|]. split; auto.
  - exists []. rewrite Hg. cbn [fst snd log files]. rewrite Hlb.
    split; [by rewrite <- !app_assoc|]. split; auto.
  - exists []. rewrite Hg. cbn [fst snd log files]. rewrite Hlb.
    split; [by rewrite <- !app_assoc|]. split; auto.
Qed.

Lemma provide_events show_cmd n1 n2 dg dh seed w :
  let p := instance_path env n1 n2 in
  let cmd := generator_cmd env n1 n2 dg dh seed p in
  p ∉ files w ->
  exists res post,
    new_events w (provide env show_cmd n1 n2 dg dh seed w).2
    = EvPrint ("Generating instance for n1=" +:+ str_int n1 +:+ ", n2="
                 +:+ str_int n2 +:+ " ...")
        :: EvMkdir (GEN_DIR env)
        :: (if show_cmd then [EvPrint (str_list env cmd)] else [])
        ++ EvRun cmd (path_str (PROJECT_ROOT env)) None res :: post /\
    Forall quiet post /\
    res <> TimedOut.
Proof using Type.
  intros p cmd Hout. rewrite provide_missing by done.
  destruct (generate_events show_cmd n1 n2 dg dh seed p
              (print ("Generating instance for n1=" +:+ str_int n1 +:+ ", n2="
                        +:+ str_int n2 +:+ " ...") w).2)
    as (res & post & Hl & Hq & Hnt).
  exists res, post. split; [|by split].
  apply new_events_app. fold p. rewrite Hl, log_print.
  subst p. unfold instance_path at 1. rewrite parent_path_join.
  by rewrite <- !app_assoc.
Qed.
End MissTrace.

(** X14.  A cache miss, event by event.  When the instance file of a
    sweep point is not there, the instance step announces the
    generation, creates [examples/generated_benchmarks] under the project
    root, and runs the generator once, from the project root and without
    a timeout; only prints follow.  The generator is told to write the
    very path whose absence was seen ([--output] is argument 11 of the
    command) and always gets [--seed]; only the script of the [n1] sweep
    prints the command before running it. *)
Theorem cache_miss_trace (env : Env) :
  (forall (args : RuntimeVsN1.Args) (n1 : Z) (w : World),
     let p := instance_path env n1 (RuntimeVsN1.n2 args) in
     let cmd := generator_cmd env n1 (RuntimeVsN1.n2 args)
                  (RuntimeVsN1.density_g args) (RuntimeVsN1.density_h args)
                  (Some (RuntimeVsN1.seed args)) p in
     p ∉ files w ->
     exists res post,
       new_events w (RuntimeVsN1.provide_instance env args n1 w).2
       = [EvPrint ("Generating instance for n1=" +:+ str_int n1 +:+ ", n2="
                     +:+ str_int (RuntimeVsN1.n2 args) +:+ " ...");
          EvMkdir (PROJECT_ROOT env // "examples" // "generated_benchmarks");
          EvPrint (str_list env cmd);
          EvRun cmd (path_str (PROJECT_ROOT env)) None res] ++ post /\
       Forall quiet post /\
       res <> TimedOut /\
       cmd !! 11%nat = Some (path_str p) /\
       drop 12 cmd = ["--seed"; str_int (RuntimeVsN1.seed args)]) /\
  (forall (args : ApproxVsN2.Args) (n2 : Z) (w : World),
     let p := instance_path env (ApproxVsN2.n1 args) n2 in
     let cmd := generator_cmd env (ApproxVsN2.n1 args) n2
                  (ApproxVsN2.density_g args) (ApproxVsN2.density_h args)
                  (Some (ApproxVsN2.seed args)) p in
     p ∉ files w ->
     exists res post,
       new_events w (ApproxVsN2.provide_instance env args n2 w).2
       = [EvPrint ("Generating instance for n1="
                     +:+ str_int (ApproxVsN2.n1 args) +:+ ", n2="
                     +:+ str_int n2 +:+ " ...");
          EvMkdir (PROJECT_ROOT env // "examples" // "generated_benchmarks");
          EvRun cmd (path_str (PROJECT_ROOT env)) None res] ++ post /\
       Forall quiet post /\
       res <> TimedOut /\
       cmd !! 11%nat = Some (path_str p) /\
       drop 12 cmd = ["--seed"; str_int (ApproxVsN2.seed args)]).
Proof.
  split.
  - intros args n1 w p cmd Hout. rewrite provide_instance_shape.
    destruct (provide_events env true n1 (RuntimeVsN1.n2 args)
                (RuntimeVsN1.density_g args) (RuntimeVsN1.density_h args)
                (Some (RuntimeVsN1.seed args)) w Hout)
      as (res & post & Hev & Hq & Hnt).
    exists res, post. by repeat split.
  - intros args n2 w p cmd Hout. rewrite provide_instance_shape2.
    destruct (provide_events env false (ApproxVsN2.n1 args) n2
                (ApproxVsN2.density_g args) (ApproxVsN2.density_h args)
                (Some (ApproxVsN2.seed args)) w Hout)
      as (res & post & Hev & Hq & Hnt).
    exists res, post. by repeat split.
Qed.

Lemma cache_miss_trace_witness :
  exists post,
    new_events Scenario.built
      (RuntimeVsN1.provide_instance Scenario.env (Scenario.args 2 5) 2
         Scenario.built).2 !! 3%nat
    = Some (EvRun
              (generator_cmd Scenario.env 2 25 0.375%float 0.25%float
                 (Some 12345) (instance_path Scenario.env 2 25))
              "/repo" None (Completed 0 "generated")) /\
    Forall quiet post.
Proof.
  destruct (cache_miss_trace Scenario.env) as [H _].
  destruct (H (Scenario.args 2 5) 2 Scenario.built) as
    (res & post & Hev & Hq & _).
  { apply (bool_decide_unpack _). vm_compute. exact I. }
  exists post. split; [|exact Hq]. vm_compute. reflexivity.
Defined.

(* ===================================================================== *)
(** * The processes [main] starts *)
(* ===================================================================== *)

Lemma emits_for_each_in {A S} P (xs : list A) (body : A -> S -> M S) s :
  (forall x, x ∈ xs -> forall s, emits P (body x s)) ->
  emits P (for_each xs body s).
Proof.
  revert s. induction xs as [|x xs IH]; intros s Hb; cbn [for_each].
  - apply emits_ret.
  - apply emits_bind; [apply Hb; by constructor|].
    intros s'. apply IH. intros y Hy. apply Hb. by constructor.
Qed.

Lemma emits_bind_ret {A B} P (a : A) (k : A -> M B) :
  emits P (k a) -> emits P (bind (ret a) k).
Proof. intros H w. exact (H w). Qed.

Lemma emits_bind_raise {A B} P (e : exn) (k : A -> M B) :
  emits P (bind (raise e) k).
Proof. intros w. exists []. cbn. rewrite app_nil_r. by split. Qed.

Lemma runs_only_no_run cwd allowed e : is_run e = false -> runs_only cwd allowed e.
Proof. by destruct e. Qed.

Section MainRuns.
Variable env : Env.

Lemma runs_only_build allowed :
  allowed ["cargo"; "build"; "--release"] ->
  forall names,
    emits (runs_only (path_str (PROJECT_ROOT env)) allowed)
      (build_if_missing env names).
Proof using Type.
  intros Hc names. unfold build_if_missing. repeat emits_step; done.
Qed.

Lemma runs_only_sweep_step args n1 st :
  n1 ∈ sweep (RuntimeVsN1.n1_start args) (RuntimeVsN1.n1_end args)
         (RuntimeVsN1.n1_step args) ->
  emits (runs_only (path_str (PROJECT_ROOT env)) (may_run1 env args))
    (RuntimeVsN1.sweep_step env args n1 st).
Proof using Type.
  intros Hin.
  assert (Hrun : forall cmd timeout r,
            (let p := instance_path env n1 (RuntimeVsN1.n2 args) in
             cmd = generator_cmd env n1 (RuntimeVsN1.n2 args)
                     (RuntimeVsN1.density_g args) (RuntimeVsN1.density_h args)
                     (Some (RuntimeVsN1.seed args)) p \/
             cmd = RuntimeVsN1.exact_cmd env p (RuntimeVsN1.k args) \/
             cmd = RuntimeVsN1.approx_cmd env p (RuntimeVsN1.k args)
                     (RuntimeVsN1.trials_multiplier args)) ->
            runs_only (path_str (PROJECT_ROOT env)) (may_run1 env args)
              (EvRun cmd (path_str (PROJECT_ROOT env)) timeout r)).
  { intros cmd timeout r Hcmd. split; [done|]. right. by exists n1. }
  unfold RuntimeVsN1.sweep_step. rewrite provide_instance_shape.
  apply emits_bind.
  { apply emits_provide; try done. intros r _. apply Hrun. by left. }
  intros _. apply emits_bind.
  - unfold RuntimeVsN1.exact_step. rewrite time_solver_exact_timed.
    destruct (negb (RuntimeVsN1.exact_failed st)).
    + apply emits_bind; [|intros ?; apply emits_ret].
      apply emits_timed_run; try done. intros r. apply Hrun. right. by left.
    + apply emits_bind; [by apply emits_print|intros ?; apply emits_ret].
  - intros st'. unfold RuntimeVsN1.approx_step.
    rewrite time_solver_approx_timed.
    apply emits_bind; [|intros ?; apply emits_ret].
    apply emits_timed_run; try done. intros r. apply Hrun. right. by right.
Qed.

Lemma runs_only_sweep_step2 args n2 ts :
  n2 ∈ sweep (ApproxVsN2.n2_start args) (ApproxVsN2.n2_end args)
         (ApproxVsN2.n2_step args) ->
  emits (runs_only (path_str (PROJECT_ROOT env)) (may_run2 env args))
    (ApproxVsN2.sweep_step env args n2 ts).
Proof using Type.
  intros Hin.
  assert (Hrun : forall cmd timeout r,
            (let p := instance_path env (ApproxVsN2.n1 args) n2 in
             cmd = generator_cmd env (ApproxVsN2.n1 args) n2
                     (ApproxVsN2.density_g args) (ApproxVsN2.density_h args)
                     (Some (ApproxVsN2.seed args)) p \/
             cmd = ApproxVsN2.approx_cmd env p (ApproxVsN2.k args)
                     (ApproxVsN2.trials_multiplier args)) ->
            runs_only (path_str (PROJECT_ROOT env)) (may_run2 env args)
              (EvRun cmd (path_str (PROJECT_ROOT env)) timeout r)).
  { intros cmd timeout r Hcmd. split; [done|]. right. by exists n2. }
  unfold ApproxVsN2.sweep_step.
  rewrite provide_instance_shape2, time_solver_approx_timed2.
  apply emits_bind.
  { apply emits_provide; try done. intros r _. apply Hrun. by left. }
  intros _. apply emits_bind; [|intros ?; apply emits_ret].
  apply emits_timed_run; try done. intros r. apply Hrun. by right.
Qed.

Lemma runs_only_main args :
  emits (runs_only (path_str (PROJECT_ROOT env)) (may_run1 env args))
    (RuntimeVsN1.main env args).
Proof using Type.
  unfold RuntimeVsN1.main, py_range.
  destruct (RuntimeVsN1.n1_step args =? 0); [apply emits_bind_raise|].
  apply emits_bind_ret.
  apply emits_bind; [by apply emits_print|]. intros _.
  apply emits_bind; [by apply emits_print|]. intros _.
  apply emits_bind.
  { rewrite ensure_built_shape. apply runs_only_build. by left. }
  intros _. apply emits_bind.
  { apply emits_for_each_in. intros n1 Hin st.
    by apply runs_only_sweep_step. }
  intros st.
  apply emits_bind; [by apply emits_print|]. intros _.
  apply emits_bind.
  { apply emits_for_each. intros. by apply emits_print. }
  intros _.
  destruct (plot_runtime_quiet
              (range_items (RuntimeVsN1.n1_start args)
                 (RuntimeVsN1.n1_end args + 1) (RuntimeVsN1.n1_step args))
              (RuntimeVsN1.exact_times st)
              (RuntimeVsN1.approx_times st) (RuntimeVsN1.n2 args)
              (RuntimeVsN1.k args) (resolve env (RuntimeVsN1.output args)))
    as (evs & Hy & Hq).
  eapply emits_yields; [exact Hy|].
  eapply Forall_impl; [exact Hq|]. apply runs_only_no_run.
Qed.

Lemma runs_only_main2 args :
  emits (runs_only (path_str (PROJECT_ROOT env)) (may_run2 env args))
    (ApproxVsN2.main env args).
Proof using Type.
  unfold ApproxVsN2.main, py_range.
  destruct (ApproxVsN2.n2_step args =? 0); [apply emits_bind_raise|].
  apply emits_bind_ret. cbv zeta.
  apply emits_bind; [by apply emits_print|]. intros _.
  apply emits_bind; [by apply emits_print|]. intros _.
  apply emits_bind.
  { rewrite ensure_built_shape2. apply runs_only_build. by left. }
  intros _. apply emits_bind.
  { apply emits_for_each_in. intros n2 Hin ts.
    by apply runs_only_sweep_step2. }
  intros ts.
  apply emits_bind; [by apply emits_print|]. intros _.
  apply emits_bind.
  { apply emits_for_each. intros. by apply emits_print. }
  intros _.
  destruct (plot_runtime_quiet2
              (range_items (ApproxVsN2.n2_start args)
                 (ApproxVsN2.n2_end args + 1) (ApproxVsN2.n2_step args))
              ts (ApproxVsN2.n1 args) (ApproxVsN2.k args)
              (resolve env (ApproxVsN2.output args))
              (negb (ApproxVsN2.no_log_scale args)))
    as (evs & Hy & Hq).
  eapply emits_yields; [exact Hy|].
  eapply Forall_impl; [exact Hq|]. apply runs_only_no_run.
Qed.

(** None of the commands of the script of the [n2] sweep is the exact
    solver. *)
Lemma may_run2_not_exact args e :
  runs_only (path_str (PROJECT_ROOT env)) (may_run2 env args) e ->
  runs (bin env "exact-solver") e = false.
Proof using Type.
  destruct e as [| |cmd cwd timeout r| |]; try done.
  intros [_ [->|(n2 & _ & [->| ->])]].
  - apply runs_cargo.
  - unfold generator_cmd. cbn [app]. fold (bin env "input-generator").
    rewrite runs_bin. by apply bool_decide_eq_false_2.
  - unfold ApproxVsN2.approx_cmd. fold (bin env "approx_solver").
    rewrite runs_bin. by apply bool_decide_eq_false_2.
Qed.
End MainRuns.

(** X15.  Whatever happens, [main] starts no process but its own: every
    run it logs is started from the project root and is the build
    [cargo build --release], or, for a size [n] of the sweep, the
    generator writing the instance file of [n] with the densities and the
    seed of the arguments, or a solver of the script on that instance
    file with [--k] (and [--trials-multiplier]) of the arguments.  The
    script of the [n2] sweep never runs the exact solver. *)
Theorem main_starts_only_its_own_processes (env : Env) :
  (forall args w,
     Forall (runs_only (path_str (PROJECT_ROOT env)) (may_run1 env args))
       (new_events w (RuntimeVsN1.main env args w).2)) /\
  (forall args w,
     Forall (runs_only (path_str (PROJECT_ROOT env)) (may_run2 env args))
       (new_events w (ApproxVsN2.main env args w).2)) /\
  (forall args w,
     run_cmds (bin env "exact-solver")
       (new_events w (ApproxVsN2.main env args w).2) = []).
Proof.
  split; [|split]; intros args w.
  - apply emits_new_events, runs_only_main.
  - apply emits_new_events, runs_only_main2.
  - apply run_cmds_none.
    eapply Forall_impl; [apply emits_new_events, runs_only_main2|].
    apply may_run2_not_exact.
Qed.

(* ===================================================================== *)
(** * The log of a [main] that returns *)
(* ===================================================================== *)

Lemma print_Ret s w u w' :
  print s w = (Ret u, w') -> log w' = log w ++ [EvPrint s].
Proof. by intros [= _ <-]. Qed.

Lemma yields_Ret {A} (m : M A) a evs w b w' :
  yields m a evs -> m w = (Ret b, w') -> log w' = log w ++ evs.
Proof. intros Hy E. destruct (Hy w) as [_ Hl]. by rewrite E in Hl. Qed.

Section MainParts.
Variable env : Env.

(** A [main] that returns went through all its parts. *)
Lemma main_parts args w w' :
  RuntimeVsN1.main env args w = (Ret tt, w') ->
  let xs := sweep (RuntimeVsN1.n1_start args) (RuntimeVsN1.n1_end args)
              (RuntimeVsN1.n1_step args) in
  exists w2 w3 st w4 w5,
    log w2
    = log w ++
      [EvPrint ("Project root: " +:+ path_str (PROJECT_ROOT env));
       EvPrint ("Using fixed n2 (|VH|): " +:+ str_int (RuntimeVsN1.n2 args)
                  +:+ ", varying n1 (|VG|): " +:+ str_int_list xs
                  +:+ ", k: " +:+ str_int (RuntimeVsN1.k args))] /\
    RuntimeVsN1.ensure_built env w2 = (Ret tt, w3) /\
    RuntimeVsN1.sweep_loop env args xs w3 = (Ret st, w4) /\
    log w5
    = log w4 ++
      EvPrint (nl +:+ "Summary (seconds):")
      :: ((fun row => EvPrint (RuntimeVsN1.summary_line env row))
            <$> zip xs (zip (RuntimeVsN1.exact_times st)
                          (RuntimeVsN1.approx_times st))) /\
    RuntimeVsN1.plot_runtime xs (RuntimeVsN1.exact_times st)
      (RuntimeVsN1.approx_times st) (RuntimeVsN1.n2 args) (RuntimeVsN1.k args)
      (resolve env (RuntimeVsN1.output args)) w5 = (Ret tt, w').
Proof using Type.
  intros H xs. unfold RuntimeVsN1.main, py_range in H.
  destruct (RuntimeVsN1.n1_step args =? 0); [done|].
  change (bind (ret ?a) ?k w) with (k a w) in H. cbv beta in H.
  fold xs in H. unfold sweep in xs. fold xs in H.
  apply bind_Ret_inv in H as ([] & w1 & Hp1 & H).
  apply bind_Ret_inv in H as ([] & w2 & Hp2 & H).
  apply bind_Ret_inv in H as ([] & w3 & Hb & H).
  apply bind_Ret_inv in H as (st & w4 & Hl & H).
  apply bind_Ret_inv in H as ([] & w5a & Hp3 & H).
  apply bind_Ret_inv in H as ([] & w5 & Hs & H).
  apply print_Ret in Hp1, Hp2, Hp3.
  apply (yields_Ret _ _ _ _ _ _ (summary_yields _ _)) in Hs.
  exists w2, w3, st, w4, w5.
  split; [by rewrite Hp2, Hp1, <- app_assoc|].
  split; [done|]. split; [done|].
  split; [by rewrite Hs, Hp3, <- app_assoc|done].
Qed.

Lemma main_parts2 args w w' :
  ApproxVsN2.main env args w = (Ret tt, w') ->
  let xs := sweep (ApproxVsN2.n2_start args) (ApproxVsN2.n2_end args)
              (ApproxVsN2.n2_step args) in
  exists w2 w3 ts w4 w5,
    log w2
    = log w ++
      [EvPrint ("Project root: " +:+ path_str (PROJECT_ROOT env));
       EvPrint ("Fixed n1 (|VG|): " +:+ str_int (ApproxVsN2.n1 args)
                  +:+ ", varying n2 (|VH|): " +:+ str_int_list xs
                  +:+ ", k: " +:+ str_int (ApproxVsN2.k args))] /\
    ApproxVsN2.ensure_built env w2 = (Ret tt, w3) /\
    ApproxVsN2.sweep_loop env args xs w3 = (Ret ts, w4) /\
    log w5
    = log w4 ++
      EvPrint (nl +:+ "Summary (seconds):")
      :: ((fun row => EvPrint (ApproxVsN2.summary_line env row))
            <$> zip xs ts) /\
    ApproxVsN2.plot_runtime xs ts (ApproxVsN2.n1 args) (ApproxVsN2.k args)
      (resolve env (ApproxVsN2.output args))
      (negb (ApproxVsN2.no_log_scale args)) w5 = (Ret tt, w').
Proof using Type.
  intros H xs. unfold ApproxVsN2.main, py_range in H.
  destruct (ApproxVsN2.n2_step args =? 0); [done|].
  change (bind (ret ?a) ?k w) with (k a w) in H. cbv beta zeta in H.
  fold xs in H. unfold sweep in xs. fold xs in H.
  apply bind_Ret_inv in H as ([] & w1 & Hp1 & H).
  apply bind_Ret_inv in H as ([] & w2 & Hp2 & H).
  apply bind_Ret_inv in H as ([] & w3 & Hb & H).
  apply bind_Ret_inv in H as (ts & w4 & Hl & H).
  apply bind_Ret_inv in H as ([] & w5a & Hp3 & H).
  apply bind_Ret_inv in H as ([] & w5 & Hs & H).
  apply print_Ret in Hp1, Hp2, Hp3.
  apply (yields_Ret _ _ _ _ _ _ (summary_yields _ _)) in Hs.
  exists w2, w3, ts, w4, w5.
  split; [by rewrite Hp2, Hp1, <- app_assoc|].
  split; [done|]. split; [done|].
  split; [by rewrite Hs, Hp3, <- app_assoc|done].
Qed.
End MainParts.

Lemma plot_calls_app (evs1 evs2 : list event) :
  plot_calls (evs1 ++ evs2) = plot_calls evs1 ++ plot_calls evs2.
Proof. apply omap_app. Qed.

Lemma plot_calls_no_plt (evs : list event) :
  Forall (fun e => is_plt e = false) evs -> plot_calls evs = [].
Proof.
  induction 1 as [|e evs He _ IH]; [done|].
  change (plot_calls (e :: evs)) with (plot_calls ([e] ++ evs)).
  rewrite plot_calls_app, IH. by destruct e.
Qed.

Lemma plot_calls_prints {A} (f : A -> string) (rows : list A) :
  plot_calls ((fun row => EvPrint (f row)) <$> rows) = [].
Proof.
  apply plot_calls_no_plt, Forall_fmap, Forall_forall. by intros.
Qed.

Section MainLayout.
Variable env : Env.

Lemma sweep_event_not_plt sc t e :
  sweep_event env sc t e -> is_plt e = false.
Proof using Type. by destruct e. Qed.

Lemma main_layout args w w' :
  RuntimeVsN1.main env args w = (Ret tt, w') ->
  let xs := sweep (RuntimeVsN1.n1_start args) (RuntimeVsN1.n1_end args)
              (RuntimeVsN1.n1_step args) in
  exists st evs_work evs_plot,
    let rows := zip xs (zip (RuntimeVsN1.exact_times st)
                          (RuntimeVsN1.approx_times st)) in
    new_events w w'
    = [EvPrint ("Project root: " +:+ path_str (PROJECT_ROOT env));
       EvPrint ("Using fixed n2 (|VH|): " +:+ str_int (RuntimeVsN1.n2 args)
                  +:+ ", varying n1 (|VG|): " +:+ str_int_list xs
                  +:+ ", k: " +:+ str_int (RuntimeVsN1.k args))]
      ++ evs_work
      ++ EvPrint (nl +:+ "Summary (seconds):")
      :: ((fun row => EvPrint (RuntimeVsN1.summary_line env row)) <$> rows)
      ++ evs_plot /\
    Forall (fun e => is_plt e = false) evs_work /\
    rows.*1 = xs /\
    evs_plot = EvPlt (Figure 8 5) :: (EvPlt <$> plot_calls evs_plot)
                 ++ finish_figure1 (RuntimeVsN1.n2 args) (RuntimeVsN1.k args)
                      (resolve env (RuntimeVsN1.output args)).
Proof using Type.
  intros H xs.
  apply main_parts in H as (w2 & w3 & st & w4 & w5 & L2 & Hb & Hl & L5 & Hp).
  fold xs in L2, Hl, L5, Hp.
  destruct (emits_log _ _ _ _ _
              (sweep_event_ensure_built env (solver_cmd1 env)
                 (RuntimeVsN1.timeout_seconds args)) Hb)
    as (evs_b & L3 & Fb).
  assert (Hloop : emits (sweep_event env (solver_cmd1 env)
                           (RuntimeVsN1.timeout_seconds args))
                    (RuntimeVsN1.sweep_loop env args xs)).
  { apply emits_for_each. intros. apply sweep_event_sweep_step. }
  destruct (emits_log _ _ _ _ _ Hloop Hl) as (evs_l & L4 & Fl).
  destruct (plot_runtime_events xs (RuntimeVsN1.exact_times st)
              (RuntimeVsN1.approx_times st) (RuntimeVsN1.n2 args)
              (RuntimeVsN1.k args) (resolve env (RuntimeVsN1.output args)))
    as (evs_p & Hy & Hevs).
  pose proof (yields_Ret _ _ _ _ _ _ Hy Hp) as L6.
  unfold RuntimeVsN1.sweep_loop in Hl.
  destruct (sweep_loop_exact env _ _ _ _ _ _ Hl) as (tes & Ht & Hlen & _).
  pose proof (sweep_loop_approx_length env _ _ _ _ _ _ Hl) as Ha.
  cbn [RuntimeVsN1.exact_times RuntimeVsN1.approx_times app length] in Ht, Ha.
  exists st, (evs_b ++ evs_l), evs_p. cbv zeta. split; [|split; [|split]].
  - apply new_events_app.
    rewrite L6, L5, L4, L3, L2, <- !app_assoc. reflexivity.
  - apply Forall_app. split;
      (eapply Forall_impl; [eassumption|]; apply sweep_event_not_plt).
  - apply fst_zip. rewrite length_zip_with, Ht. lia.
  - exact Hevs.
Qed.

Lemma main_layout2 args w w' :
  ApproxVsN2.main env args w = (Ret tt, w') ->
  let xs := sweep (ApproxVsN2.n2_start args) (ApproxVsN2.n2_end args)
              (ApproxVsN2.n2_step args) in
  exists ts evs_work evs_plot,
    let rows := zip xs ts in
    new_events w w'
    = [EvPrint ("Project root: " +:+ path_str (PROJECT_ROOT env));
       EvPrint ("Fixed n1 (|VG|): " +:+ str_int (ApproxVsN2.n1 args)
                  +:+ ", varying n2 (|VH|): " +:+ str_int_list xs
                  +:+ ", k: " +:+ str_int (ApproxVsN2.k args))]
      ++ evs_work
      ++ EvPrint (nl +:+ "Summary (seconds):")
      :: ((fun row => EvPrint (ApproxVsN2.summary_line env row)) <$> rows)
      ++ evs_plot /\
    Forall (fun e => is_plt e = false) evs_work /\
    rows.*1 = xs /\
    evs_plot = EvPlt (Figure 8 5) :: (EvPlt <$> plot_calls evs_plot)
                 ++ finish_figure2 (ApproxVsN2.n1 args) (ApproxVsN2.k args)
                      (resolve env (ApproxVsN2.output args))
                      (negb (ApproxVsN2.no_log_scale args)).
Proof using Type.
  intros H xs.
  apply main_parts2 in H as (w2 & w3 & ts & w4 & w5 & L2 & Hb & Hl & L5 & Hp).
  fold xs in L2, Hl, L5, Hp.
  destruct (emits_log _ _ _ _ _
              (sweep_event_ensure_built2 env (solver_cmd2 env)
                 (ApproxVsN2.timeout_seconds args)) Hb)
    as (evs_b & L3 & Fb).
  assert (Hloop : emits (sweep_event env (solver_cmd2 env)
                           (ApproxVsN2.timeout_seconds args))
                    (ApproxVsN2.sweep_loop env args xs)).
  { apply emits_for_each. intros. apply sweep_event_sweep_step2. }
  destruct (emits_log _ _ _ _ _ Hloop Hl) as (evs_l & L4 & Fl).
  destruct (plot_runtime_events2 xs ts (ApproxVsN2.n1 args)
              (ApproxVsN2.k args) (resolve env (ApproxVsN2.output args))
              (negb (ApproxVsN2.no_log_scale args)))
    as (evs_p & Hy & Hevs).
  pose proof (yields_Ret _ _ _ _ _ _ Hy Hp) as L6.
  unfold ApproxVsN2.sweep_loop in Hl.
  pose proof (sweep_loop2_approx_length env _ _ _ _ _ _ Hl) as Ha.
  cbn [length] in Ha.
  exists ts, (evs_b ++ evs_l), evs_p. cbv zeta. split; [|split; [|split]].
  - apply new_events_app.
    rewrite L6, L5, L4, L3, L2, <- !app_assoc. reflexivity.
  - apply Forall_app. split;
      (eapply Forall_impl; [eassumption|]; apply sweep_event_not_plt).
  - apply fst_zip. lia.
  - exact Hevs.
Qed.
End MainLayout.

Lemma last_app_Some {A} (l1 l2 : list A) (x : A) :
  last l2 = Some x -> last (l1 ++ l2) = Some x.
Proof. intros H. by rewrite last_app, H. Qed.

Lemma plot_calls_no_run (evs : list event) :
  Forall (fun e => is_run e = false) (EvPlt <$> plot_calls evs).
Proof. apply Forall_fmap, Forall_forall. by intros. Qed.

(** X16.  The log of a [main] that returns, in order: the two banner
    lines; the work (build, instances, solver runs), in which nothing is
    plotted; the summary, a header and one line per sweep point in sweep
    order; and the figure, in which no process is run: a new 8 by 5
    figure, the series, and the fixed end of [plot_runtime].  The last
    thing [main] does is print where the figure was saved. *)
Theorem returning_main_layout (env : Env) :
  (forall args w w',
     RuntimeVsN1.main env args w = (Ret tt, w') ->
     let xs := sweep (RuntimeVsN1.n1_start args) (RuntimeVsN1.n1_end args)
                 (RuntimeVsN1.n1_step args) in
     let p := resolve env (RuntimeVsN1.output args) in
     exists st evs_work evs_plot,
       let rows := zip xs (zip (RuntimeVsN1.exact_times st)
                             (RuntimeVsN1.approx_times st)) in
       new_events w w'
       = [EvPrint ("Project root: " +:+ path_str (PROJECT_ROOT env));
          EvPrint ("Using fixed n2 (|VH|): " +:+ str_int (RuntimeVsN1.n2 args)
                     +:+ ", varying n1 (|VG|): " +:+ str_int_list xs
                     +:+ ", k: " +:+ str_int (RuntimeVsN1.k args))]
         ++ evs_work
         ++ EvPrint (nl +:+ "Summary (seconds):")
         :: ((fun row => EvPrint (RuntimeVsN1.summary_line env row)) <$> rows)
         ++ evs_plot /\
       Forall (fun e => is_plt e = false) evs_work /\
       rows.*1 = xs /\
       evs_plot = EvPlt (Figure 8 5) :: (EvPlt <$> plot_calls evs_plot)
                    ++ finish_figure1 (RuntimeVsN1.n2 args)
                         (RuntimeVsN1.k args) p /\
       Forall (fun e => is_run e = false) evs_plot /\
       last (new_events w w')
       = Some (EvPrint ("Saved figure to: " +:+ path_str p))) /\
  (forall args w w',
     ApproxVsN2.main env args w = (Ret tt, w') ->
     let xs := sweep (ApproxVsN2.n2_start args) (ApproxVsN2.n2_end args)
                 (ApproxVsN2.n2_step args) in
     let p := resolve env (ApproxVsN2.output args) in
     exists ts evs_work evs_plot,
       let rows := zip xs ts in
       new_events w w'
       = [EvPrint ("Project root: " +:+ path_str (PROJECT_ROOT env));
          EvPrint ("Fixed n1 (|VG|): " +:+ str_int (ApproxVsN2.n1 args)
                     +:+ ", varying n2 (|VH|): " +:+ str_int_list xs
                     +:+ ", k: " +:+ str_int (ApproxVsN2.k args))]
         ++ evs_work
         ++ EvPrint (nl +:+ "Summary (seconds):")
         :: ((fun row => EvPrint (ApproxVsN2.summary_line env row)) <$> rows)
         ++ evs_plot /\
       Forall (fun e => is_plt e = false) evs_work /\
       rows.*1 = xs /\
       evs_plot = EvPlt (Figure 8 5) :: (EvPlt <$> plot_calls evs_plot)
                    ++ finish_figure2 (ApproxVsN2.n1 args) (ApproxVsN2.k args)
                         p (negb (ApproxVsN2.no_log_scale args)) /\
       Forall (fun e => is_run e = false) evs_plot /\
       last (new_events w w')
       = Some (EvPrint ("Saved figure to: " +:+ path_str p))).
Proof.
  split; intros args w w' H xs p.
  - destruct (main_layout env args w w' H)
      as (st & evs_work & evs_plot & Hev & Hw & Hrows & Hplot).
    cbv zeta in Hev, Hrows. fold xs in Hev, Hrows. fold p in Hplot.
    exists st, evs_work, evs_plot. cbv zeta.
    split; [exact Hev|]. split; [exact Hw|]. split; [exact Hrows|].
    split; [exact Hplot|]. split.
    + rewrite Hplot. constructor; [done|]. apply Forall_app. split.
      * apply plot_calls_no_run.
      * by repeat constructor.
    + rewrite Hev. do 2 apply last_app_Some.
      rewrite app_comm_cons. apply last_app_Some.
      rewrite Hplot, app_comm_cons. by apply last_app_Some.
  - destruct (main_layout2 env args w w' H)
      as (ts & evs_work & evs_plot & Hev & Hw & Hrows & Hplot).
    cbv zeta in Hev, Hrows. fold xs in Hev, Hrows. fold p in Hplot.
    exists ts, evs_work, evs_plot. cbv zeta.
    split; [exact Hev|]. split; [exact Hw|]. split; [exact Hrows|].
    split; [exact Hplot|]. split.
    + rewrite Hplot. constructor; [done|]. apply Forall_app. split.
      * apply plot_calls_no_run.
      * unfold finish_figure2.
        destruct (negb (ApproxVsN2.no_log_scale args)); by repeat constructor.
    + rewrite Hev. do 2 apply last_app_Some.
      rewrite app_comm_cons. apply last_app_Some.
      rewrite Hplot, app_comm_cons. apply last_app_Some.
      unfold finish_figure2. by apply last_app_Some.
Qed.

Lemma returning_main_layout_witness :
  let r := ApproxVsN2.main Scenario.env (Scenario.args2 10 20)
             Scenario.built in
  last (new_events Scenario.built r.2)
  = Some (EvPrint "Saved figure to: /repo/approx.png").
Proof.
  intros r. destruct r as [o w'] eqn:E.
  assert (Ho : o = Ret tt).
  { assert (o = r.1) as -> by (subst r; by rewrite E).
    vm_compute. reflexivity. }
  subst o.
  destruct (returning_main_layout Scenario.env) as [_ H].
  destruct (H (Scenario.args2 10 20) Scenario.built w' E)
    as (ts & evs_work & evs_plot & _ & _ & _ & _ & _ & Hlast).
  exact Hlast.
Defined.

Lemma plot_calls_only_plots (evs : list event) (c : plt_call) :
  c ∈ plot_calls evs ->
  exists xs ys marker linestyle color label,
    c = Plot xs ys marker linestyle color label.
Proof.
  intros Hc. apply list_elem_of_omap in Hc as (e & _ & He).
  destruct e as [| | | |[]]; try discriminate.
  injection He as <-. by do 6 eexists.
Qed.

Lemma no_plt_not_elem (evs : list event) (c : plt_call) :
  Forall (fun e => is_plt e = false) evs -> EvPlt c ∉ evs.
Proof.
  intros Hall Hin. rewrite Forall_forall in Hall. by apply Hall in Hin.
Qed.

(** Where a pyplot call other than the first and the series can be in
    the log of a [main] that returns: in the fixed end of
    [plot_runtime]. *)
Lemma plt_in_layout (c : plt_call) (banner work lines finish : list event)
    (header : event) (pc : list plt_call) :
  Forall (fun e => is_plt e = false) banner ->
  Forall (fun e => is_plt e = false) work ->
  Forall (fun e => is_plt e = false) (header :: lines) ->
  c <> Figure 8 5 ->
  c ∉ pc ->
  EvPlt c ∈ banner ++ work ++ header :: lines
             ++ EvPlt (Figure 8 5) :: (EvPlt <$> pc) ++ finish
  <-> EvPlt c ∈ finish.
Proof.
  intros Hb Hw Hl Hfig Hpc. split.
  - rewrite !elem_of_app.
    intros [H|[H|H]];
      [by apply (no_plt_not_elem _ _ Hb) in H
      |by apply (no_plt_not_elem _ _ Hw) in H|].
    rewrite app_comm_cons in H. apply elem_of_app in H as [H|H];
      [by apply (no_plt_not_elem _ _ Hl) in H|].
    apply elem_of_cons in H as [[= H]|H]; [done|].
    apply elem_of_app in H as [H|H]; [|done].
    apply list_elem_of_fmap in H as (c' & [= <-] & H). done.
  - intros H. do 2 (apply elem_of_app; right). right.
    apply elem_of_app. right. right. apply elem_of_app. by right.
Qed.

(** X17.  [--no-log-scale] does what it says, and only in the script
    that has it.  A [main] of the [n1] sweep that returns has always set
    the log scale.  A [main] of the [n2] sweep that returns has called
    [plt.yscale("log")] exactly when [--no-log-scale] was not given, and
    its y label says so. *)
Theorem log_scale_switch (env : Env) :
  (forall args w w',
     RuntimeVsN1.main env args w = (Ret tt, w') ->
     EvPlt (Yscale "log") ∈ new_events w w') /\
  (forall args w w',
     ApproxVsN2.main env args w = (Ret tt, w') ->
     (EvPlt (Yscale "log") ∈ new_events w w'
      <-> ApproxVsN2.no_log_scale args = false) /\
     EvPlt (Ylabel (if ApproxVsN2.no_log_scale args
                    then "Execution time (seconds )"
                    else "Execution time (seconds, log scale )"))
     ∈ new_events w w').
Proof.
  split; intros args w w' H.
  - destruct (main_layout env args w w' H)
      as (st & evs_work & evs_plot & Hev & Hw & _ & Hplot).
    cbv zeta in Hev. rewrite Hev. rewrite Hplot at 1.
    apply plt_in_layout; [by repeat constructor|done| |done| |by left].
    + constructor; [done|]. apply Forall_fmap, Forall_forall. by intros.
    + by intros (? & ? & ? & ? & ? & ? & ?)%plot_calls_only_plots.
  - destruct (main_layout2 env args w w' H)
      as (ts & evs_work & evs_plot & Hev & Hw & _ & Hplot).
    cbv zeta in Hev.
    assert (Hin : forall c,
              c <> Figure 8 5 ->
              c ∉ plot_calls evs_plot ->
              EvPlt c ∈ new_events w w'
              <-> EvPlt c ∈ finish_figure2 (ApproxVsN2.n1 args)
                             (ApproxVsN2.k args)
                             (resolve env (ApproxVsN2.output args))
                             (negb (ApproxVsN2.no_log_scale args))).
    { intros c Hfig Hpc. rewrite Hev. rewrite Hplot at 1.
      apply plt_in_layout; [by repeat constructor|done| |done|done].
      constructor; [done|]. apply Forall_fmap, Forall_forall. by intros. }
    split.
    + rewrite Hin;
        [|done|by intros (? & ? & ? & ? & ? & ? & ?)%plot_calls_only_plots].
      unfold finish_figure2.
      destruct (ApproxVsN2.no_log_scale args); cbn [negb app].
      * split; [|done]. rewrite !elem_of_cons.
        intros H'; repeat (destruct H' as [H'|H']; [discriminate|]).
        by apply elem_of_nil in H'.
      * split; [done|]. intros _. by left.
    + apply Hin;
        [done|by intros (? & ? & ? & ? & ? & ? & ?)%plot_calls_only_plots|].
      unfold finish_figure2.
      destruct (ApproxVsN2.no_log_scale args); cbn [negb app].
      * right. by left.
      * right. right. by left.
Qed.

Lemma log_scale_switch_witness :
  let r := ApproxVsN2.main Scenario.env (Scenario.args2 10 20)
             Scenario.built in
  EvPlt (Yscale "log") ∈ new_events Scenario.built r.2.
Proof.
  intros r. destruct r as [o w'] eqn:E.
  assert (Ho : o = Ret tt).
  { assert (o = r.1) as -> by (subst r; by rewrite E).
    vm_compute. reflexivity. }
  subst o.
  destruct (log_scale_switch Scenario.env) as [_ H].
  destruct (H (Scenario.args2 10 20) Scenario.built w' E) as [[_ Hlog] _].
  by apply Hlog.
Defined.

(* ===================================================================== *)
(** * A sweep whose instance files are all there *)
(* ===================================================================== *)

Lemma keeps_ret {A} S R (a : A) : keeps S R (ret a).
Proof. intros w HS. split; [done|]. exists []. by rewrite app_nil_r. Qed.

Lemma keeps_raise {A} S R e : keeps S R (@raise A e).
Proof. intros w HS. split; [done|]. exists []. by rewrite app_nil_r. Qed.

Lemma keeps_bind {A B} S R (m : M A) (k : A -> M B) :
  keeps S R m -> (forall a, keeps S R (k a)) -> keeps S R (bind m k).
Proof.
  intros Hm Hk w HS. destruct (Hm w HS) as (HS1 & evs1 & E1 & F1).
  destruct (bind_cases m k w) as [(a & _ & ->)|(_ & ->)].
  - destruct (Hk a (m w).2 HS1) as (HS2 & evs2 & E2 & F2).
    split; [done|]. exists (evs1 ++ evs2). rewrite E2, E1, app_assoc.
    split; [done|]. by apply Forall_app.
  - split; [done|]. by exists evs1.
Qed.

Lemma keeps_for_each_in {A St} S R (xs : list A) (body : A -> St -> M St) s :
  (forall x, x ∈ xs -> forall s, keeps S R (body x s)) ->
  keeps S R (for_each xs body s).
Proof.
  revert s. induction xs as [|x xs IH]; intros s Hb; cbn [for_each].
  - apply keeps_ret.
  - apply keeps_bind; [apply Hb; by constructor|].
    intros s'. apply IH. intros y Hy. apply Hb. by constructor.
Qed.

Lemma keeps_emit S R e : R e -> keeps S R (emit e).
Proof.
  intros He w HS. split; [done|]. exists [e]. split; [done|]. by constructor.
Qed.

Lemma keeps_print S R s : R (EvPrint s) -> keeps S R (print s).
Proof. apply keeps_emit. Qed.

Lemma keeps_plt S R c : R (EvPlt c) -> keeps S R (plt c).
Proof.
  intros He w HS. split.
  - unfold plt. cbn [snd files]. destruct c; set_solver.
  - exists [EvPlt c]. split; [done|]. by constructor.
Qed.

Lemma keeps_mkdir_parents S R p : R (EvMkdir p) -> keeps S R (mkdir_parents p).
Proof.
  intros He w HS. split.
  - unfold mkdir_parents. cbn [snd files]. set_solver.
  - exists [EvMkdir p]. split; [done|]. by constructor.
Qed.

Lemma keeps_path_exists S R p : keeps S R (path_exists p).
Proof. intros w HS. split; [done|]. exists []. by rewrite app_nil_r. Qed.

Lemma keeps_index {A} S R (xs : list A) i : keeps S R (index xs i).
Proof. unfold index. destruct (xs !! i); [apply keeps_ret|apply keeps_raise]. Qed.

Lemma keeps_yields_quiet {A} S R (m : M A) a evs :
  yields m a evs -> Forall R evs ->
  (forall w, files w ⊆ files (m w).2) -> keeps S R m.
Proof.
  intros Hy HR Hf w HS. split; [by etrans|].
  exists evs. split; [apply Hy|done].
Qed.

Section CachedSweep.
Variable env : Env.
Hypothesis no_removal : only_adds env.
Variable S : gset Path.
Variable R : event -> Prop.
Hypothesis R_print : forall s, R (EvPrint s).
Hypothesis R_clock : forall t, R (EvClock t).
Hypothesis R_mkdir : forall p, R (EvMkdir p).
Hypothesis R_plt : forall c, R (EvPlt c).

Lemma keeps_perf_counter : keeps S R (perf_counter env).
Proof using All.
  intros w HS. split; [done|]. exists [EvClock (clock env w)].
  split; [done|]. by constructor.
Qed.

Lemma keeps_run_cmd cmd cwd timeout :
  (forall r, R (EvRun cmd (path_str cwd) timeout r)) ->
  keeps S R (run_cmd env cmd cwd timeout).
Proof using All.
  intros Hr w HS. split.
  - pose proof (no_removal cmd (path_str cwd) w) as Hadd.
    unfold run_cmd, try_except, bind, subprocess_run.
    destruct (proc env cmd (path_str cwd) w)
      as [[secs rc out| |err|secs rc why] fs];
      cbn [snd] in Hadd.
    + destruct timeout as [t|]; [destruct (Qle_bool secs (inject_Z t))|];
        cbn [snd files]; set_solver.
    + destruct timeout as [t|]; cbn [snd files]; set_solver.
    + done.
    + destruct timeout as [t|]; [destruct (Qle_bool secs (inject_Z t))|];
        cbn [snd files]; set_solver.
  - destruct (run_cmd_run env cmd cwd timeout w) as (r & fs & -> & _).
    eexists. split; [reflexivity|]. by constructor.
Qed.

Lemma keeps_need_build_loop names : keeps S R (need_build_loop env names).
Proof using All.
  induction names as [|n names IH]; cbn [need_build_loop]; [apply keeps_ret|].
  apply keeps_bind; [apply keeps_path_exists|].
  intros []; [apply IH|apply keeps_ret].
Qed.

Lemma keeps_build_if_missing names :
  (forall r, R (cargo_run env r)) -> keeps S R (build_if_missing env names).
Proof using All.
  intros Hc. unfold build_if_missing.
  apply keeps_bind; [apply keeps_need_build_loop|].
  intros []; [|apply keeps_ret].
  apply keeps_bind; [by apply keeps_print|]. intros _.
  apply keeps_bind; [by apply keeps_run_cmd|]. intros [code out].
  apply keeps_bind; [by apply keeps_print|]. intros _.
  destruct (negb (code =? 0)); [|apply keeps_ret].
  apply keeps_bind; [by apply keeps_print|]. intros _. apply keeps_raise.
Qed.

Lemma keeps_timed_run cmd tag field p timeout :
  (forall r, R (EvRun cmd (path_str (PROJECT_ROOT env)) (Some timeout) r)) ->
  keeps S R (timed_run env cmd tag field p timeout).
Proof using All.
  intros Hr. unfold timed_run.
  apply keeps_bind; [apply keeps_perf_counter|]. intros start.
  apply keeps_bind; [by apply keeps_run_cmd|]. intros [code out].
  apply keeps_bind; [apply keeps_perf_counter|]. intros stop.
  apply keeps_bind; [apply keeps_index|]. intros label.
  apply keeps_bind; [by apply keeps_print|]. intros _.
  destruct (negb (code =? 0)); [|apply keeps_ret].
  apply keeps_bind; [by apply keeps_print|]. intros _. apply keeps_ret.
Qed.

(** With its file among the paths that stay, the instance step is a
    cache hit. *)
Lemma keeps_provide show_cmd n1 n2 dg dh seed :
  instance_path env n1 n2 ∈ S ->
  keeps S R (provide env show_cmd n1 n2 dg dh seed).
Proof using All.
  intros Hin w HS. rewrite provide_cached by set_solver.
  split; [done|]. eexists. split; [reflexivity|]. by constructor.
Qed.

Lemma keeps_plot_runtime n1_values exact_times approx_times n2 k output_path :
  keeps S R (RuntimeVsN1.plot_runtime n1_values exact_times approx_times n2 k
               output_path).
Proof using All.
  unfold RuntimeVsN1.plot_runtime.
  apply keeps_bind; [by apply keeps_plt|]. intros _.
  destruct (mask_vals n1_values exact_times) as [x_exact y_exact].
  destruct (mask_vals n1_values approx_times) as [x_approx y_approx].
  apply keeps_bind.
  { destruct x_exact; [apply keeps_ret|by apply keeps_plt]. }
  intros _. apply keeps_bind.
  { destruct x_approx; [apply keeps_ret|by apply keeps_plt]. }
  intros _.
  repeat (apply keeps_bind;
          [first [by apply keeps_plt|by apply keeps_mkdir_parents]|intros _]).
  by apply keeps_print.
Qed.

Lemma keeps_plot_runtime2 n2_values approx_times n1 k output_path log_scale :
  keeps S R (ApproxVsN2.plot_runtime n2_values approx_times n1 k output_path
               log_scale).
Proof using All.
  unfold ApproxVsN2.plot_runtime.
  apply keeps_bind; [by apply keeps_plt|]. intros _.
  destruct (mask_vals n2_values approx_times) as [xs ys].
  apply keeps_bind.
  { destruct xs; [apply keeps_ret|by apply keeps_plt]. }
  intros _. apply keeps_bind.
  { destruct log_scale; [by apply keeps_plt|apply keeps_ret]. }
  intros _.
  repeat (apply keeps_bind;
          [first [by apply keeps_plt|by apply keeps_mkdir_parents]|intros _]).
  by apply keeps_print.
Qed.

Hypothesis R_run : forall cmd cwd timeout r,
  (cmd = ["cargo"; "build"; "--release"] \/
   exists name rest, cmd = bin env name :: rest /\ name <> "input-generator") ->
  R (EvRun cmd cwd timeout r).

Lemma keeps_bind_ret {A B} (a : A) (k : A -> M B) :
  keeps S R (k a) -> keeps S R (bind (ret a) k).
Proof using All. intros H w. exact (H w). Qed.

Lemma keeps_bind_raise {A B} (e : exn) (k : A -> M B) :
  keeps S R (bind (raise e) k).
Proof using All.
  intros w HS. split; [done|]. exists []. cbn. by rewrite app_nil_r.
Qed.

Lemma keeps_solver name rest tag field p timeout :
  name <> "input-generator" ->
  keeps S R (timed_run env (bin env name :: rest) tag field p timeout).
Proof using All.
  intros Hn. apply keeps_timed_run. intros r. apply R_run. right. eauto.
Qed.

Lemma keeps_main args :
  (forall n1,
     n1 ∈ sweep (RuntimeVsN1.n1_start args) (RuntimeVsN1.n1_end args)
            (RuntimeVsN1.n1_step args) ->
     instance_path env n1 (RuntimeVsN1.n2 args) ∈ S) ->
  keeps S R (RuntimeVsN1.main env args).
Proof using All.
  intros Hall. unfold RuntimeVsN1.main, py_range.
  destruct (RuntimeVsN1.n1_step args =? 0); [apply keeps_bind_raise|].
  apply keeps_bind_ret.
  apply keeps_bind; [by apply keeps_print|]. intros _.
  apply keeps_bind; [by apply keeps_print|]. intros _.
  apply keeps_bind.
  { rewrite ensure_built_shape. apply keeps_build_if_missing.
    intros r. apply R_run. by left. }
  intros _. apply keeps_bind.
  { apply keeps_for_each_in. intros n1 Hin st.
    unfold RuntimeVsN1.sweep_step. rewrite provide_instance_shape.
    apply keeps_bind; [apply keeps_provide; by apply Hall|]. intros _.
    apply keeps_bind.
    - unfold RuntimeVsN1.exact_step. rewrite time_solver_exact_timed.
      destruct (negb (RuntimeVsN1.exact_failed st)).
      + apply keeps_bind; [|intros ?; apply keeps_ret].
        by apply (keeps_solver "exact-solver").
      + apply keeps_bind; [by apply keeps_print|intros ?; apply keeps_ret].
    - intros st'. unfold RuntimeVsN1.approx_step.
      rewrite time_solver_approx_timed.
      apply keeps_bind; [|intros ?; apply keeps_ret].
      by apply (keeps_solver "approx-solver"). }
  intros st.
  apply keeps_bind; [by apply keeps_print|]. intros _.
  apply keeps_bind.
  { apply keeps_for_each_in. intros. by apply keeps_print. }
  intros _. apply keeps_plot_runtime.
Qed.

Lemma keeps_main2 args :
  (forall n2,
     n2 ∈ sweep (ApproxVsN2.n2_start args) (ApproxVsN2.n2_end args)
            (ApproxVsN2.n2_step args) ->
     instance_path env (ApproxVsN2.n1 args) n2 ∈ S) ->
  keeps S R (ApproxVsN2.main env args).
Proof using All.
  intros Hall. unfold ApproxVsN2.main, py_range.
  destruct (ApproxVsN2.n2_step args =? 0); [apply keeps_bind_raise|].
  apply keeps_bind_ret. cbv zeta.
  apply keeps_bind; [by apply keeps_print|]. intros _.
  apply keeps_bind; [by apply keeps_print|]. intros _.
  apply keeps_bind.
  { rewrite ensure_built_shape2. apply keeps_build_if_missing.
    intros r. apply R_run. by left. }
  intros _. apply keeps_bind.
  { apply keeps_for_each_in. intros n2 Hin ts.
    unfold ApproxVsN2.sweep_step.
    rewrite provide_instance_shape2, time_solver_approx_timed2.
    apply keeps_bind; [apply keeps_provide; by apply Hall|]. intros _.
    apply keeps_bind; [|intros ?; apply keeps_ret].
    by apply (keeps_solver "approx_solver"). }
  intros ts.
  apply keeps_bind; [by apply keeps_print|]. intros _.
  apply keeps_bind.
  { apply keeps_for_each_in. intros. by apply keeps_print. }
  intros _. apply keeps_plot_runtime2.
Qed.
End CachedSweep.

Lemma no_generator_run (env : Env) cmd cwd timeout r :
  (cmd = ["cargo"; "build"; "--release"] \/
   exists name rest, cmd = bin env name :: rest /\ name <> "input-generator") ->
  runs (bin env "input-generator") (EvRun cmd cwd timeout r) = false.
Proof.
  intros [->|(name & rest & -> & Hn)].
  - apply runs_cargo.
  - rewrite runs_bin. apply bool_decide_eq_false_2. congruence.
Qed.

(** X18.  With every instance file of the sweep in place, [main] never
    runs the generator, whatever else happens, provided that no process
    removes a path: the files stay where they are through the build, the
    solver runs and the figure, so every instance step of the loop is a
    cache hit. *)
Theorem complete_cache_runs_no_generator (env : Env) :
  only_adds env ->
  (forall args w,
     (forall n1,
        n1 ∈ sweep (RuntimeVsN1.n1_start args) (RuntimeVsN1.n1_end args)
               (RuntimeVsN1.n1_step args) ->
        instance_path env n1 (RuntimeVsN1.n2 args) ∈ files w) ->
     let r := RuntimeVsN1.main env args w in
     run_cmds (bin env "input-generator") (new_events w r.2) = [] /\
     files w ⊆ files r.2) /\
  (forall args w,
     (forall n2,
        n2 ∈ sweep (ApproxVsN2.n2_start args) (ApproxVsN2.n2_end args)
               (ApproxVsN2.n2_step args) ->
        instance_path env (ApproxVsN2.n1 args) n2 ∈ files w) ->
     let r := ApproxVsN2.main env args w in
     run_cmds (bin env "input-generator") (new_events w r.2) = [] /\
     files w ⊆ files r.2).
Proof.
  intros Hadd. split; intros args w Hall r; subst r.
  - destruct (keeps_main env Hadd (files w)
                (fun e => runs (bin env "input-generator") e = false)
                (fun _ => eq_refl) (fun _ => eq_refl) (fun _ => eq_refl)
                (fun _ => eq_refl) (no_generator_run env) args Hall w)
      as (Hf & evs & Hl & Hr); [done|].
    split; [|done]. rewrite (new_events_app _ _ _ Hl).
    by apply run_cmds_none.
  - destruct (keeps_main2 env Hadd (files w)
                (fun e => runs (bin env "input-generator") e = false)
                (fun _ => eq_refl) (fun _ => eq_refl) (fun _ => eq_refl)
                (fun _ => eq_refl) (no_generator_run env) args Hall w)
      as (Hf & evs & Hl & Hr); [done|].
    split; [|done]. rewrite (new_events_app _ _ _ Hl).
    by apply run_cmds_none.
Qed.

Lemma complete_cache_runs_no_generator_witness :
  run_cmds (bin Scenario.env "input-generator")
    (new_events Cached.world
       (RuntimeVsN1.main Scenario.env (Scenario.args 2 3) Cached.world).2)
  = [].
Proof.
  assert (Hadd : only_adds Scenario.env).
  { intros cmd cwd w. cbn [proc Scenario.env]. unfold Scenario.processes.
    destruct cmd as [|prog rest]; [done|].
    repeat match goal with
           | |- context [if ?b then _ else _] => destruct b
           end; cbn [snd]; set_solver. }
  destruct (complete_cache_runs_no_generator Scenario.env Hadd) as [H _].
  apply (H (Scenario.args 2 3) Cached.world).
  intros n1 Hin.
  change (sweep (RuntimeVsN1.n1_start (Scenario.args 2 3))
            (RuntimeVsN1.n1_end (Scenario.args 2 3))
            (RuntimeVsN1.n1_step (Scenario.args 2 3))) with [2; 3] in Hin.
  apply elem_of_cons in Hin as [->|Hin];
    [apply (bool_decide_unpack _); vm_compute; exact I|].
  apply elem_of_cons in Hin as [->|Hin];
    [apply (bool_decide_unpack _); vm_compute; exact I|].
  by apply elem_of_nil in Hin.
Defined.

(* ===================================================================== *)
(** * Solver failures do not end the run *)
(* ===================================================================== *)

Lemma no_budget_generator (env : Env) n1 n2 dg dh seed p :
  no_budget env (generator_cmd env n1 n2 dg dh seed p) = true.
Proof.
  unfold generator_cmd. cbn [app no_budget].
  fold (bin env "input-generator"). by rewrite String.eqb_refl, orb_true_r.
Qed.

Lemma fair_run_quiet (env : Env) (e : event) :
  is_run e = false -> fair_run env e.
Proof. by destruct e. Qed.

(** A log in which every run is fair holds no cause of an ending other
    than a return. *)
Lemma fair_ending (env : Env) (en : ending) (evs : list event) :
  cause env en evs -> Forall (fair_run env) evs -> en = Returned.
Proof.
  intros Hc Hf. rewrite Forall_forall in Hf.
  destruct en as [|x|]; [done|exfalso..].
  - destruct x; cbn [cause] in Hc; try done.
    + destruct Hc as (e & Hin & Hg). specialize (Hf e Hin).
      destruct e as [| |[|c cmd] cwd t [code out| | | |]| |]; try done.
      cbn [gen_failed fair_run no_budget] in Hg, Hf.
      apply andb_true_iff in Hg as [Hc Hne].
      rewrite Hc, orb_true_r in Hf. rewrite (Hf eq_refl) in Hne. done.
    + destruct Hc as (cmd & cwd & t & Hin). by specialize (Hf _ Hin).
    + destruct Hc as (_ & e & Hin & Hg). specialize (Hf e Hin).
      destruct e as [| |[|c cmd] cwd t [rc out| | | |]| |]; try done.
      cbn [build_failed fair_run no_budget] in Hg, Hf.
      apply andb_true_iff in Hg as [Hc Hne].
      rewrite Hc in Hf. rewrite (Hf eq_refl) in Hne. done.
    + destruct Hc as (cmd & cwd & t & Hin). by specialize (Hf _ Hin).
  - destruct Hc as (cmd & cwd & Hin). by specialize (Hf _ Hin).
Qed.

(** A computation whose endings are accounted for returns when every run
    it logs is fair. *)
Lemma fair_returns (env : Env) {A} (m : M A) w :
  logs (accounted env) m -> emits (fair_run env) m ->
  exists a w', m w = (Ret a, w').
Proof.
  intros Ha Hf. destruct (Ha w) as (evs1 & E1 & [_ Hc]).
  destruct (Hf w) as (evs2 & E2 & F).
  assert (evs2 = evs1) as -> by (rewrite E1 in E2; by apply app_inv_head in E2).
  pose proof (fair_ending _ _ _ Hc F) as He.
  destruct (m w) as [[a|x|] w']; [by exists a, w'|done..].
Qed.

Section SolversMayFail.
Variable env : Env.
Hypothesis Hfair : solvers_may_fail env.

(** Where only solvers fail, [run_cmd] returns whenever it is called
    with a timeout, or on the build or the generator. *)
Lemma fair_run_cmd cmd cwd timeout :
  (timeout = None -> no_budget env cmd = true) ->
  emits (fair_run env) (run_cmd env cmd cwd timeout).
Proof using Hfair.
  intros Hnb w. pose proof (Hfair cmd (path_str cwd) w) as H.
  unfold run_cmd, try_except, bind, subprocess_run.
  destruct (proc env cmd (path_str cwd) w)
    as [[secs rc out| |err|secs rc why] fs]; cbn [fst] in H; [| |done..].
  - destruct timeout as [t|]; [destruct (Qle_bool secs (inject_Z t))|];
      cbn [fst snd log];
      (eexists; split; [reflexivity|]; by repeat constructor).
  - destruct timeout as [t|]; cbn [fst snd log].
    + eexists; split; [reflexivity|]; by repeat constructor.
    + rewrite (Hnb eq_refl) in H. done.
Qed.

Lemma fair_timed_run cmd tag field p timeout :
  emits (fair_run env) (timed_run env cmd tag field p timeout).
Proof using Hfair.
  unfold timed_run.
  apply emits_bind; [by apply emits_perf_counter|]. intros start.
  apply emits_bind; [by apply fair_run_cmd|]. intros [code out].
  apply emits_bind; [by apply emits_perf_counter|]. intros stop.
  apply emits_bind; [apply emits_index|]. intros label.
  apply emits_bind; [by apply emits_print|]. intros _.
  destruct (negb (code =? 0)); [|apply emits_ret].
  apply emits_bind; [by apply emits_print|]. intros _. apply emits_ret.
Qed.

Lemma fair_provide show_cmd n1 n2 dg dh seed :
  emits (fair_run env) (provide env show_cmd n1 n2 dg dh seed).
Proof using Hfair.
  unfold provide.
  apply emits_bind; [apply emits_path_exists|].
  intros []; cbn [negb]; [by apply emits_print|].
  apply emits_bind; [by apply emits_print|]. intros _.
  unfold generate, before_generator. cbv zeta.
  apply emits_bind.
  { apply emits_bind; [by apply emits_mkdir_parents|]. intros _.
    destruct show_cmd; [by apply emits_print|apply emits_ret]. }
  intros _.
  apply emits_bind;
    [apply fair_run_cmd; intros _; apply no_budget_generator|].
  intros [code out].
  apply emits_bind; [by apply emits_print|]. intros _.
  destruct (negb (code =? 0)); [|by apply emits_print].
  apply emits_bind; [by apply emits_print|]. intros _. apply emits_raise.
Qed.

Lemma fair_build_if_missing names :
  emits (fair_run env) (build_if_missing env names).
Proof using Hfair.
  unfold build_if_missing.
  apply emits_bind; [apply emits_need_build_loop|].
  intros []; [|apply emits_ret].
  apply emits_bind; [by apply emits_print|]. intros _.
  apply emits_bind; [apply fair_run_cmd; by intros _|]. intros [code out].
  apply emits_bind; [by apply emits_print|]. intros _.
  destruct (negb (code =? 0)); [|apply emits_ret].
  apply emits_bind; [by apply emits_print|]. intros _. apply emits_raise.
Qed.

Lemma fair_sweep_step args n1 st :
  emits (fair_run env) (RuntimeVsN1.sweep_step env args n1 st).
Proof using Hfair.
  unfold RuntimeVsN1.sweep_step. rewrite provide_instance_shape.
  apply emits_bind; [apply fair_provide|]. intros _.
  apply emits_bind.
  - unfold RuntimeVsN1.exact_step. rewrite time_solver_exact_timed.
    destruct (negb (RuntimeVsN1.exact_failed st)).
    + apply emits_bind; [apply fair_timed_run|intros ?; apply emits_ret].
    + apply emits_bind; [by apply emits_print|intros ?; apply emits_ret].
  - intros st'. unfold RuntimeVsN1.approx_step.
    rewrite time_solver_approx_timed.
    apply emits_bind; [apply fair_timed_run|intros ?; apply emits_ret].
Qed.

Lemma fair_sweep_step2 args n2 ts :
  emits (fair_run env) (ApproxVsN2.sweep_step env args n2 ts).
Proof using Hfair.
  unfold ApproxVsN2.sweep_step.
  rewrite provide_instance_shape2, time_solver_approx_timed2.
  apply emits_bind; [apply fair_provide|]. intros _.
  apply emits_bind; [apply fair_timed_run|intros ?; apply emits_ret].
Qed.

(** Where only solvers fail, the sweep loop gets through every list of
    sizes. *)
Lemma sweep_loop_returns args xs w :
  exists st w', RuntimeVsN1.sweep_loop env args xs w = (Ret st, w').
Proof using Hfair.
  apply (fair_returns env).
  - apply logs_for_each; [apply accounted_sequential|].
    intros. apply accounted_sweep_step.
  - apply emits_for_each. intros. apply fair_sweep_step.
Qed.

Lemma sweep_loop_returns2 args xs w :
  exists ts w', ApproxVsN2.sweep_loop env args xs w = (Ret ts, w').
Proof using Hfair.
  apply (fair_returns env).
  - apply logs_for_each; [apply accounted_sequential|].
    intros. apply accounted_sweep_step2.
  - apply emits_for_each. intros. apply fair_sweep_step2.
Qed.

Lemma fair_main args : emits (fair_run env) (RuntimeVsN1.main env args).
Proof using Hfair.
  unfold RuntimeVsN1.main.
  apply emits_bind; [apply emits_py_range|]. intros n1_values.
  apply emits_bind; [by apply emits_print|]. intros _.
  apply emits_bind; [by apply emits_print|]. intros _.
  apply emits_bind;
    [rewrite ensure_built_shape; apply fair_build_if_missing|]. intros _.
  apply emits_bind;
    [apply emits_for_each; intros; apply fair_sweep_step|]. intros st.
  apply emits_bind; [by apply emits_print|]. intros _.
  apply emits_bind; [apply emits_for_each; intros; by apply emits_print|].
  intros _.
  destruct (plot_runtime_quiet n1_values (RuntimeVsN1.exact_times st)
              (RuntimeVsN1.approx_times st) (RuntimeVsN1.n2 args)
              (RuntimeVsN1.k args) (resolve env (RuntimeVsN1.output args)))
    as (evs & Hy & Hq).
  eapply emits_yields; [exact Hy|].
  eapply Forall_impl; [exact Hq|]. apply fair_run_quiet.
Qed.

Lemma fair_main2 args : emits (fair_run env) (ApproxVsN2.main env args).
Proof using Hfair.
  unfold ApproxVsN2.main.
  apply emits_bind; [apply emits_py_range|]. intros n2_values.
  apply emits_bind; [by apply emits_print|]. intros _.
  apply emits_bind; [by apply emits_print|]. intros _.
  apply emits_bind;
    [rewrite ensure_built_shape2; apply fair_build_if_missing|]. intros _.
  apply emits_bind;
    [apply emits_for_each; intros; apply fair_sweep_step2|]. intros ts.
  apply emits_bind; [by apply emits_print|]. intros _.
  apply emits_bind; [apply emits_for_each; intros; by apply emits_print|].
  intros _.
  destruct (plot_runtime_quiet2 n2_values ts (ApproxVsN2.n1 args)
              (ApproxVsN2.k args) (resolve env (ApproxVsN2.output args))
              (negb (ApproxVsN2.no_log_scale args)))
    as (evs & Hy & Hq).
  eapply emits_yields; [exact Hy|].
  eapply Forall_impl; [exact Hq|]. apply fair_run_quiet.
Qed.
End SolversMayFail.

(** In the example world of failing solvers only solvers fail. *)
Lemma solvers_fail_only : solvers_may_fail SolversFail.env.
Proof.
  intros cmd cwd w. destruct cmd as [|prog rest]; [done|].
  cbn [proc SolversFail.env SolversFail.processes].
  unfold no_budget.
  change (bin SolversFail.env "input-generator")
    with "/repo/target/release/input-generator".
  destruct (String.eqb prog "cargo"); [done|].
  destruct (String.eqb prog "/repo/target/release/input-generator"); [done|].
  destruct (String.eqb prog "/repo/target/release/exact-solver"); done.
Qed.

(** C9.  The approximate solver is never stopped early.  In both
    scripts, every pass of the loop that returns has run the approximate
    solver exactly once, on the instance of its sweep point, whatever the
    state of the loop before (the flag of the exact solver and the
    outcomes recorded so far); so a loop that gets through the sizes [xs]
    has run it once per size, in order, and recorded one outcome per
    size.  And the loop does get through: it ends before the last size
    only with a [cause] in the log, which a solver that exits with a
    non-zero status or is timed out is not; so where only solvers fail,
    however often and at whichever sizes, the loop returns for every list
    of sizes, having run the approximate solver once per size. *)
Theorem approx_solver_never_stopped (env : Env) :
  (forall (args : RuntimeVsN1.Args) n1 st w st' w',
     RuntimeVsN1.sweep_step env args n1 st w = (Ret st', w') ->
     run_cmds (bin env "approx-solver") (new_events w w')
     = [RuntimeVsN1.approx_cmd env
          (instance_path env n1 (RuntimeVsN1.n2 args)) (RuntimeVsN1.k args)
          (RuntimeVsN1.trials_multiplier args)]) /\
  (forall (args : RuntimeVsN1.Args) xs w st w',
     RuntimeVsN1.sweep_loop env args xs w = (Ret st, w') ->
     run_cmds (bin env "approx-solver") (new_events w w')
     = (fun n1 => RuntimeVsN1.approx_cmd env
                    (instance_path env n1 (RuntimeVsN1.n2 args))
                    (RuntimeVsN1.k args) (RuntimeVsN1.trials_multiplier args))
         <$> xs /\
     length (RuntimeVsN1.approx_times st) = length xs) /\
  (forall (args : ApproxVsN2.Args) n2 ts w ts' w',
     ApproxVsN2.sweep_step env args n2 ts w = (Ret ts', w') ->
     run_cmds (bin env "approx_solver") (new_events w w')
     = [ApproxVsN2.approx_cmd env
          (instance_path env (ApproxVsN2.n1 args) n2) (ApproxVsN2.k args)
          (ApproxVsN2.trials_multiplier args)]) /\
  (forall (args : ApproxVsN2.Args) xs w ts w',
     ApproxVsN2.sweep_loop env args xs w = (Ret ts, w') ->
     run_cmds (bin env "approx_solver") (new_events w w')
     = (fun n2 => ApproxVsN2.approx_cmd env
                    (instance_path env (ApproxVsN2.n1 args) n2)
                    (ApproxVsN2.k args) (ApproxVsN2.trials_multiplier args))
         <$> xs /\
     length ts = length xs) /\
  (forall (args : RuntimeVsN1.Args) xs w,
     let r := RuntimeVsN1.sweep_loop env args xs w in
     cause env (ending_of r.1) (new_events w r.2)) /\
  (forall (args : ApproxVsN2.Args) xs w,
     let r := ApproxVsN2.sweep_loop env args xs w in
     cause env (ending_of r.1) (new_events w r.2)) /\
  (solvers_may_fail env ->
   (forall (args : RuntimeVsN1.Args) xs w,
      exists st w',
        RuntimeVsN1.sweep_loop env args xs w = (Ret st, w') /\
        run_cmds (bin env "approx-solver") (new_events w w')
        = (fun n1 => RuntimeVsN1.approx_cmd env
                       (instance_path env n1 (RuntimeVsN1.n2 args))
                       (RuntimeVsN1.k args)
                       (RuntimeVsN1.trials_multiplier args))
            <$> xs /\
        length (RuntimeVsN1.approx_times st) = length xs) /\
   (forall (args : ApproxVsN2.Args) xs w,
      exists ts w',
        ApproxVsN2.sweep_loop env args xs w = (Ret ts, w') /\
        run_cmds (bin env "approx_solver") (new_events w w')
        = (fun n2 => ApproxVsN2.approx_cmd env
                       (instance_path env (ApproxVsN2.n1 args) n2)
                       (ApproxVsN2.k args)
                       (ApproxVsN2.trials_multiplier args))
            <$> xs /\
        length ts = length xs)).
Proof.
  assert (H1 : forall (args : RuntimeVsN1.Args) n1 st w st' w',
     RuntimeVsN1.sweep_step env args n1 st w = (Ret st', w') ->
     run_cmds (bin env "approx-solver") (new_events w w')
     = [RuntimeVsN1.approx_cmd env
          (instance_path env n1 (RuntimeVsN1.n2 args)) (RuntimeVsN1.k args)
          (RuntimeVsN1.trials_multiplier args)]).
  { intros args n1 st w st' w' H.
    apply sweep_step_Ret in H as (te & ta & evs & _ & Hlog & Hc & _).
    by rewrite (new_events_app _ _ _ Hlog). }
  assert (H2 : forall (args : ApproxVsN2.Args) n2 ts w ts' w',
     ApproxVsN2.sweep_step env args n2 ts w = (Ret ts', w') ->
     run_cmds (bin env "approx_solver") (new_events w w')
     = [ApproxVsN2.approx_cmd env
          (instance_path env (ApproxVsN2.n1 args) n2) (ApproxVsN2.k args)
          (ApproxVsN2.trials_multiplier args)]).
  { intros args n2 ts w ts' w' H.
    apply sweep_step2_Ret in H as (ta & evs & _ & Hlog & Hc).
    by rewrite (new_events_app _ _ _ Hlog). }
  assert (L1 : forall (args : RuntimeVsN1.Args) xs w st w',
     RuntimeVsN1.sweep_loop env args xs w = (Ret st, w') ->
     run_cmds (bin env "approx-solver") (new_events w w')
     = (fun n1 => RuntimeVsN1.approx_cmd env
                    (instance_path env n1 (RuntimeVsN1.n2 args))
                    (RuntimeVsN1.k args) (RuntimeVsN1.trials_multiplier args))
         <$> xs /\
     length (RuntimeVsN1.approx_times st) = length xs).
  { intros args xs w st w' H. unfold RuntimeVsN1.sweep_loop in H. split.
    + eapply (for_each_run_cmds _ _ xs (RuntimeVsN1.sweep_step env args));
        [apply sweep_step_log|apply H1|exact H].
    + by rewrite (sweep_loop_approx_length env _ _ _ _ _ _ H). }
  assert (L2 : forall (args : ApproxVsN2.Args) xs w ts w',
     ApproxVsN2.sweep_loop env args xs w = (Ret ts, w') ->
     run_cmds (bin env "approx_solver") (new_events w w')
     = (fun n2 => ApproxVsN2.approx_cmd env
                    (instance_path env (ApproxVsN2.n1 args) n2)
                    (ApproxVsN2.k args) (ApproxVsN2.trials_multiplier args))
         <$> xs /\
     length ts = length xs).
  { intros args xs w ts w' H. unfold ApproxVsN2.sweep_loop in H. split.
    + eapply (for_each_run_cmds _ _ xs (ApproxVsN2.sweep_step env args));
        [apply sweep_step2_log|apply H2|exact H].
    + by rewrite (sweep_loop2_approx_length env _ _ _ _ _ _ H). }
  split; [exact H1|]. split; [exact L1|]. split; [exact H2|].
  split; [exact L2|]. split; [|split].
  - intros args xs w r. subst r.
    assert (Ha : logs (accounted env) (RuntimeVsN1.sweep_loop env args xs)).
    { apply logs_for_each; [apply accounted_sequential|].
      intros. apply accounted_sweep_step. }
    destruct (Ha w) as (evs & E & [_ Hc]).
    by rewrite (new_events_app _ _ _ E).
  - intros args xs w r. subst r.
    assert (Ha : logs (accounted env) (ApproxVsN2.sweep_loop env args xs)).
    { apply logs_for_each; [apply accounted_sequential|].
      intros. apply accounted_sweep_step2. }
    destruct (Ha w) as (evs & E & [_ Hc]).
    by rewrite (new_events_app _ _ _ E).
  - intros Hfair. split; intros args xs w.
    + destruct (sweep_loop_returns env Hfair args xs w) as (st & w' & E).
      exists st, w'. split; [exact E|]. by apply L1.
    + destruct (sweep_loop_returns2 env Hfair args xs w) as (ts & w' & E).
      exists ts, w'. split; [exact E|]. by apply L2.
Qed.

Lemma approx_solver_never_stopped_witness :
  (let r := RuntimeVsN1.sweep_loop Scenario.env (Scenario.args 2 5)
              [2; 3; 4; 5] Scenario.built in
   length (run_cmds (bin Scenario.env "approx-solver")
             (new_events Scenario.built r.2)) = 4%nat) /\
  solvers_may_fail SolversFail.env /\
  (exists st w',
     RuntimeVsN1.sweep_loop SolversFail.env (Scenario.args 2 4) [2; 3; 4]
       Scenario.built = (Ret st, w') /\
     RuntimeVsN1.approx_times st = [None; None; None] /\
     length (run_cmds (bin SolversFail.env "approx-solver")
               (new_events Scenario.built w')) = 3%nat) /\
  (exists ts w',
     ApproxVsN2.sweep_loop SolversFail.env (Scenario.args2 10 20) [10; 15; 20]
       Scenario.built = (Ret ts, w') /\
     ts = [None; None; None] /\
     length (run_cmds (bin SolversFail.env "approx_solver")
               (new_events Scenario.built w')) = 3%nat).
Proof.
  split; [|split; [exact solvers_fail_only|split]].
  - intros r. destruct r as [o w'] eqn:E.
    assert (Ho : exists st, o = Ret st).
    { assert (o = r.1) as -> by (subst r; by rewrite E).
      vm_compute. by eexists. }
    destruct Ho as [st ->].
    destruct (approx_solver_never_stopped Scenario.env) as (_ & H & _).
    destruct (H (Scenario.args 2 5) [2; 3; 4; 5] Scenario.built st w' E)
      as [Hc _].
    cbn [snd]. by rewrite Hc.
  - destruct (approx_solver_never_stopped SolversFail.env)
      as (_ & _ & _ & _ & _ & _ & H).
    destruct (H solvers_fail_only) as [H1 _].
    destruct (H1 (Scenario.args 2 4) [2; 3; 4] Scenario.built)
      as (st & w' & E & Hc & _).
    exists st, w'. split; [exact E|]. split; [|by rewrite Hc].
    assert (Ho : (RuntimeVsN1.sweep_loop SolversFail.env (Scenario.args 2 4)
                    [2; 3; 4] Scenario.built).1
                 = Ret (RuntimeVsN1.mkLoop [None; None; None]
                          [None; None; None] true))
      by (vm_compute; reflexivity).
    rewrite E in Ho. cbn [fst] in Ho. by injection Ho as ->.
  - destruct (approx_solver_never_stopped SolversFail.env)
      as (_ & _ & _ & _ & _ & _ & H).
    destruct (H solvers_fail_only) as [_ H2].
    destruct (H2 (Scenario.args2 10 20) [10; 15; 20] Scenario.built)
      as (ts & w' & E & Hc & _).
    exists ts, w'. split; [exact E|]. split; [|by rewrite Hc].
    assert (Ho : (ApproxVsN2.sweep_loop SolversFail.env (Scenario.args2 10 20)
                    [10; 15; 20] Scenario.built).1
                 = Ret [None; None; None])
      by (vm_compute; reflexivity).
    rewrite E in Ho. cbn [fst] in Ho. by injection Ho as ->.
Defined.

(* ===================================================================== *)
(** * A failed generator run ends [main]; failed solver runs do not *)
(* ===================================================================== *)

Section Fatal.
Variable env : Env.

(** A [main] that returns has begun the figure and called [savefig]
    once. *)
Lemma main_saves args w w' :
  RuntimeVsN1.main env args w = (Ret tt, w') ->
  plotted (new_events w w') /\
  savefigs (new_events w w')
  = [EvPlt (Savefig (resolve env (RuntimeVsN1.output args)) 200)].
Proof using Type.
  intros H. split.
  - destruct (main_layout env args w w' H)
      as (st & evs_work & evs_plot & Hev & _ & _ & Hplot).
    cbv zeta in Hev. unfold plotted. rewrite Hev.
    apply elem_of_app. right. apply elem_of_app. right.
    apply elem_of_cons. right. apply elem_of_app. right.
    exact (elem_of_head _ _ _ Hplot).
  - apply main_Ret in H as (xs & st & w1 & evs & Hl & Hq & Hplot).
    destruct (plot_runtime_saves xs (RuntimeVsN1.exact_times st)
                (RuntimeVsN1.approx_times st) (RuntimeVsN1.n2 args)
                (RuntimeVsN1.k args) (resolve env (RuntimeVsN1.output args))
                w1) as (_ & Hs' & _).
    rewrite Hplot in Hs'. cbn [snd] in Hs'.
    assert (Hl' : exists evs', log w' = log w1 ++ evs').
    { destruct (plot_runtime_quiet xs (RuntimeVsN1.exact_times st)
                  (RuntimeVsN1.approx_times st) (RuntimeVsN1.n2 args)
                  (RuntimeVsN1.k args)
                  (resolve env (RuntimeVsN1.output args)))
        as (evs' & Hy & _).
      exists evs'. destruct (Hy w1) as [_ Hlog]. by rewrite Hplot in Hlog. }
    destruct Hl' as [evs' Hl'].
    rewrite (new_events_trans _ _ _ _ _ Hl Hl'), savefigs_app, Hs'.
    by rewrite (new_events_app _ _ _ Hl), (savefigs_none _ Hq).
Qed.

Lemma main_saves2 args w w' :
  ApproxVsN2.main env args w = (Ret tt, w') ->
  plotted (new_events w w') /\
  savefigs (new_events w w')
  = [EvPlt (Savefig (resolve env (ApproxVsN2.output args)) 200)].
Proof using Type.
  intros H. split.
  - destruct (main_layout2 env args w w' H)
      as (ts & evs_work & evs_plot & Hev & _ & _ & Hplot).
    cbv zeta in Hev. unfold plotted. rewrite Hev.
    apply elem_of_app. right. apply elem_of_app. right.
    apply elem_of_cons. right. apply elem_of_app. right.
    exact (elem_of_head _ _ _ Hplot).
  - apply main_Ret2 in H as (xs & ts & w1 & evs & Hl & Hq & Hplot).
    destruct (plot_runtime_saves2 xs ts (ApproxVsN2.n1 args)
                (ApproxVsN2.k args) (resolve env (ApproxVsN2.output args))
                (negb (ApproxVsN2.no_log_scale args)) w1) as (_ & Hs' & _).
    rewrite Hplot in Hs'. cbn [snd] in Hs'.
    assert (Hl' : exists evs', log w' = log w1 ++ evs').
    { destruct (plot_runtime_quiet2 xs ts (ApproxVsN2.n1 args)
                  (ApproxVsN2.k args) (resolve env (ApproxVsN2.output args))
                  (negb (ApproxVsN2.no_log_scale args)))
        as (evs' & Hy & _).
      exists evs'. destruct (Hy w1) as [_ Hlog]. by rewrite Hplot in Hlog. }
    destruct Hl' as [evs' Hl'].
    rewrite (new_events_trans _ _ _ _ _ Hl Hl'), savefigs_app, Hs'.
    by rewrite (new_events_app _ _ _ Hl), (savefigs_none _ Hq).
Qed.

(** The three parts of C4, for a computation that ends at once for a
    zero step, whose endings are accounted for otherwise, that saves no
    figure unless it returns, and that has plotted when it returns. *)
Lemma fatal_generation (m : M unit) (step : Z) (p : Path) w :
  (step = 0 -> exists msg, m w = (Raise (ValueError msg), w)) ->
  (step <> 0 -> logs (accounted env) m) ->
  logs unsaved m ->
  (forall w', m w = (Ret tt, w') ->
     plotted (new_events w w') /\
     savefigs (new_events w w') = [EvPlt (Savefig p 200)]) ->
  (solvers_may_fail env -> emits (fair_run env) m) ->
  let r := m w in
  let evs := new_events w r.2 in
  (forall pre e post,
     evs = pre ++ e :: post -> gen_failed env e = true ->
     (exists msg, r.1 = Raise (RuntimeError msg)) /\
     exit_status r.1 = Some 1 /\
     Forall quiet post /\
     savefigs evs = []) /\
  (plotted evs \/ aborted env step (ending_of r.1) evs) /\
  (solvers_may_fail env -> step <> 0 ->
   plotted evs /\ savefigs evs = [EvPlt (Savefig p 200)]).
Proof using Type.
  intros Hz Ha Hu Hret Hf r evs. subst r evs.
  destruct (Z.eq_dec step 0) as [Hs|Hs].
  { destruct (Hz Hs) as [msg ->]. cbn [fst snd]. unfold new_events.
    rewrite drop_all. split; [|split].
    - intros [|x pre] e post Heq; discriminate.
    - right. by cbn.
    - by intros _ Hne. }
  destruct (Ha Hs w) as (evs1 & E1 & Hacc).
  destruct (Hu w) as (evs2 & E2 & Huns).
  assert (evs2 = evs1) as -> by (rewrite E1 in E2; by apply app_inv_head in E2).
  rewrite (new_events_app _ _ _ E1).
  split; [|split].
  - intros pre e post -> He. destruct Hacc as [Hfatal _].
    destruct (Hfatal pre e post eq_refl He) as [[msg Hmsg] Hq].
    assert (Hne : ending_of (m w).1 <> Returned) by by rewrite Hmsg.
    destruct (m w).1 as [a|x|]; cbn [ending_of] in Hmsg; try done.
    injection Hmsg as ->. split; [eauto|]. split; [done|]. split; [done|].
    by apply savefigs_none, Huns.
  - destruct Hacc as [_ Hc].
    destruct (m w) as [[[]|x|] w'] eqn:E; cbn [fst snd ending_of] in *.
    + left. destruct (Hret w' eq_refl) as [Hp _].
      by rewrite (new_events_app _ _ _ E1) in Hp.
    + right. by destruct x.
    + by right.
  - intros Hfair _. destruct Hacc as [_ Hc].
    destruct (Hf Hfair w) as (evs3 & E3 & F).
    assert (evs3 = evs1) as -> by (rewrite E1 in E3; by apply app_inv_head in E3).
    pose proof (fair_ending _ _ _ Hc F) as He.
    destruct (m w) as [[[]|x|] w'] eqn:E; cbn [fst snd ending_of] in *;
      try done.
    specialize (Hret w' eq_refl).
    by rewrite (new_events_app _ _ _ E1) in Hret.
Qed.
End Fatal.

(** C4.  In both scripts, a run of the generator that exits with a
    non-zero status ends [main] with [RuntimeError], hence with exit
    status 1: after it no process is run (so no retry and no later sweep
    point), and [plt.savefig] is never called, so no figure is written.
    A solver that fails never ends [main].  First, a [main] that has not
    begun the figure did not return, and for one of these reasons only:
    [ValueError] for a zero step, [SystemExit(1)] after a failed build,
    [RuntimeError] after a failed generator run, [OSError] after a
    process that could not be started, [UnicodeDecodeError] after a
    process whose output did not decode, or waiting forever for a process
    that was run without a timeout; the cause is in the log, and a solver
    that exits with a non-zero status or is timed out is none.  Second,
    where only solvers fail and the step is not zero, [main] gets through
    the sweep, begins the figure and calls [plt.savefig], however often
    the solvers fail. *)
Theorem generation_failure_is_fatal (env : Env) :
  (forall args w,
     let r := RuntimeVsN1.main env args w in
     let evs := new_events w r.2 in
     let p := resolve env (RuntimeVsN1.output args) in
     (forall pre e post,
        evs = pre ++ e :: post -> gen_failed env e = true ->
        (exists msg, r.1 = Raise (RuntimeError msg)) /\
        exit_status r.1 = Some 1 /\
        Forall quiet post /\
        savefigs evs = []) /\
     (plotted evs \/
      aborted env (RuntimeVsN1.n1_step args) (ending_of r.1) evs) /\
     (solvers_may_fail env -> RuntimeVsN1.n1_step args <> 0 ->
      plotted evs /\ savefigs evs = [EvPlt (Savefig p 200)])) /\
  (forall args w,
     let r := ApproxVsN2.main env args w in
     let evs := new_events w r.2 in
     let p := resolve env (ApproxVsN2.output args) in
     (forall pre e post,
        evs = pre ++ e :: post -> gen_failed env e = true ->
        (exists msg, r.1 = Raise (RuntimeError msg)) /\
        exit_status r.1 = Some 1 /\
        Forall quiet post /\
        savefigs evs = []) /\
     (plotted evs \/
      aborted env (ApproxVsN2.n2_step args) (ending_of r.1) evs) /\
     (solvers_may_fail env -> ApproxVsN2.n2_step args <> 0 ->
      plotted evs /\ savefigs evs = [EvPlt (Savefig p 200)])).
Proof.
  split; intros args w.
  - apply (fatal_generation env).
    + intros Hz. eexists. unfold RuntimeVsN1.main, py_range.
      by rewrite Hz.
    + intros Hs. by apply accounted_main.
    + apply unsaved_main.
    + intros w'. apply main_saves.
    + intros Hfair. by apply fair_main.
  - apply (fatal_generation env).
    + intros Hz. eexists. unfold ApproxVsN2.main, py_range.
      by rewrite Hz.
    + intros Hs. by apply accounted_main2.
    + apply unsaved_main2.
    + intros w'. apply main_saves2.
    + intros Hfair. by apply fair_main2.
Qed.

Lemma generation_failure_is_fatal_witness :
  (let r := RuntimeVsN1.main Scenario.env (Scenario.args 5 6) Scenario.built in
   exit_status r.1 = Some 1 /\
   savefigs (new_events Scenario.built r.2) = []) /\
  solvers_may_fail SolversFail.env /\
  (let r := RuntimeVsN1.main SolversFail.env (Scenario.args 2 4)
              Scenario.built in
   plotted (new_events Scenario.built r.2) /\
   savefigs (new_events Scenario.built r.2)
   = [EvPlt (Savefig ["repo"; "runtime.png"] 200)]) /\
  (let r := ApproxVsN2.main SolversFail.env (Scenario.args2 10 20)
              Scenario.built in
   plotted (new_events Scenario.built r.2) /\
   savefigs (new_events Scenario.built r.2)
   = [EvPlt (Savefig ["repo"; "approx.png"] 200)]).
Proof.
  split; [|split; [exact solvers_fail_only|split]].
  - intros r.
    destruct (generation_failure_is_fatal Scenario.env) as [H _].
    destruct (H (Scenario.args 5 6) Scenario.built) as [Hfatal _].
    fold r in Hfatal.
    assert (He : exists e, new_events Scenario.built r.2 !! 20%nat = Some e /\
                           gen_failed Scenario.env e = true).
    { vm_compute. eexists. split; reflexivity. }
    destruct He as (e & Hin & He).
    apply list_elem_of_lookup_2, list_elem_of_split in Hin
      as (pre & post & Hsplit).
    destruct (Hfatal pre e post Hsplit He) as (_ & Hexit & _ & Hfig).
    by split.
  - intros r.
    destruct (generation_failure_is_fatal SolversFail.env) as [H _].
    destruct (H (Scenario.args 2 4) Scenario.built) as (_ & _ & Hgo).
    apply Hgo; [exact solvers_fail_only|by cbn].
  - intros r.
    destruct (generation_failure_is_fatal SolversFail.env) as [_ H].
    destruct (H (Scenario.args2 10 20) Scenario.built) as (_ & _ & Hgo).
    apply Hgo; [exact solvers_fail_only|by cbn].
Defined.
